(** * iplex.uz static site generator: the translation pipeline of [build.py]

    A shallow embedding of the core of [src/build.py]: the Python string
    primitives it calls, slug and excerpt derivation, the cross-reference
    draw, the content-addressed translation cache (with [hashlib.md5]), the
    chunking translator with its retry loop, the progress ledger and the
    per-language pass that aggregates worker results.

    Python [str] values are modelled as lists of characters whose code points
    lie in U+0000..U+00FF (one [ascii] per code point); on that range the
    tables below ([isspace], [lower], the regex classes) are those of
    CPython 3. Integers are [Z] or [nat], dictionaries are [gmap]s. *)

From Stdlib Require Import ZArith List Ascii String Lia Bool Recdef FunInd.
From Stdlib Require Import Sorting.Permutation Sorting.Sorted.
From Stdlib Require Import Floats.SpecFloat.
From stdpp Require Import gmap strings list pretty.
Import ListNotations.
Open Scope list_scope.

(** ** Python strings *)

Module PyStr.

Definition str := list ascii.

(** A literal of the source. *)
Definition lit (s : string) : str := list_ascii_of_string s.

Definition code (c : ascii) : N := N_of_ascii c.

Definition in_range (lo hi : N) (c : ascii) : bool :=
  ((lo <=? code c) && (code c <=? hi))%N.

(** [str.isspace] on one character, also the regex class [\s]:
    TAB..CR, FS..US, SPACE, NEL and NBSP. *)
Definition isspace (c : ascii) : bool :=
  in_range 9 13 c || in_range 28 32 c || in_range 133 133 c || in_range 160 160 c.

(** [str.lower]: A-Z and the capital letters of the Latin-1 block
    (all of U+00C0..U+00DE but the multiplication sign). *)
Definition lower_char (c : ascii) : ascii :=
  if in_range 65 90 c || (in_range 192 222 c && negb (in_range 215 215 c))
  then ascii_of_N (code c + 32) else c.

Definition lower (s : str) : str := map lower_char s.

(** The regex class [\w]: [str.isalnum] or the underscore. *)
Definition is_word (c : ascii) : bool :=
  in_range 48 57 c || in_range 65 90 c || in_range 95 95 c || in_range 97 122 c
  || in_range 170 170 c || in_range 178 179 c || in_range 181 181 c
  || in_range 185 186 c || in_range 188 190 c || in_range 192 214 c
  || in_range 216 246 c || in_range 248 255 c.

(** Truth value of a string: [if s:]. *)
Definition truthy (s : str) : bool :=
  match s with [] => false | _ :: _ => true end.

Fixpoint lskip (cls : ascii -> bool) (s : str) : str :=
  match s with
  | c :: r => if cls c then lskip cls r else s
  | [] => []
  end.

(** [s.strip()]: the leading whitespace goes, then the trailing one,
    on the reversed string ([rev_append _ []] reverses in one pass). *)
Definition strip (s : str) : str :=
  rev_append (lskip isspace (rev_append (lskip isspace s) [])) [].

(** [s.split()]: the maximal runs of non-whitespace characters. *)
Fixpoint split_ws (s : str) : list str :=
  match s with
  | [] => []
  | c :: r =>
      if isspace c then split_ws r
      else match r with
           | [] => [[c]]
           | c' :: _ =>
               if isspace c' then [c] :: split_ws r
               else match split_ws r with
                    | w :: ws => (c :: w) :: ws
                    | [] => [[c]]
                    end
           end
  end.

(** [s.split('. ')]: cut at each occurrence of the two-character
    delimiter, scanning from the left; always at least one piece. *)
Fixpoint split_dot_space (s : str) : list str :=
  match s with
  | [] => [[]]
  | c :: r =>
      match Ascii.eqb c ".", r with
      | true, c' :: r' =>
          if Ascii.eqb c' " " then [] :: split_dot_space r'
          else match split_dot_space r with
               | p :: ps => (c :: p) :: ps
               | [] => [[c]]
               end
      | _, _ =>
          match split_dot_space r with
          | p :: ps => (c :: p) :: ps
          | [] => [[c]]
          end
      end
  end.

(** [sep.join(parts)] *)
Fixpoint join (sep : str) (parts : list str) : str :=
  match parts with
  | [] => []
  | [p] => p
  | p :: ps => p ++ sep ++ join sep ps
  end.

(** [s.rfind(ch)] for a one-character needle: the highest index holding
    [ch], or -1. *)
Fixpoint rfind_from (ch : ascii) (s : str) (i : Z) (best : Z) : Z :=
  match s with
  | [] => best
  | c :: r => rfind_from ch r (i + 1) (if Ascii.eqb c ch then i else best)
  end.

Definition rfind (ch : ascii) (s : str) : Z := rfind_from ch s 0 (-1).

(** [s[:n]] for any integer [n]: a negative bound counts from the end. *)
Definition slice_to (s : str) (n : Z) : str :=
  if (0 <=? n)%Z then firstn (Z.to_nat n) s
  else firstn (length s - Z.to_nat (- n)) s.

(** ** [re.sub] for the two pattern shapes of the source

    [One cls] is a character set [[...]], [Many cls] is [[...]+]. The
    engine scans from the left; at each position it tries the pattern,
    replaces the (greedy) match and resumes right after it, or copies one
    character and moves on. Neither shape matches the empty string. *)
Inductive pattern :=
| One (cls : ascii -> bool)
| Many (cls : ascii -> bool).

Definition match_at (p : pattern) (s : str) : option str :=
  match s with
  | [] => None
  | c :: r =>
      match p with
      | One cls => if cls c then Some r else None
      | Many cls => if cls c then Some (lskip cls r) else None
      end
  end.

Function re_sub (p : pattern) (repl : str) (s : str) {measure length s} : str :=
  match s with
  | [] => []
  | c :: r =>
      match match_at p s with
      | Some rest => repl ++ re_sub p repl rest
      | None => c :: re_sub p repl r
      end
  end.
Proof.
  - intros p repl s c r Hs rest Hm.
    assert (Hskip : forall cls t, length (lskip cls t) <= length t).
    { intros cls t. induction t as [|a t IH]; simpl; [lia|].
      destruct (cls a); simpl; lia. }
    simpl in Hm. destruct p as [cls|cls]; destruct (cls c); try discriminate;
      injection Hm as <-; simpl; [lia|].
    specialize (Hskip cls r). lia.
  - intros. simpl. lia.
Defined.

(** [p] as a prefix of [s]: what follows it. *)
Fixpoint strip_prefix (p s : str) : option str :=
  match p, s with
  | [], _ => Some s
  | a :: p', b :: s' => if Ascii.eqb a b then strip_prefix p' s' else None
  | _ :: _, [] => None
  end.

(** [s.replace(old, new)] for a non-empty [old], the only use of the
    source: every occurrence, scanning from the left. *)
Function replace (old new : str) (s : str) {measure length s} : str :=
  match s with
  | [] => []
  | c :: r =>
      match old with
      | [] => s
      | _ :: _ =>
          match strip_prefix old s with
          | Some rest => new ++ replace old new rest
          | None => c :: replace old new r
          end
      end
  end.
Proof.
  - intros old new s c r Hs a old' Hold rest Hp.
    assert (Hlen : forall p t u, strip_prefix p t = Some u ->
                                 length t = length p + length u).
    { induction p as [|x p IH]; intros [|y t] u; simpl; try discriminate.
      - intros [= <-]. reflexivity.
      - intros [= <-]. reflexivity.
      - destruct (Ascii.eqb x y); [|discriminate].
        intros H. apply IH in H. lia. }
    apply Hlen in Hp. simpl in *. lia.
  - intros. simpl. lia.
Defined.

End PyStr.

Import PyStr.

(** ** Exceptions and results *)

Inductive exn :=
| ValueError
| IndexError
| KeyError
| ParserRejectedMarkup
| ProviderError (msg : str).

Inductive res (A : Type) :=
| Ok (a : A)
| Raise (e : exn).
Arguments Ok {A} a.
Arguments Raise {A} e.

(** ** Slugs: [generate_slug] *)

Module Slug.

Definition is_hyphen (c : ascii) : bool := Ascii.eqb c "-".

(** The class [[^\w\s-]]. *)
Definition cls_strip (c : ascii) : bool :=
  negb (is_word c || isspace c || is_hyphen c).

(** The class [[-\s]]. *)
Definition cls_sep (c : ascii) : bool := is_hyphen c || isspace c.

Definition generate_slug (title : str) : str :=
  let slug := re_sub (One cls_strip) [] (lower title) in
  let slug := re_sub (Many cls_sep) (lit "-") slug in
  firstn 100 slug.

(** The derivation as the specification words it. *)

(** Strip the characters outside the word, space and hyphen classes. *)
Definition strip_foreign (s : str) : str :=
  List.filter (fun c => is_word c || isspace c || is_hyphen c) s.

(** Collapse every run of whitespace or hyphens to a single hyphen: a
    separator followed by another separator vanishes, the last one of its
    run becomes the hyphen. *)
Fixpoint collapse_runs (s : str) : str :=
  match s with
  | [] => []
  | c :: r =>
      if cls_sep c then
        match r with
        | c' :: _ => if cls_sep c' then collapse_runs r
                     else "-"%char :: collapse_runs r
        | [] => ["-"%char]
        end
      else c :: collapse_runs r
  end.

Definition slug_of_spec (title : str) : str :=
  firstn 100 (collapse_runs (strip_foreign (lower title))).

End Slug.

(** ** Excerpts: [extract_meta_description] *)

Module Meta.

(** The double nearest to 0.7, as mantissa and exponent. *)
Definition float_0_7 : spec_float := S754_finite false 6305039478318694 (-53).

(** [float(n)] in binary64, rounding to nearest even. Python raises
    [OverflowError] beyond the double range, which no string length
    reaches; the model saturates to infinity there. *)
Definition float_of_int (n : Z) : spec_float := binary_normalize 53 1024 n 0 false.

(** [z > f] for an integer and a double: Python compares the exact values. *)
Definition int_gt_float (z : Z) (f : spec_float) : bool :=
  match f with
  | S754_zero _ => (0 <? z)%Z
  | S754_infinity s => s
  | S754_nan => false
  | S754_finite s m e =>
      let v := if s then Z.neg m else Z.pos m in
      if (0 <=? e)%Z then (v * 2 ^ e <? z)%Z else (v <? z * 2 ^ (- e))%Z
  end.

Section WithParser.

(** [BeautifulSoup(content, 'html.parser').get_text(strip=True)]: the
    markup parser is an external library. *)
Variable get_text : str -> res str.

(** The cut of an over-long text: lines 424-428. *)
Definition cut_excerpt (text : str) (max_length : Z) : str :=
  let truncated := slice_to text max_length in
  let last_period := rfind "." truncated in
  if int_gt_float last_period (SFmul 53 1024 (float_of_int max_length) float_0_7)
  then slice_to truncated (last_period + 1)
  else truncated ++ lit "...".

Definition extract_meta_description (content : str) (max_length : Z) : res str :=
  if negb (truthy content) then Ok []
  else
    match get_text content with
    | Raise e => Raise e
    | Ok text =>
        if (max_length <? Z.of_nat (length text))%Z
        then Ok (cut_excerpt text max_length)
        else Ok text
    end.

End WithParser.

End Meta.

(** ** [hashlib.md5] (RFC 1321) over byte lists, words as [Z] modulo 2^32 *)

Module MD5.

Local Open Scope Z_scope.

Definition w32 (x : Z) : Z := x mod 2 ^ 32.

Definition not32 (x : Z) : Z := Z.lxor x 4294967295.

Definition rotl (x c : Z) : Z :=
  w32 (Z.lor (Z.shiftl x c) (Z.shiftr x (32 - c))).

Definition shifts : list Z :=
  [7; 12; 17; 22; 7; 12; 17; 22; 7; 12; 17; 22; 7; 12; 17; 22;
   5; 9; 14; 20; 5; 9; 14; 20; 5; 9; 14; 20; 5; 9; 14; 20;
   4; 11; 16; 23; 4; 11; 16; 23; 4; 11; 16; 23; 4; 11; 16; 23;
   6; 10; 15; 21; 6; 10; 15; 21; 6; 10; 15; 21; 6; 10; 15; 21].

(** [K[i] = floor(2^32 * abs(sin(i + 1)))] *)
Definition K : list Z :=
  [3614090360; 3905402710; 606105819; 3250441966;
   4118548399; 1200080426; 2821735955; 4249261313;
   1770035416; 2336552879; 4294925233; 2304563134;
   1804603682; 4254626195; 2792965006; 1236535329;
   4129170786; 3225465664; 643717713; 3921069994;
   3593408605; 38016083; 3634488961; 3889429448;
   568446438; 3275163606; 4107603335; 1163531501;
   2850285829; 4243563512; 1735328473; 2368359562;
   4294588738; 2272392833; 1839030562; 4259657740;
   2763975236; 1272893353; 4139469664; 3200236656;
   681279174; 3936430074; 3572445317; 76029189;
   3654602809; 3873151461; 530742520; 3299628645;
   4096336452; 1126891415; 2878612391; 4237533241;
   1700485571; 2399980690; 4293915773; 2240044497;
   1873313359; 4264355552; 2734768916; 1309151649;
   4149444226; 3174756917; 718787259; 3951481745].

Fixpoint le_bytes (n : nat) (x : Z) : list Z :=
  match n with
  | O => []
  | S n' => x mod 256 :: le_bytes n' (x / 256)
  end.

Fixpoint word_of_le (bs : list Z) : Z :=
  match bs with
  | [] => 0
  | b :: r => b + 256 * word_of_le r
  end.

Fixpoint words_of (n : nat) (bs : list Z) : list Z :=
  match n with
  | O => []
  | S n' => word_of_le (firstn 4 bs) :: words_of n' (skipn 4 bs)
  end.

(** Padding: a 1 bit, zeros up to 56 modulo 64 bytes, the bit length on
    64 bits, low byte first. *)
Definition pad (msg : list Z) : list Z :=
  let len := Z.of_nat (length msg) in
  msg ++ [128] ++ repeat 0 (Z.to_nat ((55 - len) mod 64))
      ++ le_bytes 8 ((8 * len) mod 2 ^ 64).

Definition state : Type := Z * Z * Z * Z.

Definition init : state := (1732584193, 4023233417, 2562383102, 271733878).

Definition step (M : list Z) (st : state) (i : nat) : state :=
  let '(A, B, C, D) := st in
  let iz := Z.of_nat i in
  let '(F, g) :=
    if iz <? 16 then (Z.lor (Z.land B C) (Z.land (not32 B) D), iz)
    else if iz <? 32 then
      (Z.lor (Z.land D B) (Z.land (not32 D) C), (5 * iz + 1) mod 16)
    else if iz <? 48 then (Z.lxor (Z.lxor B C) D, (3 * iz + 5) mod 16)
    else (Z.lxor C (Z.lor B (not32 D)), (7 * iz) mod 16) in
  let F := w32 (F + A + nth i K 0 + nth (Z.to_nat g) M 0) in
  (D, w32 (B + rotl F (nth i shifts 0)), B, C).

Fixpoint blocks (n : nat) (bs : list Z) (h : state) : state :=
  match n with
  | O => h
  | S n' =>
      let M := words_of 16 (firstn 64 bs) in
      let '(A, B, C, D) := fold_left (step M) (seq 0 64) h in
      let '(a0, b0, c0, d0) := h in
      blocks n' (skipn 64 bs) (w32 (a0 + A), w32 (b0 + B), w32 (c0 + C), w32 (d0 + D))
  end.

Definition digest (msg : list Z) : list Z :=
  let p := pad msg in
  let '(a, b, c, d) := blocks (length p / 64)%nat p init in
  le_bytes 4 a ++ le_bytes 4 b ++ le_bytes 4 c ++ le_bytes 4 d.

Definition hex_digit (d : Z) : ascii :=
  nth (Z.to_nat d) (lit "0123456789abcdef") "0"%char.

Definition hexdigest (msg : list Z) : str :=
  flat_map (fun b => [hex_digit (b / 16); hex_digit (b mod 16)]) (digest msg).

(** [s.encode('utf-8')] on code points below U+0100. *)
Definition encode_utf8 (s : str) : list Z :=
  flat_map (fun c => let n := Z.of_N (code c) in
                     if n <? 128 then [n] else [192 + n / 64; 128 + n mod 64]) s.

End MD5.

(** ** Effects: the world the pipeline runs in

    One store holds what the code shares and mutates: the cache
    directory, the output directory, the [progress] dictionary that
    [main] hands to every worker, and the state of the [random] module.
    [trace] records, oldest first, the calls that leave the process. *)

Module Eff.

Inductive event :=
| Live (source target text : str)
| Sleep (seconds : Z)
| CacheLookup (path : str)
| CacheStore (path : str) (translated : str)
| SaveProgress.

Record world := mkWorld {
  cache_files : gmap str str;
  output_files : gset str;
  progress : gmap str (gmap str (gmap str str));
  rng : nat -> nat;
  trace : list event
}.

Definition set_cache_files (c : gmap str str) (w : world) : world :=
  mkWorld c (output_files w) (progress w) (rng w) (trace w).

Definition set_progress (p : gmap str (gmap str (gmap str str))) (w : world) : world :=
  mkWorld (cache_files w) (output_files w) p (rng w) (trace w).

Definition set_rng (g : nat -> nat) (w : world) : world :=
  mkWorld (cache_files w) (output_files w) (progress w) g (trace w).

Definition log (e : event) (w : world) : world :=
  mkWorld (cache_files w) (output_files w) (progress w) (rng w) (trace w ++ [e]).

(** A computation: it ends with a value or an exception, and the
    effects made before an exception stay. *)
Definition M (A : Type) : Type := world -> res A * world.

Definition ret {A} (a : A) : M A := fun w => (Ok a, w).

Definition raise {A} (e : exn) : M A := fun w => (Raise e, w).

Definition bind {A B} (m : M A) (k : A -> M B) : M B :=
  fun w =>
    match m w with
    | (Ok a, w') => k a w'
    | (Raise e, w') => (Raise e, w')
    end.

(** [try: m  except Exception as e: h e] *)
Definition try_except {A} (m : M A) (h : exn -> M A) : M A :=
  fun w =>
    match m w with
    | (Ok a, w') => (Ok a, w')
    | (Raise e, w') => h e w'
    end.

Definition emit (e : event) : M unit := fun w => (Ok tt, log e w).

(** [time.sleep(seconds)] *)
Definition sleep (seconds : Z) : M unit := emit (Sleep seconds).

Definition is_live (e : event) : bool :=
  match e with Live _ _ _ => true | _ => false end.

(** The number of calls made to the translation provider so far. *)
Definition live_calls (w : world) : nat := length (List.filter is_live (trace w)).

End Eff.

Import Eff.

Notation "'let*' x ':=' m 'in' k" := (bind m (fun x => k))
  (at level 10, x name, m at level 100, k at level 200).
Notation "m '>>' k" := (bind m (fun _ => k))
  (at level 100, k at level 200, right associativity).

(** ** The [random] module *)

Module Random.

(** [_randbelow(n)] for a positive [n]: the next raw draw, reduced. *)
Definition randbelow (n : nat) : M nat :=
  fun w => (Ok (rng w 0 mod n), set_rng (fun i => rng w (S i)) w).

(** [random.randint(a, b)]: [randrange(a, b + 1)], which raises
    [ValueError] on an empty range. *)
Definition randint (a b : Z) : M Z :=
  if (a <=? b)%Z
  then let* j := randbelow (Z.to_nat (b - a + 1)) in ret (a + Z.of_nat j)%Z
  else raise ValueError.

(** [random.choice(seq)] *)
Definition choice {A} (seq : list A) : M A :=
  match seq with
  | [] => raise IndexError
  | x :: _ => let* j := randbelow (length seq) in ret (nth j seq x)
  end.

(** The selection loop of [random.sample]: draw a position of the live
    pool, take its element, move the last live element into the hole. *)
Fixpoint sample_loop {A} (k : nat) (pool : list A) : M (list A) :=
  match k with
  | O => ret []
  | S k' =>
      let* j := randbelow (length pool) in
      match pool !! j, last pool with
      | Some x, Some y =>
          let* rest := sample_loop k' (take (length pool - 1) (<[j := y]> pool)) in
          ret (x :: rest)
      | _, _ => raise IndexError
      end
  end.

(** [random.sample(population, k)] *)
Definition sample {A} (population : list A) (k : Z) : M (list A) :=
  if ((0 <=? k) && (k <=? Z.of_nat (length population)))%Z
  then sample_loop (Z.to_nat k) population
  else raise ValueError.

End Random.

(** ** Cross-references: [assign_internal_links] and step 5 of [main] *)

Module Links.

Definition MIN_INTERNAL_LINKS : Z := 5.
Definition MAX_INTERNAL_LINKS : Z := 10.

(** [range(n)] *)
Definition range (n : Z) : list Z := map Z.of_nat (seq 0 (Z.to_nat n)).

Definition assign_internal_links (current_index total_posts num_links : Z)
  : M (list Z) :=
  let available_indices :=
    List.filter (fun i => negb (i =? current_index)%Z) (range total_posts) in
  if (Z.of_nat (length available_indices) <? num_links)%Z
  then ret available_indices
  else Random.sample available_indices num_links.

End Links.

(** ** The translation cache: [get_cache_key], [load_from_cache], [save_to_cache] *)

Module Cache.

Definition CACHE_DIR : str := lit ".cache".

(** [os.path.join(a, b)] (posixpath). *)
Definition path_join (a b : str) : str :=
  match b with
  | "/"%char :: _ => b
  | _ =>
      match last a with
      | None => b
      | Some c => if Ascii.eqb c "/" then a ++ b else a ++ lit "/" ++ b
      end
  end.

Definition get_cache_key (text target_lang : str) : str :=
  let content_hash :=
    MD5.hexdigest (MD5.encode_utf8 (text ++ lit "_" ++ target_lang)) in
  path_join CACHE_DIR
    (lit "trans_" ++ target_lang ++ lit "_" ++ content_hash ++ lit ".json").

(** A cache file holds the JSON object written by [save_to_cache];
    [cache_files] maps its path to the ['translated'] field. A file that
    cannot be read or parsed loads as [None], like a missing one. *)
Definition load_from_cache (text target_lang : str) : M (option str) :=
  fun w =>
    let cache_file := get_cache_key text target_lang in
    (Ok (cache_files w !! cache_file), log (CacheLookup cache_file) w).

(** The write is taken to succeed; the source swallows a failing one. *)
Definition save_to_cache (text target_lang translated : str) : M unit :=
  fun w =>
    let cache_file := get_cache_key text target_lang in
    (Ok tt,
     log (CacheStore cache_file translated)
       (set_cache_files (<[cache_file := translated]> (cache_files w)) w)).

(** [if cached:] on the loaded value. *)
Definition usable (cached : option str) : option str :=
  match cached with
  | Some c => if truthy c then Some c else None
  | None => None
  end.

End Cache.

Import Cache.

(** ** The translator: [translate_text] and [translate_text_single]

    The [print] calls of the source are not modelled. *)

Module Translate.

Definition MAX_RETRIES : nat := 5.
Definition RETRY_DELAY : Z := 3.
Definition TRANSLATION_DELAY : Z := 1.
Definition MAX_RECURSION_DEPTH : Z := 10.
Definition max_chunk_length : nat := 4000.

Definition str_eqb (a b : str) : bool := bool_decide (a = b).

(** [not text or not text.strip()] *)
Definition blank (text : str) : bool :=
  negb (truthy text) || negb (truthy (strip text)).

(** *** Chunking, lines 275-309, for a limit [limit] *)

(** The body of [for word in words], on [(chunks, word_chunk)]. *)
Definition word_step (limit : nat) (st : list str * str) (word : str)
  : list str * str :=
  let '(chunks, word_chunk) := st in
  if limit <? length word_chunk + length word + 1 then
    ((if truthy word_chunk then chunks ++ [strip word_chunk] else chunks),
     word ++ lit " ")
  else (chunks, word_chunk ++ word ++ lit " ").

(** The body of [for sentence in sentences], on [(chunks, current_chunk)]. *)
Definition sentence_step (limit : nat) (st : list str * str) (sentence : str)
  : list str * str :=
  let '(chunks, current_chunk) := st in
  let sentence_with_dot := sentence ++ lit ". " in
  if limit <? length current_chunk + length sentence_with_dot then
    let chunks :=
      if truthy current_chunk then chunks ++ [strip current_chunk] else chunks in
    if limit <? length sentence then
      let words := split_ws sentence in
      let '(chunks, word_chunk) := fold_left (word_step limit) words (chunks, []) in
      (chunks, if truthy word_chunk then word_chunk else current_chunk)
    else (chunks, sentence_with_dot)
  else (chunks, current_chunk ++ sentence_with_dot).

(** [[text_clean[i:i+limit] for i in range(0, len(text_clean), limit)]] *)
Definition force_split (limit : nat) (text_clean : str) : list str :=
  map (fun i => firstn limit (skipn (i * limit) text_clean))
      (seq 0 ((length text_clean + limit - 1) / limit)).

Definition split_chunks (limit : nat) (text_clean : str) : list str :=
  let sentences := split_dot_space text_clean in
  let '(chunks, current_chunk) :=
    fold_left (sentence_step limit) sentences ([], []) in
  let chunks :=
    if truthy current_chunk then chunks ++ [strip current_chunk] else chunks in
  match chunks with
  | [] => force_split limit text_clean
  | _ :: _ => chunks
  end.

(** [' '.join(text.split())] *)
Definition normalize (text : str) : str := join (lit " ") (split_ws text).

Section WithProvider.

(** [GoogleTranslator(source, target).translate(text)]: the external
    service, as a function of the number of calls made before this one.
    It raises, or returns a string; an empty string stands for any falsy
    return value. *)
Variable provider : nat -> str -> str -> str -> res str.

Definition google_translate (source target text : str) : M str :=
  fun w => (provider (live_calls w) source target text,
            log (Live source target text) w).

(** The cache probe that opens both functions. *)
Definition cache_probe (text target_lang : str) (use_cache : bool) : M (option str) :=
  if use_cache
  then let* cached := load_from_cache text target_lang in ret (usable cached)
  else ret None.

(** One turn of [for attempt in range(MAX_RETRIES)]: [Some v] when the
    body returns [v], [None] when the loop goes on. *)
Definition attempt_once (text source_lang target_lang : str) (use_cache : bool)
  (attempt : nat) : M (option str) :=
  try_except
    (let* translated := google_translate source_lang target_lang text in
     if truthy translated && negb (str_eqb translated text) then
       (if use_cache then save_to_cache text target_lang translated else ret tt) >>
       sleep TRANSLATION_DELAY >>
       ret (Some translated)
     else ret None)
    (fun e =>
       if attempt <? MAX_RETRIES - 1
       then sleep (RETRY_DELAY * (Z.of_nat attempt + 1)) >> ret None
       else ret (Some text)).

Fixpoint retry_loop (text source_lang target_lang : str) (use_cache : bool)
  (attempts : list nat) : M str :=
  match attempts with
  | [] => ret text
  | attempt :: rest =>
      let* r := attempt_once text source_lang target_lang use_cache attempt in
      match r with
      | Some v => ret v
      | None => retry_loop text source_lang target_lang use_cache rest
      end
  end.

Definition translate_text_single (text source_lang target_lang : str)
  (use_cache : bool) : M str :=
  if blank text then ret text
  else
    let* cached := cache_probe text target_lang use_cache in
    match cached with
    | Some c => ret c
    | None =>
        retry_loop text source_lang target_lang use_cache (seq 0 MAX_RETRIES)
    end.

(** [for chunk in chunks], lines 313-317. *)
Fixpoint translate_chunks (chunks : list str) (source_lang target_lang : str)
  (use_cache : bool) : M (list str) :=
  match chunks with
  | [] => ret []
  | chunk :: rest =>
      let* chunk_result :=
        translate_text_single chunk source_lang target_lang use_cache in
      sleep TRANSLATION_DELAY >>
      let* others := translate_chunks rest source_lang target_lang use_cache in
      ret (chunk_result :: others)
  end.

Definition translate_text (text source_lang target_lang : str)
  (use_cache : bool) (recursion_depth : Z) : M str :=
  if (MAX_RECURSION_DEPTH <? recursion_depth)%Z then ret text
  else if blank text then ret text
  else
    let* cached := cache_probe text target_lang use_cache in
    match cached with
    | Some c => ret c
    | None =>
        let text_clean := normalize text in
        if max_chunk_length <? length text_clean then
          let chunks := split_chunks max_chunk_length text_clean in
          let* translated_chunks :=
            translate_chunks chunks source_lang target_lang use_cache in
          let result := join (lit " ") translated_chunks in
          (if use_cache then save_to_cache text target_lang result else ret tt) >>
          ret result
        else translate_text_single text_clean source_lang target_lang use_cache
    end.

End WithProvider.

End Translate.

(** ** The progress ledger and the per-language pass *)

Module Pipeline.

Import Slug Translate.

Definition OUTPUT_DIR : str := lit "output".
Definition PROGRESS_SAVE_INTERVAL : nat := 10.

(** [str(n)] for an index. *)
Definition py_str (n : nat) : str := list_ascii_of_string (pretty n).

Record post := mkPost { post_title : str; post_content : str }.

Record lang_config := mkLang { lang_name : str; anchors : list str }.

Record related := mkRelated { rel_title : str; rel_filename : str }.

(** A processed article. The dictionaries rebuilt from the ledger carry
    no ['content'], ['url_path'] or ['meta_description'] key. *)
Record article := mkArticle {
  title : str;
  content : option str;
  filename : str;
  url_path : option str;
  slug : str;
  index : nat;
  meta_description : option str;
  skipped : bool;
  related_articles : list related
}.

Definition set_related (rel : list related) (a : article) : article :=
  mkArticle (title a) (content a) (filename a) (url_path a) (slug a) (index a)
    (meta_description a) (skipped a) rel.

(** The path whose presence [is_post_processed] checks for an entry. *)
Definition artifact_path (lang_code : str) (post_data : gmap str str) : str :=
  let slug := generate_slug (default [] (post_data !! lit "title")) in
  let filename := slug ++ lit ".html" in
  path_join (path_join OUTPUT_DIR lang_code) filename.

Definition is_post_processed (post_index : nat) (lang_code : str)
  (posts : list post) (progress : gmap str (gmap str (gmap str str)))
  (files : gset str) : bool :=
  match progress !! lang_code with
  | None => false
  | Some entries =>
      match entries !! py_str post_index with
      | None => false
      | Some post_data => bool_decide (artifact_path lang_code post_data ∈ files)
      end
  end.

(** [d[k]] *)
Definition subscript {V} (d : gmap str V) (k : str) : M V :=
  match d !! k with
  | Some v => ret v
  | None => raise KeyError
  end.

Definition lift {A} (r : res A) : M A := fun w => (r, w).

Definition get_world : M world := fun w => (Ok w, w).

(** [progress[lang_code][key] = post_data] *)
Definition store_entry (lang_code key : str) (post_data : gmap str str) : M unit :=
  fun w =>
    match progress w !! lang_code with
    | None => (Raise KeyError, w)
    | Some entries =>
        (Ok tt, set_progress (<[lang_code := <[key := post_data]> entries]> (progress w)) w)
    end.

(** The dictionary built for an item found done, lines 621-628 and 1090-1097. *)
Definition done_article (lang_code : str) (post_index : nat) : M article :=
  let* w := get_world in
  let* entries := subscript (progress w) lang_code in
  let* post_data := subscript entries (py_str post_index) in
  let* t := subscript post_data (lit "title") in
  let* f := subscript post_data (lit "filename") in
  let* s := subscript post_data (lit "slug") in
  ret (mkArticle t None f None s post_index None true []).

Section WithLibraries.

Variable provider : nat -> str -> str -> str -> res str.

(** The three uses of BeautifulSoup: unwrapping the anchors of a
    document, appending the backlink to it, extracting its text. *)
Variable unwrap_anchors : str -> res str.
Variable append_backlink : str -> str -> str -> str -> res str.
Variable get_text : str -> res str.

Definition clean_content (content : str) : M str :=
  if negb (truthy content) then ret [] else lift (unwrap_anchors content).

Definition inject_backlink (content target_url anchor_text lang : str) : M str :=
  if negb (truthy content) || negb (truthy target_url) then ret content
  else lift (append_backlink content target_url anchor_text lang).

(** The [try] block of [process_single_article]. Lines 645-650 (step 4)
    are read at the level of the other steps of the block. *)
Definition process_body (post_index : nat) (p : post) (lang_code : str)
  (cfg : lang_config) (sitemap_urls : list str) : M article :=
  let* w := get_world in
  if is_post_processed post_index lang_code [p] (progress w) (output_files w)
  then done_article lang_code post_index
  else
    let* cleaned_content := clean_content (post_content p) in
    let* translated_title :=
      translate_text provider (post_title p) (lit "uz") lang_code true 0 in
    let* translated_content :=
      translate_text provider cleaned_content (lit "uz") lang_code true 0 in
    let* translated_content :=
      match sitemap_urls with
      | [] => ret translated_content
      | _ :: _ =>
          let* target_url := Random.choice sitemap_urls in
          let* anchor_text := Random.choice (anchors cfg) in
          inject_backlink translated_content target_url anchor_text lang_code
      end in
    let* meta_description :=
      lift (Meta.extract_meta_description get_text translated_content 160) in
    let slug := generate_slug translated_title in
    let filename := slug ++ lit ".html" in
    let url_path := slug in
    store_entry lang_code (py_str post_index)
      (<[lit "title" := translated_title]>
         (<[lit "filename" := filename]>
            (<[lit "slug" := slug]>
               (<[lit "meta_description" := meta_description]> ∅)))) >>
    ret (mkArticle translated_title (Some translated_content) filename
           (Some url_path) slug post_index (Some meta_description) false []).

(** [None] is the failure signal of the worker. *)
Definition process_single_article (post_index : nat) (p : post)
  (lang_code : str) (cfg : lang_config) (sitemap_urls : list str)
  : M (option article) :=
  try_except
    (let* a := process_body post_index p lang_code cfg sitemap_urls in
     ret (Some a))
    (fun e => ret None).

(** [save_progress(progress)] *)
Definition save_progress : M unit := emit SaveProgress.

(** *** One language in [main], lines 1073-1145 *)

(** [if lang_code not in progress: progress[lang_code] = {}] *)
Definition ensure_language (lang_code : str) : M unit :=
  fun w =>
    match progress w !! lang_code with
    | Some _ => (Ok tt, w)
    | None => (Ok tt, set_progress (<[lang_code := ∅]> (progress w)) w)
    end.

(** The loop that sorts the records into those found done and the tasks. *)
Fixpoint prepare_tasks (lang_code : str) (posts : list post)
  (enumerated : list (nat * post)) : M (list article * list (nat * post)) :=
  match enumerated with
  | [] => ret ([], [])
  | (idx, p) :: rest =>
      let* w := get_world in
      if is_post_processed idx lang_code posts (progress w) (output_files w)
      then
        let* a := done_article lang_code idx in
        let* r := prepare_tasks lang_code posts rest in
        ret (a :: fst r, snd r)
      else
        let* r := prepare_tasks lang_code posts rest in
        ret (fst r, (idx, p) :: snd r)
  end.

Record counters := mkCounters {
  processed_count : nat; skipped_count : nat; error_count : nat
}.

(** [for future in as_completed(...)]: the workers' effects are taken
    in the order in which they complete. *)
Fixpoint collect (lang_code : str) (cfg : lang_config) (sitemap_urls : list str)
  (completed : list (nat * post)) (processed_posts : list article)
  (c : counters) : M (list article * counters) :=
  match completed with
  | [] => ret (processed_posts, c)
  | (idx, p) :: rest =>
      let* result := process_single_article idx p lang_code cfg sitemap_urls in
      let '(processed_posts, c) :=
        match result with
        | Some a =>
            if skipped a
            then (processed_posts,
                  mkCounters (processed_count c) (S (skipped_count c)) (error_count c))
            else (processed_posts ++ [a],
                  mkCounters (S (processed_count c)) (skipped_count c) (error_count c))
        | None =>
            (processed_posts,
             mkCounters (processed_count c) (skipped_count c) (S (error_count c)))
        end in
      (if (processed_count c + skipped_count c) mod PROGRESS_SAVE_INTERVAL =? 0
       then save_progress else ret tt) >>
      collect lang_code cfg sitemap_urls rest processed_posts c
  end.

(** [processed_posts.sort(key=lambda x: x['index'])]: a stable sort. *)
Fixpoint insert_by_index (a : article) (l : list article) : list article :=
  match l with
  | [] => [a]
  | b :: r => if index a <? index b then a :: l else b :: insert_by_index a r
  end.

Definition sort_by_index (l : list article) : list article :=
  fold_left (fun acc a => insert_by_index a acc) l [].

(** [enumerate(posts)] *)
Definition enumerate (posts : list post) : list (nat * post) :=
  combine (seq 0 (length posts)) posts.

(** The pass up to the final save: it leaves [processed_posts] and the
    three counters. [completion] is the order in which the executor
    hands back the submitted tasks. *)
Definition language_pass (completion : list (nat * post) -> list (nat * post))
  (lang_code : str) (cfg : lang_config) (posts : list post)
  (sitemap_urls : list str) : M (list article * counters) :=
  ensure_language lang_code >>
  let* r := prepare_tasks lang_code posts (enumerate posts) in
  let '(processed_posts, tasks) := r in
  let* r := collect lang_code cfg sitemap_urls (completion tasks) processed_posts
              (mkCounters 0 (length processed_posts) 0) in
  let processed_posts := sort_by_index (fst r) in
  save_progress >>
  ret (processed_posts, snd r).

End WithLibraries.

(** *** Step 5 of [main]: the cross-reference pass, lines 1159-1171 *)

Definition related_of (a : article) : related :=
  mkRelated (title a)
    (match url_path a with
     | Some u => u
     | None => replace (lit ".html") [] (filename a)
     end).

Fixpoint lookup_all (processed_posts : list article) (related_indices : list Z)
  : M (list related) :=
  match related_indices with
  | [] => ret []
  | i :: rest =>
      match processed_posts !! Z.to_nat i with
      | Some a =>
          let* others := lookup_all processed_posts rest in
          ret (related_of a :: others)
      | None => raise IndexError
      end
  end.

(** The indices drawn for one article. *)
Definition draw_related (processed_posts : list article) (a : article) : M (list Z) :=
  let current_idx := Z.of_nat (index a) in
  let n := Z.of_nat (length processed_posts) in
  let* num_links :=
    Random.randint Links.MIN_INTERNAL_LINKS (Z.min Links.MAX_INTERNAL_LINKS (n - 1)) in
  Links.assign_internal_links current_idx n num_links.

Fixpoint link_loop (processed_posts : list article) (todo : list article)
  : M (list article) :=
  match todo with
  | [] => ret []
  | a :: rest =>
      let* related_indices := draw_related processed_posts a in
      let* rel := lookup_all processed_posts related_indices in
      let* others := link_loop processed_posts rest in
      ret (set_related rel a :: others)
  end.

Definition assign_links (processed_posts : list article) : M (list article) :=
  link_loop processed_posts processed_posts.

End Pipeline.

(** ** Sample data for the examples *)

Module Samples.

Import Pipeline.

(** An article rebuilt from the ledger for record [i]. *)
Definition stub_article (i : nat) : article :=
  mkArticle (py_str i) None (py_str i ++ lit ".html") None (py_str i) i None true [].

(** A world with nothing on disk, an empty ledger and generator [g]. *)
Definition quiet_world (g : nat -> nat) : world := mkWorld ∅ ∅ ∅ g [].

(** A text of two sentences, 4002 characters, already normalized. *)
Definition two_sentences : str :=
  repeat "a"%char 2000 ++ lit ". " ++ repeat "b"%char 2000.

(** Three providers: one that hands its input back, one that answers
    with a marked copy, one that is out of reach. *)
Definition echo : nat -> str -> str -> str -> res str :=
  fun _ _ _ text => Ok text.

Definition tagging : nat -> str -> str -> str -> res str :=
  fun _ _ _ text => Ok (lit "T:" ++ text).

Definition unreachable : nat -> str -> str -> str -> res str :=
  fun _ _ _ _ => Raise (ProviderError (lit "connection refused")).

(** A markup library that rejects one document: [html.parser] raises
    [AssertionError] on a marked section whose keyword it does not
    know, and BeautifulSoup hands it on as [ParserRejectedMarkup]. *)
Definition fragile (content : str) : res str :=
  if bool_decide (content = lit "<![x]>") then Raise ParserRejectedMarkup else Ok content.

Definition plain_backlink (content target_url anchor_text lang : str) : res str :=
  Ok (content ++ lit " " ++ anchor_text).

Definition english : lang_config := mkLang (lit "English") [lit "Source"].

(** The entry the worker writes for a record titled "Hello World". *)
Definition hello_entry : gmap str str :=
  <[lit "title" := lit "Hello World"]>
    (<[lit "filename" := lit "hello-world.html"]>
       (<[lit "slug" := lit "hello-world"]>
          (<[lit "meta_description" := lit "Hello."]> ∅))).

(** A ledger that knows record 0 in English, and an output directory
    that has lost its file. *)
Definition stale_world : world :=
  mkWorld ∅ ∅ (<[lit "en" := <[py_str 0 := hello_entry]> ∅]> ∅) (fun _ => 0) [].

Definition two_posts : list post :=
  [mkPost (lit "Birinchi") (lit "salom"); mkPost (lit "Ikkinchi") (lit "<p><p><p>")].

End Samples.

(** ** Predicates of the statements *)

Module Statements.

Import Slug Translate Pipeline.

(** Worlds that differ in the state of the generator only. *)
Definition same_but_rng (w w' : world) : Prop :=
  cache_files w' = cache_files w /\ output_files w' = output_files w
  /\ progress w' = progress w /\ trace w' = trace w.

(** A provider answer that does not count as a translation of [text]:
    an exception, a falsy value or the input itself. *)
Definition declined (text : str) (r : res str) : Prop :=
  match r with
  | Raise _ => True
  | Ok v => truthy v = false \/ v = text
  end.

(** A provider that translates whatever it is sent, at every call. *)
Definition translates (provider : nat -> str -> str -> str -> res str) : Prop :=
  forall n source target text,
    exists v, provider n source target text = Ok v
              /\ truthy v = true /\ v <> text.

(** The units a text is sent in: its chunks, or the whole normalized
    text when it is short. *)
Definition units (text : str) : list str :=
  if max_chunk_length <? length (normalize text)
  then split_chunks max_chunk_length (normalize text)
  else [normalize text].

(** The ledger entry of a language and a key, if any. *)
Definition entry_of (progress : gmap str (gmap str (gmap str str)))
  (lang_code key : str) : option (gmap str str) :=
  match progress !! lang_code with
  | Some entries => entries !! key
  | None => None
  end.

(** What a worker leaves alone: the output directory and every ledger
    entry of the language but its own. *)
Definition frame (lang_code key : str) (w w' : world) : Prop :=
  output_files w' = output_files w
  /\ forall k, k <> key ->
       entry_of (progress w') lang_code k = entry_of (progress w) lang_code k.

(** A computation that touches neither the ledger nor the output
    directory. *)
Definition keeps_ledger {A} (m : M A) : Prop :=
  forall w, progress (snd (m w)) = progress w
            /\ output_files (snd (m w)) = output_files w.

(** Partial correctness of a computation started in a world of [P]:
    [Q] on a value, [E] on an exception. *)
Definition hoare {A} (P : world -> Prop) (m : M A)
  (Q : A -> world -> Prop) (E : world -> Prop) : Prop :=
  forall w, P w ->
    match m w with
    | (Ok a, w') => Q a w'
    | (Raise _, w') => E w'
    end.

(** An entry as [process_single_article] writes it: the file name is
    the slug of the title. *)
Definition entry_consistent (post_data : gmap str str) : Prop :=
  post_data !! lit "filename"
  = Some (generate_slug (default [] (post_data !! lit "title")) ++ lit ".html").

(** A record that the pass has to process: not found done. *)
Definition pending (lang_code : str) (posts : list post) (w : world)
  (task : nat * post) : bool :=
  negb (is_post_processed (fst task) lang_code posts (progress w) (output_files w)).

(** A sentence that does not open with whitespace. *)
Definition starts_clean (s : str) : Prop :=
  match s with
  | c :: _ => isspace c = false
  | [] => True
  end.

(** Every sentence with its delimiter, in a row. *)
Definition dotted (sentences : list str) : str :=
  concat (map (fun s => s ++ lit ". ") sentences).

(** The text held by a state of the sentence loop. *)
Definition flat (st : list str * str) : str :=
  concat (map (fun c => c ++ lit " ") (fst st)) ++ snd st.

(** The open chunk is empty, or it ends with the delimiter and does not
    open with whitespace. *)
Definition open_ok (cur : str) : Prop :=
  cur = [] \/ exists x, cur = x ++ lit ". " /\ starts_clean (x ++ lit ".").

(** No whitespace at the start (when [after_space]) and no two
    whitespace characters in a row. *)
Fixpoint tight_from (after_space : bool) (s : str) : bool :=
  match s with
  | [] => true
  | c :: r =>
      if isspace c then negb after_space && tight_from true r
      else tight_from false r
  end.

(** The cache file an event touches. *)
Definition cache_path (e : event) : option str :=
  match e with
  | CacheLookup p => Some p
  | CacheStore p _ => Some p
  | _ => None
  end.

Definition cache_paths (evs : list event) : list str := omap cache_path evs.

(** Some character of the string is not whitespace. *)
Definition has_ink (s : str) : bool := existsb (fun c => negb (isspace c)) s.

(** The state of either chunking loop: the closed chunks are non-empty
    and the open one is empty or holds a visible character. *)
Definition chunks_ok (st : list str * str) : Prop :=
  Forall (fun c => truthy c = true) (fst st)
  /\ (truthy (snd st) = true -> has_ink (snd st) = true).

(** The pool [assign_internal_links] draws from. *)
Definition available (current_index total_posts : Z) : list Z :=
  List.filter (fun i => negb (i =? current_index)%Z) (Links.range total_posts).

End Statements.

Import Slug Meta Links Translate Pipeline Samples Statements.

Arguments isspace : simpl never.
Arguments get_cache_key : simpl never.


(** ** Step 6 of [main]: the HTML files of a language, lines 1185-1214 *)

Module Html.

Import Pipeline.

(** [open(path, 'w')] and [f.write(...)] in the output directory: the
    file exists afterwards. The write is taken to succeed. *)
Definition write_output (path content : str) : M unit :=
  fun w =>
    (Ok tt,
     mkWorld (cache_files w) ({[path]} ∪ output_files w) (progress w) (rng w) (trace w)).

Section WithTemplate.

(** [article_template.render(...)] for a post, with the language code
    and name and the title of the related section: Jinja2 is an
    external library. *)
Variable render : str -> lang_config -> article -> res str.

(** [generate_html_file(post)]: an exception is reported and swallowed. *)
Definition generate_html_file (lang_code : str) (cfg : lang_config) (a : article)
  : M bool :=
  try_except
    (let* html_content := lift (render lang_code cfg a) in
     let article_path := path_join (path_join OUTPUT_DIR lang_code) (filename a) in
     write_output article_path html_content >>
     ret true)
    (fun e => ret false).

(** [for future in as_completed(futures): future.result()], on the
    posts in the order in which their files are completed. *)
Fixpoint generate_html_files (lang_code : str) (cfg : lang_config)
  (completed : list article) : M unit :=
  match completed with
  | [] => ret tt
  | a :: rest =>
      generate_html_file lang_code cfg a >>
      generate_html_files lang_code cfg rest
  end.

(** One language from the pass to its HTML files, lines 1073-1214:
    the pass, the cross-reference step, the files. [html_completion] is
    the order in which the files are completed. *)
Definition build_language
  (provider : nat -> str -> str -> str -> res str)
  (unwrap_anchors : str -> res str)
  (append_backlink : str -> str -> str -> str -> res str)
  (get_text : str -> res str)
  (completion : list (nat * post) -> list (nat * post))
  (html_completion : list article -> list article)
  (lang_code : str) (cfg : lang_config) (posts : list post)
  (sitemap_urls : list str) : M (list article * counters) :=
  let* r := language_pass provider unwrap_anchors append_backlink get_text
              completion lang_code cfg posts sitemap_urls in
  let* processed_posts := assign_links (fst r) in
  generate_html_files lang_code cfg (html_completion processed_posts) >>
  ret (processed_posts, snd r).

End WithTemplate.

End Html.

(** ** The sitemap: [generate_sitemap], lines 542-596 *)

Module Sitemap.

Import Pipeline.

(** The keys of [LANGUAGES], in the order of the dictionary. *)
Definition LANGUAGE_CODES : list str := [lit "en"; lit "ru"].

Record url_entry := mkUrl {
  loc : str; lastmod : str; changefreq : str; priority : str
}.

(** [post.get('url_path', post['filename'].replace('.html', ''))] *)
Definition clean_name (a : article) : str :=
  match url_path a with
  | Some u => u
  | None => replace (lit ".html") [] (filename a)
  end.

(** The entries of one language: its index page, then its articles. *)
Definition language_urls (all_processed_posts : gmap str (list article))
  (base_url current_date lang_code : str) : list url_entry :=
  mkUrl (base_url ++ lit "/" ++ lang_code ++ lit "/") current_date
    (lit "daily") (lit "0.9")
  :: match all_processed_posts !! lang_code with
     | Some posts =>
         map (fun post =>
                mkUrl (base_url ++ lit "/" ++ lang_code ++ lit "/" ++ clean_name post)
                  current_date (lit "weekly") (lit "0.8"))
           posts
     | None => []
     end.

(** The list [urls]; [current_date] is [datetime.now()] formatted. *)
Definition sitemap_urls (all_processed_posts : gmap str (list article))
  (base_url current_date : str) : list url_entry :=
  mkUrl base_url current_date (lit "daily") (lit "1.0")
  :: flat_map (language_urls all_processed_posts base_url current_date) LANGUAGE_CODES.

Definition quote : str := ["034"%char].

Definition url_lines (u : url_entry) : list str :=
  [lit "  <url>";
   lit "    <loc>" ++ loc u ++ lit "</loc>";
   lit "    <lastmod>" ++ lastmod u ++ lit "</lastmod>";
   lit "    <changefreq>" ++ changefreq u ++ lit "</changefreq>";
   lit "    <priority>" ++ priority u ++ lit "</priority>";
   lit "  </url>"].

Definition xml_lines (urls : list url_entry) : list str :=
  [lit "<?xml version=" ++ quote ++ lit "1.0" ++ quote
     ++ lit " encoding=" ++ quote ++ lit "UTF-8" ++ quote ++ lit "?>";
   lit "<urlset xmlns=" ++ quote
     ++ lit "http://www.sitemaps.org/schemas/sitemap/0.9" ++ quote ++ lit ">"]
  ++ flat_map url_lines urls
  ++ [lit "</urlset>"].

Definition generate_sitemap (all_processed_posts : gmap str (list article))
  (base_url current_date : str) : str :=
  join ["010"%char] (xml_lines (sitemap_urls all_processed_posts base_url current_date)).

End Sitemap.

(** ** The URLs of the source site: [fetch_sitemap_urls], lines 156-226

    The function has a cache file and a log of its own. *)

Module Fetch.

Import Meta.

Definition REQUEST_TIMEOUT : Z := 60.

(** The exceptions of [requests], by the handler that catches them;
    [RequestException] stands for those that are neither a timeout nor a
    connection error, the [HTTPError] of [raise_for_status] included. *)
Inductive request_exn := Timeout | ConnectionError | RequestException.

(** One attempt, from [requests.get] to the texts of the [<loc>] tags:
    the texts, an exception of [requests], or another exception, which
    no handler of the function catches. *)
Inductive attempt_result :=
| Locs (texts : list str)
| Failed (e : request_exn)
| Crashed.

(** The ['timestamp'] field of the cached object. *)
Inductive stamp := NoStamp | Stamp (t : spec_float) | BadStamp.

(** The cache file: missing, not a JSON object, or an object with its
    ['urls'] field (a list of strings when present, as the function
    writes it) and its ['timestamp'] field. *)
Inductive cache_file :=
| Missing
| Unreadable
| Cached (urls : option (list str)) (timestamp : stamp).

Inductive fetch_event :=
| Request (url : str) (timeout : Z)
| Wait (seconds : Z).

Record fetch_state := mkFetch { file : cache_file; events : list fetch_event }.

Definition note (e : fetch_event) (st : fetch_state) : fetch_state :=
  mkFetch (file st) (events st ++ [e]).

(** What the function ends with: a list, or the exception it lets
    through. *)
Inductive fetched := Urls (urls : list str) | Propagated.

(** [time.time() - cached_data.get('timestamp', 0) < 86400]; [None]
    when the subtraction raises. *)
Definition within_a_day (now : spec_float) (timestamp : stamp) : option bool :=
  match timestamp with
  | NoStamp => Some (SFltb (SFsub 53 1024 now (S754_zero false)) (float_of_int 86400))
  | Stamp t => Some (SFltb (SFsub 53 1024 now t) (float_of_int 86400))
  | BadStamp => None
  end.

(** The cached list when the cache is to be used at once. *)
Definition fresh_urls (now : spec_float) (c : cache_file) : option (list str) :=
  match c with
  | Cached urls timestamp =>
      match within_a_day now timestamp with
      | Some true => Some (default [] urls)
      | _ => None
      end
  | _ => None
  end.

(** The list read back when everything failed, lines 217-224. *)
Definition stale_urls (c : cache_file) : list str :=
  match c with
  | Cached urls _ => default [] urls
  | _ => []
  end.

Section WithNetwork.

(** The network and the clock: the result of the attempt of each
    number, the reading of [time.time()] at the first check and the one
    taken when the attempt of each number saves its list. *)
Variable http : nat -> attempt_result.
Variable now_first : spec_float.
Variable now_saved : nat -> spec_float.

(** [for attempt in range(MAX_RETRIES)], on the attempts left. The
    write of the cache file is taken to succeed. *)
Fixpoint attempts (sitemap_url : str) (todo : list nat) (st : fetch_state)
  : fetched * fetch_state :=
  match todo with
  | [] => (Urls [], st)
  | attempt :: rest =>
      let st := note (Request sitemap_url REQUEST_TIMEOUT) st in
      match http attempt with
      | Locs texts =>
          let urls := List.filter truthy texts in
          (Urls urls,
           mkFetch (Cached (Some urls) (Stamp (now_saved attempt))) (events st))
      | Crashed => (Propagated, st)
      | Failed e =>
          if attempt <? Translate.MAX_RETRIES - 1 then
            attempts sitemap_url rest
              (note (Wait (Translate.RETRY_DELAY * (Z.of_nat attempt + 1))) st)
          else
            match e with
            | RequestException => (Urls (stale_urls (file st)), st)
            | _ => attempts sitemap_url rest st
            end
      end
  end.

Definition fetch_sitemap_urls (sitemap_url : str) (st : fetch_state)
  : fetched * fetch_state :=
  match fresh_urls now_first (file st) with
  | Some urls => (Urls urls, st)
  | None => attempts sitemap_url (seq 0 Translate.MAX_RETRIES) st
  end.

End WithNetwork.

End Fetch.

(** ** The posts: [read_posts_csv] without pandas, lines 476-528 *)

Module Csv.

Import Pipeline.

(** [needle in hay] *)
Fixpoint contains (needle hay : str) : bool :=
  match strip_prefix needle hay with
  | Some _ => true
  | None =>
      match hay with
      | [] => false
      | _ :: r => contains needle r
      end
  end.

(** A value of a row of [csv.DictReader]: a string, or [None] where
    the row was shorter than the header. *)
Inductive cell := Text (s : str) | NoValue.

(** [str(v)] *)
Definition cell_str (v : cell) : str :=
  match v with
  | Text s => s
  | NoValue => lit "None"
  end.

(** A row: the fields under the names of the header, in its order, and
    whether the row was longer than the header, in which case its
    dictionary has the key [None] as well, after the others. *)
Record row := mkRow { fields : list (str * cell); overlong : bool }.

(** [row.get(col, '')] for a column name. *)
Fixpoint get (fs : list (str * cell)) (col : str) : cell :=
  match fs with
  | [] => Text []
  | (k, v) :: r => if Translate.str_eqb k col then v else get r col
  end.

(** The scan of the column names: the first name that holds
    ['title'] and the first that holds ['content'], in lower case. *)
Definition scan_step (cols : option str * option str) (col : str)
  : option str * option str :=
  let col_lower := lower col in
  let '(title_col, content_col) := cols in
  let title_col :=
    if contains (lit "title") col_lower
       && negb (match title_col with Some c => truthy c | None => false end)
    then Some col else title_col in
  let content_col :=
    if contains (lit "content") col_lower
       && negb (match content_col with Some c => truthy c | None => false end)
    then Some col else content_col in
  (title_col, content_col).

(** The body of [for row in rows]. *)
Definition row_post (title_col content_col : str) (r : row) : option post :=
  let title := strip (cell_str (get (fields r) title_col)) in
  let content := strip (cell_str (get (fields r) content_col)) in
  if truthy title && truthy content then Some (mkPost title content) else None.

(** The function ends with the posts or leaves through [sys.exit]. *)
Inductive csv_result := Posts (posts : list post) | Exit (code : Z).

(** [read_posts_csv] on what [csv.DictReader] yields: [None] when the
    file is missing or reading it raises, else its rows. *)
Definition read_posts_csv (read : option (list row)) : csv_result :=
  match read with
  | None => Exit 1
  | Some [] => Exit 1
  | Some ((first :: _) as rows) =>
      if overlong first then Exit 1
      else
        match fold_left scan_step (map fst (fields first)) (None, None) with
        | (Some title_col, Some content_col) =>
            if truthy title_col && truthy content_col
            then Posts (omap (row_post title_col content_col) rows)
            else Exit 1
        | _ => Exit 1
        end
  end.

End Csv.

(** ** The news feed of the landing page, line 1251 *)

Module Feed.

Record latest := mkLatest { latest_title : str; latest_url : str; latest_lang : str }.

Definition LATEST_ARTICLES_COUNT : nat := 12.

(** [a < b] on strings: by code points, the shorter first. *)
Fixpoint str_ltb (a b : str) : bool :=
  match a, b with
  | _, [] => false
  | [], _ :: _ => true
  | x :: a', y :: b' =>
      if (code x <? code y)%N then true
      else if (code y <? code x)%N then false
      else str_ltb a' b'
  end.

(** [sorted(..., key=lambda x: x['title'], reverse=True)]: descending,
    and stable: of two entries with the same title the earlier stays
    first. *)
Fixpoint insert_by_title (x : latest) (l : list latest) : list latest :=
  match l with
  | [] => [x]
  | y :: r =>
      if str_ltb (latest_title y) (latest_title x) then x :: l
      else y :: insert_by_title x r
  end.

Definition sorted_by_title (l : list latest) : list latest :=
  fold_left (fun acc x => insert_by_title x acc) l [].

Definition latest_articles_sorted (latest_articles : list latest) : list latest :=
  firstn LATEST_ARTICLES_COUNT (sorted_by_title latest_articles).

End Feed.

(** ** The turns of the collecting loop *)

Module Turns.

Import Pipeline.

Section WithLibraries.

Variable provider : nat -> str -> str -> str -> res str.
Variable unwrap_anchors : str -> res str.
Variable append_backlink : str -> str -> str -> str -> res str.
Variable get_text : str -> res str.

Variable completion : list (nat * post) -> list (nat * post).
Variables (lang_code : str) (cfg : lang_config) (posts : list post).
Variable sitemap_urls : list str.

(** The pass of [main] stopped after [k] turns of
    [for future in as_completed(...)]: the tasks still to be collected,
    and the world the worker completing next runs in. *)
Definition after_turns (k : nat) : M (list (nat * post)) :=
  ensure_language lang_code >>
  let* r := prepare_tasks lang_code posts (enumerate posts) in
  let '(processed_posts, tasks) := r in
  let completed := completion tasks in
  collect provider unwrap_anchors append_backlink get_text lang_code cfg sitemap_urls
    (take k completed) processed_posts (mkCounters 0 (length processed_posts) 0) >>
  ret (drop k completed).

(** [future.result()] in turn [k]: the record of the worker and what
    it hands back, [None] when it failed. *)
Definition turn_result (k : nat) (w0 : world) : option (nat * option article) :=
  match after_turns k w0 with
  | (Ok ((idx, p) :: _), w) =>
      match process_single_article provider unwrap_anchors append_backlink get_text
              idx p lang_code cfg sitemap_urls w with
      | (Ok result, _) => Some (idx, result)
      | (Raise _, _) => None
      end
  | _ => None
  end.

(** The record of a worker that handed back [None]. *)
Definition failure (t : nat * option article) : option nat :=
  match snd t with
  | None => Some (fst t)
  | Some _ => None
  end.

(** The records whose worker failed in the pass, in the order of the
    turns; there are at most [len(posts)] turns. *)
Definition failed_records (w0 : world) : list nat :=
  omap (fun k => turn_result k w0 ≫= failure) (seq 0 (length posts)).

End WithLibraries.

End Turns.

(** ** Further sample data *)

Module MoreSamples.

Import Pipeline Samples Meta Fetch.

(** The ledger of [stale_world] with the file of its record in place. *)
Definition resumed_world : world :=
  mkWorld ∅ {[lit "output/en/hello-world.html"]}
    (<[lit "en" := <[py_str 0 := hello_entry]> ∅]> ∅) (fun _ => 0) [].

(** A world whose ledger knows the language and nothing else. *)
Definition fresh_world : world :=
  mkWorld ∅ ∅ (<[lit "en" := ∅]> ∅) (fun _ => 0) [].

(** A ledger whose entry for record 0 holds a title only, with the
    file of that title in place. *)
Definition broken_world : world :=
  mkWorld ∅ {[lit "output/en/hello-world.html"]}
    (<[lit "en" := <[py_str 0 := <[lit "title" := lit "Hello World"]> ∅]> ∅]> ∅)
    (fun _ => 0) [].

Definition one_post : list post := [mkPost (lit "Salom dunyo") (lit "salom")].

Definition six_posts : list post :=
  map (fun t => mkPost t (lit "salom"))
    [lit "bir"; lit "ikki"; lit "uch"; lit "tort"; lit "besh"; lit "olti"].

(** Three records; the second holds a marked section that the parser
    of the markup library rejects. *)
Definition three_posts : list post :=
  [mkPost (lit "Birinchi") (lit "salom");
   mkPost (lit "Ikkinchi") (lit "<![x]>");
   mkPost (lit "Uchinchi") (lit "xayr")].

(** A network that is down: every attempt times out. *)
Definition timing_out (attempt : nat) : attempt_result := Failed Timeout.

(** A site that answers with an error status, every time. *)
Definition refusing (attempt : nat) : attempt_result := Failed RequestException.

(** A network that answers at the third attempt. *)
Definition third_time (attempt : nat) : attempt_result :=
  if attempt <? 2 then Failed ConnectionError
  else Locs [lit "https://infoedu.uz/a"; []; lit "https://infoedu.uz/b"].

(** A cache file written long ago. *)
Definition old_cache : fetch_state :=
  mkFetch (Cached (Some [lit "https://infoedu.uz/old"]) (Stamp (S754_zero false))) [].

(** A clock long after the epoch. *)
Definition late : spec_float := float_of_int 1000000.

(** A template that renders every article. *)
Definition plain_template (lang_code : str) (cfg : lang_config) (a : article) : res str :=
  Ok (title a).

End MoreSamples.

(** ** Further predicates of the statements *)

Module Shapes.

Import Slug.

(** A character a slug may hold: a word character or the hyphen. *)
Definition slug_char (c : ascii) : bool := is_word c || is_hyphen c.

(** No two hyphens in a row. *)
Fixpoint single_hyphens (s : str) : bool :=
  match s with
  | c :: r =>
      match r with
      | c' :: _ => negb (is_hyphen c && is_hyphen c') && single_hyphens r
      | [] => true
      end
  | [] => true
  end.

(** A digit of [hexdigest]. *)
Definition is_hex (c : ascii) : bool :=
  existsb (Ascii.eqb c) (lit "0123456789abcdef").

(** A state of either chunking loop, at a limit: the closed chunks
    are within the limit plus one, and so is what the open one will be
    once closed. *)
Definition sized (limit : nat) (st : list str * str) : Prop :=
  Forall (fun c => length c <= limit + 1) (fst st)
  /\ length (strip (snd st)) <= limit + 1.

(** The requests and waits of the attempts [first .. first + count - 1]
    of [fetch_sitemap_urls] when each of them fails and none is the
    last. *)
Definition failed_rounds (sitemap_url : str) (first count : nat)
  : list Fetch.fetch_event :=
  flat_map (fun attempt =>
              [Fetch.Request sitemap_url Fetch.REQUEST_TIMEOUT;
               Fetch.Wait (Translate.RETRY_DELAY * (Z.of_nat attempt + 1))])
    (seq first count).

(** An article whose ledger entry names it: the entry of its record
    holds its title, and its file is named by the slug of that title. *)
Definition recorded (lang_code : str) (w : world) (a : Pipeline.article) : Prop :=
  Pipeline.filename a = generate_slug (Pipeline.title a) ++ lit ".html"
  /\ exists d,
       Statements.entry_of (progress w) lang_code (Pipeline.py_str (Pipeline.index a))
       = Some d
       /\ d !! lit "title" = Some (Pipeline.title a).

(** The record of an index is found done. *)
Definition done_at (lang_code : str) (w : world) (i : nat) : bool :=
  Pipeline.is_post_processed i lang_code [] (progress w) (output_files w).

End Shapes.

Import Html Sitemap Fetch Csv Feed Turns MoreSamples Shapes.

(** * Properties *)



(** ** Slugs *)

Section SlugFacts.

Lemma re_sub_One_filter cls s :
  re_sub (One cls) [] s = List.filter (fun c => negb (cls c)) s.
Proof.
  induction s as [|c r IH]; rewrite re_sub_equation; [reflexivity|].
  simpl. destruct (cls c); simpl; rewrite IH; reflexivity.
Qed.

Lemma collapse_runs_skip c r :
  cls_sep c = true ->
  collapse_runs (c :: r) = "-"%char :: collapse_runs (lskip cls_sep r).
Proof.
  revert c. induction r as [|c' r' IH]; intros c Hc.
  - simpl. rewrite Hc. reflexivity.
  - change (collapse_runs (c :: c' :: r'))
      with (if cls_sep c
            then if cls_sep c' then collapse_runs (c' :: r')
                 else "-"%char :: collapse_runs (c' :: r')
            else c :: collapse_runs (c' :: r')).
    rewrite Hc. simpl lskip. destruct (cls_sep c') eqn:Hc'.
    + apply IH. exact Hc'.
    + reflexivity.
Qed.

Lemma re_sub_Many_collapse s :
  re_sub (Many cls_sep) (lit "-") s = collapse_runs s.
Proof.
  remember (length s) as n eqn:Hn. revert s Hn.
  induction n as [n IH] using lt_wf_ind. intros s Hn.
  rewrite re_sub_equation. destruct s as [|c r]; [reflexivity|].
  simpl match_at. destruct (cls_sep c) eqn:Hc.
  - rewrite (collapse_runs_skip c r Hc).
    rewrite (IH (length (lskip cls_sep r))); [reflexivity| |reflexivity].
    subst n. simpl. clear. induction r as [|a r IHr]; simpl; [lia|].
    destruct (cls_sep a); simpl; lia.
  - rewrite (IH (length r)); [|subst n; simpl; lia|reflexivity].
    simpl. rewrite Hc. reflexivity.
Qed.

(** C8. The slug of a title is the title lowercased, stripped of the
    characters outside the word, whitespace and hyphen classes, with
    every run of whitespace or hyphens collapsed to one hyphen, cut to
    100 characters: the two [re.sub] calls of [generate_slug] compute
    what the specification describes. *)
Theorem generate_slug_as_specified (title : str) :
  generate_slug title = slug_of_spec title.
Proof.
  unfold generate_slug, slug_of_spec, strip_foreign.
  rewrite re_sub_Many_collapse, re_sub_One_filter.
  do 2 f_equal. apply filter_ext. intros c. unfold cls_strip.
  apply negb_involutive.
Qed.

Lemma generate_slug_length (title : str) : length (generate_slug title) <= 100.
Proof. unfold generate_slug. apply firstn_le_length. Qed.

Example generate_slug_sample :
  generate_slug (lit "  Hello,  World -- Go_9! ") = lit "-hello-world-go_9-".
Proof. vm_compute. reflexivity. Qed.

End SlugFacts.

(** ** Excerpts *)

Section MetaFacts.

Lemma slice_to_length s n : length (slice_to s n) <= length s.
Proof. unfold slice_to. destruct (0 <=? n)%Z; rewrite length_firstn; lia. Qed.

Lemma slice_to_exact s n :
  (0 <= n < Z.of_nat (length s))%Z -> Z.of_nat (length (slice_to s n)) = n.
Proof.
  intros H. unfold slice_to. destruct (Z.leb_spec 0 n); [|lia].
  rewrite length_firstn. lia.
Qed.

(** The cut of a text longer than the budget either stays within the
    budget or is the budget-long prefix followed by the ellipsis. *)
Lemma cut_excerpt_cases text max_length :
  (0 <= max_length < Z.of_nat (length text))%Z ->
  (Z.of_nat (length (cut_excerpt text max_length)) <= max_length)%Z
  \/ cut_excerpt text max_length = firstn (Z.to_nat max_length) text ++ lit "...".
Proof.
  intros H. unfold cut_excerpt.
  destruct (int_gt_float _ _).
  - left. pose proof (slice_to_length (slice_to text max_length)
                        (rfind "." (slice_to text max_length) + 1)).
    pose proof (slice_to_exact text max_length H). lia.
  - right. unfold slice_to. destruct (Z.leb_spec 0 max_length); [reflexivity|lia].
Qed.

(** C9. For a budget [max_length >= 0] the excerpt is at most
    [max_length + 3] characters long, and it exceeds [max_length] only
    as the budget-long prefix of the text followed by the three-character
    ellipsis; the function raises only if the markup parser does. *)
Theorem excerpt_within_budget (get_text : str -> res str) (content : str)
  (max_length : Z) :
  (0 <= max_length)%Z ->
  match extract_meta_description get_text content max_length with
  | Ok d =>
      (Z.of_nat (length d) <= max_length + 3)%Z
      /\ ((max_length < Z.of_nat (length d))%Z ->
          exists t, d = t ++ lit "..." /\ Z.of_nat (length t) = max_length)
  | Raise e => get_text content = Raise e
  end.
Proof.
  intros Hm. unfold extract_meta_description.
  destruct (truthy content); simpl.
  2:{ split; [simpl; lia|]. simpl. lia. }
  destruct (get_text content) as [text|e]; [|reflexivity].
  destruct (Z.ltb_spec max_length (Z.of_nat (length text))) as [Hlt|Hge].
  - destruct (cut_excerpt_cases text max_length) as [Hle|Heq]; [lia| |].
    + split; [lia|]. intros Hgt. lia.
    + rewrite Heq. rewrite length_app, length_firstn. simpl length.
      split; [lia|]. intros _. eexists. split; [reflexivity|].
      rewrite length_firstn. lia.
  - split; [lia|]. intros Hgt. lia.
Qed.

Lemma excerpt_within_budget_witness :
  (0 <= 10)%Z /\
  match extract_meta_description (fun s => Ok s) (lit "abcdef.g ijklmnopq") 10 with
  | Ok d =>
      (Z.of_nat (length d) <= 10 + 3)%Z
      /\ ((10 < Z.of_nat (length d))%Z ->
          exists t, d = t ++ lit "..." /\ Z.of_nat (length t) = 10%Z)
  | Raise e => (fun s => Ok s) (lit "abcdef.g ijklmnopq") = Raise e
  end.
Proof.
  split; [lia|].
  apply (excerpt_within_budget (fun s => Ok s) (lit "abcdef.g ijklmnopq") 10). lia.
Defined.

(** The comparison with [max_length * 0.7] is the one of binary64:
    at a budget of 170 a period at index 119 counts as late enough,
    although 119 is exactly seven tenths of 170. *)
Example cut_excerpt_float_170 :
  int_gt_float 119 (SFmul 53 1024 (float_of_int 170) float_0_7) = true
  /\ int_gt_float 7 (SFmul 53 1024 (float_of_int 10) float_0_7) = false.
Proof. vm_compute. split; reflexivity. Qed.

Example cut_excerpt_samples :
  cut_excerpt (lit "abcdefgh.ijklmnopq") 10 = lit "abcdefgh."
  /\ cut_excerpt (lit "abcdef.g ijklmnopq") 10 = lit "abcdef.g i...".
Proof. vm_compute. split; reflexivity. Qed.

(** A negative budget is outside the bound: the slice then counts from
    the end of the text. *)
Example cut_excerpt_negative_budget :
  extract_meta_description (fun s => Ok s) (lit "abcdef") (-1) = Ok (lit "abcde...").
Proof. vm_compute. reflexivity. Qed.

End MetaFacts.

(** ** Cross-references *)

Section LinksFacts.

Lemma swap_remove_perm {A} (pool : list A) j x y :
  pool !! j = Some x -> last pool = Some y ->
  pool ≡ₚ x :: take (length pool - 1) (<[j := y]> pool).
Proof.
  intros Hj Hl. apply last_Some in Hl as [l' ->].
  rewrite length_app. simpl. replace (length l' + 1 - 1) with (length l') by lia.
  destruct (decide (j < length l')) as [Hlt|Hge].
  - rewrite insert_app_l by exact Hlt.
    rewrite take_app_length' by (rewrite length_insert; reflexivity).
    rewrite lookup_app_l in Hj by exact Hlt.
    apply list_elem_of_split_length in Hj as (a & b & -> & ->).
    rewrite insert_app_r_alt by lia.
    replace (length a - length a) with 0 by lia. simpl.
    rewrite <- app_assoc. simpl.
    rewrite <- Permutation_middle. constructor.
    apply Permutation_app_head.
    symmetry. apply Permutation_cons_append.
  - assert (j = length l').
    { apply lookup_lt_Some in Hj. rewrite length_app in Hj. simpl in Hj. lia. }
    subst j. rewrite lookup_app_r in Hj by lia.
    replace (length l' - length l') with 0 in Hj by lia. simpl in Hj.
    injection Hj as <-.
    rewrite insert_app_r_alt by lia.
    replace (length l' - length l') with 0 by lia. simpl.
    rewrite take_app_length. symmetry. apply Permutation_cons_append.
Qed.

(** [random.sample] hands back [k] elements taken at distinct positions. *)
Lemma sample_loop_spec {A} (k : nat) : forall (pool : list A) (w : world),
  k <= length pool ->
  exists res w', Random.sample_loop k pool w = (Ok res, w')
    /\ length res = k /\ (exists rest, pool ≡ₚ res ++ rest)
    /\ same_but_rng w w'.
Proof.
  induction k as [|k IH]; intros pool w Hk.
  - exists [], w. simpl. repeat split; try reflexivity. exists pool. reflexivity.
  - simpl. unfold bind at 1. unfold Random.randbelow at 1.
    set (j := rng w 0 mod length pool).
    assert (Hj : j < length pool) by (apply Nat.mod_upper_bound; lia).
    destruct (lookup_lt_is_Some_2 pool j Hj) as [x Hx]. rewrite Hx.
    destruct (last pool) as [y|] eqn:Hy.
    2:{ destruct pool; [simpl in Hk; lia|]. apply last_None in Hy. discriminate. }
    set (pool' := take (length pool - 1) (<[j := y]> pool)).
    assert (Hlen : k <= length pool').
    { unfold pool'. rewrite length_take, length_insert. lia. }
    destruct (IH pool' (set_rng (fun i => rng w (S i)) w) Hlen)
      as (res & w' & Hrun & Hres & [rest Hperm] & Hc & Ho & Hp & Ht).
    exists (x :: res), w'. unfold bind. rewrite Hrun. unfold ret.
    repeat split; simpl; try assumption; try congruence.
    exists rest. rewrite (swap_remove_perm pool j x y Hx Hy).
    fold pool'. rewrite Hperm. reflexivity.
Qed.

Lemma range_NoDup n : NoDup (range n).
Proof.
  unfold range. apply NoDup_fmap_2; [apply Nat2Z.inj'|]. apply NoDup_seq.
Qed.

Lemma elem_of_range i n : i ∈ range n <-> (0 <= i < n)%Z.
Proof.
  unfold range. rewrite list_elem_of_fmap. split.
  - intros (k & -> & Hk). apply elem_of_seq in Hk. lia.
  - intros H. exists (Z.to_nat i). split; [lia|]. apply elem_of_seq. lia.
Qed.

Lemma available_NoDup c n : NoDup (available c n).
Proof.
  unfold available. apply NoDup_ListNoDup, List.NoDup_filter, NoDup_ListNoDup, range_NoDup.
Qed.

Lemma elem_of_available i c n : i ∈ available c n <-> (0 <= i < n)%Z /\ i <> c.
Proof.
  unfold available. rewrite list_elem_of_In, filter_In, <- list_elem_of_In, elem_of_range.
  rewrite negb_true_iff, Z.eqb_neq. reflexivity.
Qed.

Lemma length_range n : length (range n) = Z.to_nat n.
Proof. unfold range. rewrite length_map, length_seq. reflexivity. Qed.

(** Removing one index of the range leaves one element less. *)
Lemma length_available c n :
  (0 <= c < n)%Z -> length (available c n) = Z.to_nat n - 1.
Proof.
  intros Hc.
  assert (Hperm : range n ≡ₚ c :: available c n).
  { apply NoDup_Permutation; [apply range_NoDup| |].
    - constructor; [|apply available_NoDup].
      rewrite elem_of_available. tauto.
    - intros i. rewrite elem_of_cons, elem_of_available, elem_of_range.
      destruct (decide (i = c)); [subst; tauto|]. tauto. }
  apply Permutation_length in Hperm. rewrite length_range in Hperm.
  simpl in Hperm. lia.
Qed.

Lemma assign_internal_links_spec current total num_links w :
  (0 <= num_links)%Z ->
  exists l w', assign_internal_links current total num_links w = (Ok l, w')
    /\ NoDup l
    /\ (forall i, i ∈ l -> (0 <= i < total)%Z /\ i <> current)
    /\ length l = Nat.min (Z.to_nat num_links) (length (available current total))
    /\ same_but_rng w w'.
Proof.
  intros Hk. unfold assign_internal_links. fold (available current total).
  destruct (Z.ltb_spec (Z.of_nat (length (available current total))) num_links) as [Hlt|Hge].
  - exists (available current total), w. unfold ret.
    split; [reflexivity|]. split; [apply available_NoDup|].
    split; [intros i; apply elem_of_available|].
    split; [lia|]. repeat split; reflexivity.
  - unfold Random.sample.
    replace ((0 <=? num_links)%Z && (num_links <=? Z.of_nat (length (available current total)))%Z)
      with true by (symmetry; apply andb_true_intro; split; lia).
    destruct (sample_loop_spec (Z.to_nat num_links) (available current total) w)
      as (res & w' & Hrun & Hlen & [rest Hperm] & Hsame); [lia|].
    exists res, w'. split; [exact Hrun|].
    pose proof (available_NoDup current total) as Hnd.
    rewrite Hperm in Hnd. apply NoDup_app in Hnd as (Hnd & _ & _).
    split; [exact Hnd|]. split.
    + intros i Hi. apply elem_of_available. rewrite Hperm.
      apply elem_of_app. left. exact Hi.
    + split; [lia|exact Hsame].
Qed.

(** C10. The index list [assign_internal_links] returns has no
    duplicates, in the sampled case as in the fallback that returns the
    whole remaining pool; the call raises only for a negative count. *)
Theorem assigned_links_distinct (current_index total_posts num_links : Z) (w : world) :
  match fst (assign_internal_links current_index total_posts num_links w) with
  | Ok related_indices => NoDup related_indices
  | Raise e => (num_links < 0)%Z
  end.
Proof.
  destruct (Z.le_gt_cases 0 num_links) as [Hk|Hk].
  - destruct (assign_internal_links_spec current_index total_posts num_links w Hk)
      as (l & w' & -> & Hnd & _). exact Hnd.
  - unfold assign_internal_links.
    destruct (Z.ltb_spec (Z.of_nat (length (List.filter (fun i => negb (i =? current_index)%Z) (range total_posts)))) num_links); [lia|].
    unfold Random.sample.
    replace (0 <=? num_links)%Z with false by (symmetry; apply Z.leb_gt; lia).
    simpl. lia.
Qed.

Lemma randint_spec a b w :
  (a <= b)%Z ->
  exists v w', Random.randint a b w = (Ok v, w') /\ (a <= v <= b)%Z /\ same_but_rng w w'.
Proof.
  intros Hab. unfold Random.randint.
  destruct (Z.leb_spec a b); [|lia].
  unfold bind, Random.randbelow, ret.
  eexists _, _. split; [reflexivity|]. split.
  - pose proof (Nat.mod_upper_bound (rng w 0) (Z.to_nat (b - a + 1))). lia.
  - repeat split; reflexivity.
Qed.

Lemma randint_empty a b w :
  (b < a)%Z -> Random.randint a b w = (Raise ValueError, w).
Proof.
  intros Hab. unfold Random.randint. destruct (Z.leb_spec a b); [lia|reflexivity].
Qed.

(** With six articles or more, numbered by their position, the draw
    for an article leaves the article out and has between
    [min(MIN, N-1)] and [min(MAX, N-1)] distinct members. *)
Lemma draw_related_large_set (processed_posts : list article) (a : article) (w : world) :
  6 <= length processed_posts ->
  index a < length processed_posts ->
  exists l w', draw_related processed_posts a w = (Ok l, w')
    /\ NoDup l
    /\ (forall i, i ∈ l -> i <> Z.of_nat (index a)
                         /\ (0 <= i < Z.of_nat (length processed_posts))%Z)
    /\ (Z.min MIN_INTERNAL_LINKS (Z.of_nat (length processed_posts) - 1)
         <= Z.of_nat (length l)
         <= Z.min MAX_INTERNAL_LINKS (Z.of_nat (length processed_posts) - 1))%Z
    /\ same_but_rng w w'.
Proof.
  intros HN Hidx. unfold draw_related, MIN_INTERNAL_LINKS, MAX_INTERNAL_LINKS.
  set (n := Z.of_nat (length processed_posts)).
  destruct (randint_spec 5 (Z.min 10 (n - 1)) w) as (k & w1 & Hk & Hrange & Hs1);
    [subst n; lia|].
  destruct (assign_internal_links_spec (Z.of_nat (index a)) n k w1)
    as (l & w2 & Hl & Hnd & Hmem & Hlen & Hs2); [lia|].
  exists l, w2. unfold bind. rewrite Hk, Hl.
  split; [reflexivity|]. split; [exact Hnd|]. split.
  - intros i Hi. destruct (Hmem i Hi). split; assumption.
  - rewrite length_available in Hlen by (subst n; lia). split.
    + subst n. lia.
    + destruct Hs1 as (?&?&?&?), Hs2 as (?&?&?&?).
      repeat split; congruence.
Qed.

(** C5. With one to five articles in the set the cross-reference pass
    produces no list at all: [random.randint(5, N - 1)] is called on an
    empty range and its [ValueError] ends the pass at the first article. *)
Theorem cross_references_raise_on_small_sets (processed_posts : list article) (w : world) :
  1 <= length processed_posts <= 5 ->
  assign_links processed_posts w = (Raise ValueError, w).
Proof.
  intros HN. unfold assign_links.
  destruct processed_posts as [|a rest] eqn:E; [simpl in HN; lia|].
  rewrite <- E at 1. simpl link_loop. unfold bind at 1. unfold draw_related.
  unfold bind at 1. rewrite randint_empty; [reflexivity|].
  unfold MIN_INTERNAL_LINKS, MAX_INTERNAL_LINKS. subst. simpl length in *. lia.
Qed.

End LinksFacts.

Lemma cross_references_raise_on_small_sets_witness :
  1 <= length (map stub_article [0; 1; 2]) <= 5 /\
  assign_links (map stub_article [0; 1; 2]) (quiet_world (fun _ => 0))
  = (Raise ValueError, quiet_world (fun _ => 0)).
Proof.
  split; [simpl; lia|].
  apply (cross_references_raise_on_small_sets (map stub_article [0; 1; 2])). simpl; lia.
Defined.

(** When a record failed, positions and record indices part: the
    article of record 2 sits at position 1 and position 1 stays in its
    pool. *)
Example cross_reference_to_itself :
  let processed_posts := map stub_article [0; 2; 3; 4; 5; 6; 7] in
  processed_posts !! 1 = Some (stub_article 2)
  /\ fst (draw_related processed_posts (stub_article 2) (quiet_world (fun _ => 1)))
     = Ok [1; 6; 5; 4; 3; 0]%Z.
Proof. vm_compute. split; reflexivity. Qed.

(** ** Chunks *)

Section ChunkFacts.

Lemma has_ink_app a b : has_ink (a ++ b) = has_ink a || has_ink b.
Proof. apply existsb_app. Qed.

Lemma has_ink_rev s : has_ink (rev s) = has_ink s.
Proof.
  induction s as [|c r IH]; [reflexivity|].
  simpl. rewrite has_ink_app, IH. simpl. rewrite orb_false_r. apply orb_comm.
Qed.

Lemma has_ink_lskip s : has_ink (lskip isspace s) = has_ink s.
Proof.
  induction s as [|c r IH]; [reflexivity|].
  simpl. destruct (isspace c) eqn:Hc; simpl; [exact IH|rewrite Hc; reflexivity].
Qed.

Lemma has_ink_truthy s : has_ink s = true -> truthy s = true.
Proof. destruct s; [discriminate|reflexivity]. Qed.

Lemma strip_rev s : strip s = rev (lskip isspace (rev (lskip isspace s))).
Proof. unfold strip. rewrite !rev_append_rev, !app_nil_r. reflexivity. Qed.

Lemma strip_truthy s : has_ink s = true -> truthy (strip s) = true.
Proof.
  intros H. apply has_ink_truthy. rewrite strip_rev.
  rewrite has_ink_rev, has_ink_lskip, has_ink_rev, has_ink_lskip. exact H.
Qed.

Lemma split_ws_ink s : Forall (fun w => has_ink w = true) (split_ws s).
Proof.
  induction s as [|c r IH]; [constructor|].
  simpl. destruct (isspace c) eqn:Hc; [exact IH|].
  assert (Hone : has_ink [c] = true) by (simpl; rewrite Hc; reflexivity).
  destruct r as [|c' r']; [repeat constructor; exact Hone|].
  destruct (isspace c').
  - constructor; [exact Hone|exact IH].
  - destruct (split_ws (c' :: r')) as [|w ws].
    + repeat constructor; exact Hone.
    + inversion IH; subst. constructor; [|assumption].
      simpl. rewrite Hc. reflexivity.
Qed.

Lemma close_chunk_ok chunks cur :
  chunks_ok (chunks, cur) ->
  Forall (fun c => truthy c = true)
    (if truthy cur then chunks ++ [strip cur] else chunks).
Proof.
  intros [Hc Hcur]. simpl in *. destruct (truthy cur) eqn:Ht; [|exact Hc].
  apply Forall_app. split; [exact Hc|].
  constructor; [|constructor]. apply strip_truthy, Hcur. reflexivity.
Qed.

Lemma word_step_ok limit st word :
  chunks_ok st -> has_ink word = true -> chunks_ok (word_step limit st word).
Proof.
  intros Hst Hw. destruct st as [chunks wc]. unfold word_step.
  destruct (limit <? length wc + length word + 1).
  - split; simpl; [apply close_chunk_ok; exact Hst|].
    intros _. rewrite has_ink_app, Hw. reflexivity.
  - split; simpl; [apply Hst|].
    intros _. rewrite !has_ink_app, Hw. apply orb_true_r.
Qed.

Lemma word_loop_ok limit words : forall st,
  chunks_ok st -> Forall (fun w => has_ink w = true) words ->
  chunks_ok (fold_left (word_step limit) words st).
Proof.
  induction words as [|w ws IH]; intros st Hst Hws; [exact Hst|].
  inversion Hws; subst. simpl. apply IH; [|assumption].
  apply word_step_ok; assumption.
Qed.

Lemma sentence_step_ok limit st sentence :
  chunks_ok st -> chunks_ok (sentence_step limit st sentence).
Proof.
  intros Hst. destruct st as [chunks cur]. unfold sentence_step.
  assert (Hdot : forall x, has_ink (x ++ sentence ++ lit ". ") = true).
  { intros x. rewrite !has_ink_app. simpl. rewrite !orb_true_r. reflexivity. }
  destruct (limit <? length cur + length (sentence ++ lit ". ")).
  - pose proof (close_chunk_ok chunks cur Hst) as Hclosed.
    destruct (limit <? length sentence).
    + pose proof (word_loop_ok limit (split_ws sentence)
                    ((if truthy cur then chunks ++ [strip cur] else chunks), [])) as Hloop.
      destruct (fold_left _ _ _) as [chunks' wc] eqn:E.
      destruct Hloop as [Hc' Hwc']; [split; [exact Hclosed|discriminate]|apply split_ws_ink|].
      split; simpl in *; [exact Hc'|].
      destruct (truthy wc) eqn:Hwc; [intros _; apply Hwc'; reflexivity|apply Hst].
    + split; simpl; [exact Hclosed|]. intros _. apply (Hdot []).
  - split; simpl; [apply Hst|]. intros _. apply Hdot.
Qed.

Lemma sentence_loop_ok limit sentences : forall st,
  chunks_ok st -> chunks_ok (fold_left (sentence_step limit) sentences st).
Proof.
  induction sentences as [|s ss IH]; intros st Hst; [exact Hst|].
  simpl. apply IH, sentence_step_ok, Hst.
Qed.

Lemma force_split_truthy limit s :
  Forall (fun c => truthy c = true) (force_split limit s).
Proof.
  unfold force_split. apply Forall_forall. intros piece Hin.
  apply list_elem_of_In, in_map_iff in Hin as (i & <- & Hi).
  apply in_seq in Hi. destruct limit as [|l]; [unfold Nat.div in Hi; lia|].
  assert (Hlt : i * S l < length s).
  { destruct Hi as [_ Hi]. rewrite Nat.add_0_l in Hi.
    assert (S i <= (length s + S l - 1) / S l) by lia.
    pose proof (Nat.Div0.mul_div_le (length s + S l - 1) (S l)).
    nia. }
  destruct (skipn (i * S l) s) as [|c r] eqn:E.
  - apply (f_equal (@length _)) in E. rewrite length_skipn in E. simpl in E. lia.
  - reflexivity.
Qed.

(** Every chunk handed to the translator is a non-empty string. *)
Lemma split_chunks_truthy limit s :
  Forall (fun c => truthy c = true) (split_chunks limit s).
Proof.
  unfold split_chunks.
  pose proof (sentence_loop_ok limit (split_dot_space s) ([], [])) as Hloop.
  destruct (fold_left _ _ _) as [chunks cur].
  destruct Hloop as [Hc Hcur]; [split; [constructor|discriminate]|].
  pose proof (close_chunk_ok chunks cur (conj Hc Hcur)) as Hclosed.
  destruct (if truthy cur then chunks ++ [strip cur] else chunks);
    [apply force_split_truthy|exact Hclosed].
Qed.

Lemma split_chunks_nonempty limit s :
  0 < limit -> s <> [] -> split_chunks limit s <> [].
Proof.
  intros Hl Hs. unfold split_chunks.
  destruct (fold_left _ _ _) as [chunks cur].
  destruct (if truthy cur then chunks ++ [strip cur] else chunks); [|discriminate].
  unfold force_split.
  assert (1 <= (length s + limit - 1) / limit).
  { apply Nat.div_le_lower_bound; [lia|]. destruct s; [congruence|simpl; lia]. }
  destruct ((length s + limit - 1) / limit); [lia|discriminate].
Qed.

Lemma join_truthy sep parts :
  parts <> [] -> Forall (fun c => truthy c = true) parts ->
  truthy (join sep parts) = true.
Proof.
  intros Hne Hall. destruct parts as [|p ps]; [congruence|].
  inversion Hall; subst. destruct p as [|c r]; [discriminate|].
  simpl. destruct ps; reflexivity.
Qed.

End ChunkFacts.

(** ** The retry loop *)

Section TranslateFacts.

Variable provider : nat -> str -> str -> str -> res str.

Lemma live_calls_log e w :
  live_calls (log e w) = live_calls w + (if is_live e then 1 else 0).
Proof.
  unfold live_calls. simpl. rewrite List.filter_app, length_app. simpl.
  destruct (is_live e); reflexivity.
Qed.

Lemma str_eqb_eq a b : str_eqb a b = true <-> a = b.
Proof. unfold str_eqb. apply bool_decide_eq_true. Qed.

Lemma attempt_once_declined text source target use_cache attempt w :
  declined text (provider (live_calls w) source target text) ->
  exists r w', attempt_once provider text source target use_cache attempt w = (Ok r, w')
    /\ live_calls w' = S (live_calls w)
    /\ cache_files w' = cache_files w
    /\ (r = None \/ (r = Some text /\ MAX_RETRIES - 1 <= attempt)).
Proof.
  intros Hd. unfold attempt_once, try_except, bind at 1, google_translate.
  destruct (provider (live_calls w) source target text) as [v|e].
  - assert (Hno : truthy v && negb (str_eqb v text) = false).
    { destruct Hd as [Hv| ->]; [rewrite Hv; reflexivity|].
      replace (str_eqb text text) with true by (symmetry; apply str_eqb_eq; reflexivity).
      apply andb_false_r. }
    rewrite Hno. unfold ret. eexists _, _. split; [reflexivity|].
    rewrite live_calls_log. simpl. split; [lia|]. split; [reflexivity|]. left. reflexivity.
  - destruct (Nat.ltb_spec attempt (MAX_RETRIES - 1)).
    + unfold bind, sleep, emit, ret. eexists _, _. split; [reflexivity|].
      rewrite !live_calls_log. simpl. split; [lia|]. split; [reflexivity|].
      left. reflexivity.
    + unfold ret. eexists _, _. split; [reflexivity|].
      rewrite live_calls_log. simpl. split; [lia|]. split; [reflexivity|].
      right. split; [reflexivity|assumption].
Qed.

(** The loop over the attempts [first .. first + count - 1], none beyond
    the ceiling: as many live calls as attempts, then the input itself. *)
Lemma retry_loop_declined text source target use_cache count :
  (forall n, declined text (provider n source target text)) ->
  forall first w, first + count <= MAX_RETRIES ->
  exists w', retry_loop provider text source target use_cache (seq first count) w
             = (Ok text, w')
    /\ live_calls w' = live_calls w + count
    /\ cache_files w' = cache_files w.
Proof.
  intros Hd. induction count as [|count IH]; intros first w Hle.
  - exists w. simpl. unfold ret. repeat split; try reflexivity. lia.
  - simpl. unfold bind.
    destruct (attempt_once_declined text source target use_cache first w (Hd _))
      as (r & w1 & -> & Hl & Hc & Hr).
    destruct Hr as [-> | [-> Hlast]].
    + destruct (IH (S first) w1) as (w2 & -> & Hl2 & Hc2); [lia|].
      exists w2. split; [reflexivity|]. split; [lia|congruence].
    + exists w1. unfold ret. split; [reflexivity|].
      assert (count = 0) by lia. subst count. split; [lia|exact Hc].
Qed.

(** A unit whose every provider answer is declined. *)
Lemma single_declined (text source_lang target_lang : str)
  (use_cache : bool) (w : world) :
  (forall n, declined text (provider n source_lang target_lang text)) ->
  exists v w',
    translate_text_single provider text source_lang target_lang use_cache w = (Ok v, w')
    /\ live_calls w' <= live_calls w + MAX_RETRIES
    /\ (v = text
        \/ (use_cache = true
            /\ usable (cache_files w !! get_cache_key text target_lang) = Some v))
    /\ (blank text = false ->
        (use_cache = true ->
         usable (cache_files w !! get_cache_key text target_lang) = None) ->
        v = text /\ live_calls w' = live_calls w + MAX_RETRIES).
Proof.
  intros Hd. unfold translate_text_single.
  destruct (blank text) eqn:Hb.
  - exists text, w. unfold ret. split; [reflexivity|]. split; [lia|].
    split; [left; reflexivity|]. discriminate.
  - unfold bind at 1, cache_probe. destruct use_cache.
    + unfold bind at 1, load_from_cache, ret.
      destruct (usable (cache_files w !! get_cache_key text target_lang)) as [c|] eqn:Hu.
      * eexists c, _. split; [reflexivity|]. rewrite live_calls_log. simpl.
        split; [lia|]. split; [right; split; reflexivity|].
        intros _ H. specialize (H eq_refl). discriminate.
      * destruct (retry_loop_declined text source_lang target_lang true MAX_RETRIES Hd 0
                    (log (CacheLookup (get_cache_key text target_lang)) w))
          as (w' & Hrun & Hl & Hc); [lia|].
        exists text, w'. split; [exact Hrun|].
        rewrite live_calls_log in Hl. simpl in Hl.
        split; [lia|]. split; [left; reflexivity|].
        intros _ _. split; [reflexivity|lia].
    + unfold ret.
      destruct (retry_loop_declined text source_lang target_lang false MAX_RETRIES Hd 0 w)
        as (w' & Hrun & Hl & Hc); [lia|].
      exists text, w'. split; [exact Hrun|]. split; [lia|].
      split; [left; reflexivity|]. intros _ _. split; [reflexivity|lia].
Qed.


(** C6. When every provider answer for [text] is an exception, a falsy
    value or [text] itself, [translate_text_single] returns normally
    after at most [MAX_RETRIES] live calls, and its value is [text]
    unless the cache already held a usable entry for it. A non-blank
    text without such an entry costs exactly [MAX_RETRIES] attempts. *)
Theorem degraded_to_original (text source_lang target_lang : str)
  (use_cache : bool) (w : world) :
  (forall n, declined text (provider n source_lang target_lang text)) ->
  exists v w',
    translate_text_single provider text source_lang target_lang use_cache w = (Ok v, w')
    /\ live_calls w' <= live_calls w + MAX_RETRIES
    /\ (v = text
        \/ (use_cache = true
            /\ usable (cache_files w !! get_cache_key text target_lang) = Some v))
    /\ (blank text = false ->
        (use_cache = true ->
         usable (cache_files w !! get_cache_key text target_lang) = None) ->
        v = text /\ live_calls w' = live_calls w + MAX_RETRIES).
Proof. apply single_declined. Qed.

End TranslateFacts.

Lemma degraded_to_original_witness :
  (forall n, declined (lit "salom") (unreachable n (lit "uz") (lit "en") (lit "salom")))
  /\ exists v w',
    translate_text_single unreachable (lit "salom") (lit "uz") (lit "en") true
      (quiet_world (fun _ => 0)) = (Ok v, w')
    /\ live_calls w' <= live_calls (quiet_world (fun _ => 0)) + MAX_RETRIES
    /\ (v = lit "salom"
        \/ (true = true
            /\ usable (cache_files (quiet_world (fun _ => 0))
                         !! get_cache_key (lit "salom") (lit "en")) = Some v))
    /\ (blank (lit "salom") = false ->
        (true = true ->
         usable (cache_files (quiet_world (fun _ => 0))
                   !! get_cache_key (lit "salom") (lit "en")) = None) ->
        v = lit "salom"
        /\ live_calls w' = live_calls (quiet_world (fun _ => 0)) + MAX_RETRIES).
Proof.
  split; [intros n; exact I|].
  apply (degraded_to_original unreachable (lit "salom") (lit "uz") (lit "en") true
           (quiet_world (fun _ => 0))).
  intros n. exact I.
Defined.

(** Five attempts, with the linear back-off between them. *)
Example degraded_trace :
  let r := translate_text_single unreachable (lit "salom") (lit "uz") (lit "en") false
             (quiet_world (fun _ => 0)) in
  fst r = Ok (lit "salom")
  /\ trace (snd r)
     = [Live (lit "uz") (lit "en") (lit "salom"); Sleep 3;
        Live (lit "uz") (lit "en") (lit "salom"); Sleep 6;
        Live (lit "uz") (lit "en") (lit "salom"); Sleep 9;
        Live (lit "uz") (lit "en") (lit "salom"); Sleep 12;
        Live (lit "uz") (lit "en") (lit "salom")].
Proof. vm_compute. split; reflexivity. Qed.

(** ** Two calls of the translator *)

Lemma lskip_no_ink s : has_ink s = false -> lskip isspace s = [].
Proof.
  induction s as [|c r IH]; [reflexivity|].
  simpl. destruct (isspace c); simpl; [exact IH|discriminate].
Qed.

Lemma blank_ink text : blank text = negb (has_ink text).
Proof.
  unfold blank. destruct (has_ink text) eqn:Hi.
  - rewrite (strip_truthy text Hi), (has_ink_truthy text Hi). reflexivity.
  - rewrite strip_rev, (lskip_no_ink text Hi). simpl. apply orb_true_r.
Qed.

Lemma split_ws_no_ink s : has_ink s = false -> split_ws s = [].
Proof.
  induction s as [|c r IH]; [reflexivity|].
  simpl. destruct (isspace c); simpl; [exact IH|discriminate].
Qed.

Lemma split_ws_nonempty s : has_ink s = true -> split_ws s <> [].
Proof.
  induction s as [|c r IH]; [discriminate|].
  simpl. destruct (isspace c); simpl; [exact IH|].
  intros _. destruct r as [|c' r']; [discriminate|].
  destruct (isspace c'); [discriminate|].
  destruct (split_ws (c' :: r')); discriminate.
Qed.

Lemma normalize_ink text : has_ink (normalize text) = has_ink text.
Proof.
  unfold normalize. destruct (has_ink text) eqn:Hi.
  - pose proof (split_ws_nonempty text Hi) as Hne.
    pose proof (split_ws_ink text) as Hall.
    destruct (split_ws text) as [|w ws]; [congruence|].
    inversion Hall; subst. destruct ws; simpl; [assumption|].
    rewrite has_ink_app. rewrite H1. reflexivity.
  - rewrite (split_ws_no_ink text Hi). reflexivity.
Qed.

Lemma blank_normalize text : blank (normalize text) = blank text.
Proof. rewrite !blank_ink, normalize_ink. reflexivity. Qed.

Section TwoCalls.

Variable provider : nat -> str -> str -> str -> res str.
Variables source target : str.

Local Abbreviation key text := (get_cache_key text target).

Lemma cache_probe_run text w :
  cache_probe text target true w
  = (Ok (usable (cache_files w !! key text)), log (CacheLookup (key text)) w).
Proof. reflexivity. Qed.

Lemma usable_truthy o v : usable o = Some v -> truthy v = true /\ o = Some v.
Proof.
  destruct o as [c|]; simpl; [|discriminate].
  destruct (truthy c) eqn:Hc; [|discriminate]. intros [= <-]. split; [exact Hc|reflexivity].
Qed.

(** A unit that goes live with a provider that translates: one call,
    one entry under the key of the unit. *)
Lemma single_fresh text w :
  translates provider ->
  blank text = false ->
  usable (cache_files w !! key text) = None ->
  exists v w',
    translate_text_single provider text source target true w = (Ok v, w')
    /\ truthy v = true
    /\ cache_files w' = <[key text := v]> (cache_files w)
    /\ live_calls w' = S (live_calls w)
    /\ trace w' = trace w ++ [CacheLookup (key text); Live source target text;
                              CacheStore (key text) v; Sleep TRANSLATION_DELAY].
Proof.
  intros Htr Hb Hu. unfold translate_text_single. rewrite Hb.
  unfold bind at 1. rewrite cache_probe_run, Hu.
  change (seq 0 MAX_RETRIES) with (0 :: seq 1 4).
  cbn [retry_loop]. unfold bind at 1, attempt_once, try_except, bind at 1, google_translate.
  destruct (Htr (live_calls (log (CacheLookup (key text)) w)) source target text)
    as (v & Hv & Hvt & Hvn).
  rewrite Hv, Hvt.
  replace (str_eqb v text) with false
    by (symmetry; apply bool_decide_eq_false; exact Hvn).
  cbn [negb andb]. unfold bind, save_to_cache, sleep, emit, ret.
  eexists v, _. split; [reflexivity|]. split; [exact Hvt|].
  split; [reflexivity|]. split.
  - unfold live_calls. simpl. rewrite !List.filter_app, !length_app. simpl. lia.
  - simpl. rewrite <- !app_assoc. reflexivity.
Qed.

(** The three ways a unit ends when the provider translates. *)
Lemma single_run text w :
  translates provider ->
  exists v w',
    translate_text_single provider text source target true w = (Ok v, w')
    /\ ((blank text = true /\ v = text /\ w' = w)
        \/ (blank text = false
            /\ usable (cache_files w !! key text) = Some v
            /\ w' = log (CacheLookup (key text)) w)
        \/ (blank text = false
            /\ usable (cache_files w !! key text) = None
            /\ truthy v = true
            /\ cache_files w' = <[key text := v]> (cache_files w)
            /\ live_calls w' = S (live_calls w)
            /\ trace w' = trace w ++ [CacheLookup (key text); Live source target text;
                                      CacheStore (key text) v; Sleep TRANSLATION_DELAY])).
Proof.
  intros Htr. destruct (blank text) eqn:Hb.
  - exists text, w. unfold translate_text_single. rewrite Hb.
    split; [reflexivity|]. left. repeat split; reflexivity.
  - destruct (usable (cache_files w !! key text)) as [c|] eqn:Hu.
    + exists c, (log (CacheLookup (key text)) w).
      unfold translate_text_single. rewrite Hb. unfold bind. rewrite cache_probe_run, Hu.
      split; [reflexivity|]. right. left. repeat split; reflexivity.
    + destruct (single_fresh text w Htr Hb Hu) as (v & w' & Hrun & H).
      exists v, w'. split; [exact Hrun|]. right. right. tauto.
Qed.

Lemma single_run_bounds text w v w' :
  translates provider ->
  translate_text_single provider text source target true w = (Ok v, w') ->
  live_calls w <= live_calls w' <= S (live_calls w)
  /\ (truthy text = true -> truthy v = true).
Proof.
  intros Htr Hrun. destruct (single_run text w Htr) as (v0 & w0 & Hrun0 & Hcases).
  rewrite Hrun in Hrun0. injection Hrun0 as <- <-.
  destruct Hcases as [(_ & -> & ->) | [(_ & Hu & ->) | (_ & _ & Hv & _ & Hl & _)]].
  - split; [lia|tauto].
  - rewrite live_calls_log. simpl. split; [lia|].
    intros _. apply usable_truthy in Hu. tauto.
  - split; [lia|]. intros _. exact Hv.
Qed.

Lemma translate_chunks_run chunks : forall w,
  translates provider ->
  exists rs w',
    translate_chunks provider chunks source target true w = (Ok rs, w')
    /\ length rs = length chunks
    /\ live_calls w' <= live_calls w + length chunks
    /\ (Forall (fun c => truthy c = true) chunks ->
        Forall (fun c => truthy c = true) rs).
Proof.
  induction chunks as [|chunk rest IH]; intros w Htr.
  - exists [], w. simpl. unfold ret. repeat split; try reflexivity; [lia|constructor].
  - destruct (single_run chunk w Htr) as (v & w1 & Hrun & _).
    destruct (single_run_bounds chunk w v w1 Htr Hrun) as [Hl Ht].
    destruct (IH (log (Sleep TRANSLATION_DELAY) w1) Htr) as (rs & w2 & Hrest & Hlen & Hl2 & Hall).
    exists (v :: rs), w2. simpl. unfold bind at 1. rewrite Hrun.
    unfold bind at 1, sleep, emit. unfold bind. rewrite Hrest. unfold ret.
    split; [reflexivity|]. split; [simpl; lia|].
    rewrite live_calls_log in Hl2. simpl in Hl2. split; [lia|].
    intros Hc. inversion Hc; subst. constructor; [apply Ht; assumption|apply Hall; assumption].
Qed.


Lemma translate_text_blank text w :
  blank text = true ->
  translate_text provider text source target true 0 w = (Ok text, w).
Proof. intros Hb. unfold translate_text.
  change ((MAX_RECURSION_DEPTH <? 0)%Z) with false. cbv iota. rewrite Hb. reflexivity. Qed.

Lemma translate_text_hit text w c :
  blank text = false ->
  usable (cache_files w !! key text) = Some c ->
  translate_text provider text source target true 0 w
  = (Ok c, log (CacheLookup (key text)) w).
Proof.
  intros Hb Hu. unfold translate_text.
  change ((MAX_RECURSION_DEPTH <? 0)%Z) with false. cbv iota. rewrite Hb.
  unfold bind. rewrite cache_probe_run, Hu. reflexivity.
Qed.

Lemma translate_text_short text w :
  blank text = false ->
  usable (cache_files w !! key text) = None ->
  (max_chunk_length <? length (normalize text)) = false ->
  translate_text provider text source target true 0 w
  = translate_text_single provider (normalize text) source target true
      (log (CacheLookup (key text)) w).
Proof.
  intros Hb Hu Hs. unfold translate_text.
  change ((MAX_RECURSION_DEPTH <? 0)%Z) with false. cbv iota. rewrite Hb.
  unfold bind. rewrite cache_probe_run, Hu, Hs. reflexivity.
Qed.

Lemma translate_text_long text w rs w' :
  blank text = false ->
  usable (cache_files w !! key text) = None ->
  (max_chunk_length <? length (normalize text)) = true ->
  translate_chunks provider (split_chunks max_chunk_length (normalize text))
    source target true (log (CacheLookup (key text)) w) = (Ok rs, w') ->
  translate_text provider text source target true 0 w
  = (Ok (join (lit " ") rs),
     log (CacheStore (key text) (join (lit " ") rs))
       (set_cache_files (<[key text := join (lit " ") rs]> (cache_files w')) w')).
Proof.
  intros Hb Hu Hl Hrun. unfold translate_text.
  change ((MAX_RECURSION_DEPTH <? 0)%Z) with false. cbv iota. rewrite Hb.
  unfold bind at 1. rewrite cache_probe_run, Hu, Hl.
  unfold bind at 1. rewrite Hrun. reflexivity.
Qed.

(** Two short texts with the same normalized form, neither known to
    the cache under its own key: the first call probes the key of its
    text as given, then works under the key of the normalized text; the
    second call ends on the entry of the normalized text. *)
Lemma short_pair (t1 t2 : str) (w0 : world) :
  translates provider ->
  blank t1 = false ->
  normalize t2 = normalize t1 ->
  (max_chunk_length <? length (normalize t1)) = false ->
  usable (cache_files w0 !! key t1) = None ->
  usable (cache_files w0 !! key t2) = None ->
  exists r w1 w2 evs1 evs2,
    translate_text provider t1 source target true 0 w0 = (Ok r, w1)
    /\ translate_text provider t2 source target true 0 w1 = (Ok r, w2)
    /\ live_calls w2 = live_calls w1
    /\ live_calls w1 <= S (live_calls w0)
    /\ (usable (cache_files w0 !! key (normalize t1)) = None ->
        live_calls w1 = S (live_calls w0))
    /\ trace w1 = trace w0 ++ CacheLookup (key t1) :: evs1
    /\ trace w2 = trace w1 ++ CacheLookup (key t2) :: evs2
    /\ Forall (fun p => p = key (normalize t1)) (cache_paths evs1)
    /\ Forall (fun p => p = key (normalize t1)) (cache_paths evs2).
Proof.
  intros Htr Hb1 Hn Hs Hu1 Hu2.
  assert (Hb2 : blank t2 = false).
  { rewrite <- blank_normalize, Hn, blank_normalize. exact Hb1. }
  assert (Hs2 : (max_chunk_length <? length (normalize t2)) = false)
    by (rewrite Hn; exact Hs).
  rewrite (translate_text_short t1 w0 Hb1 Hu1 Hs).
  set (wA := log (CacheLookup (key t1)) w0).
  destruct (single_run (normalize t1) wA Htr) as (v & w1 & Hrun & Hcases).
  exists v, w1. rewrite Hrun.
  assert (HlA : live_calls wA = live_calls w0)
    by (unfold wA; rewrite live_calls_log; simpl; lia).
  destruct Hcases as
    [(Hbn & -> & ->) | [(Hbn & Hhit & ->) | (Hbn & Hmiss & Hv & Hc & Hlive & Htrace)]].
  - rewrite blank_normalize in Hbn. congruence.
  - (* the normalized text was in the cache *)
    set (w1 := log (CacheLookup (key (normalize t1))) wA).
    assert (Hu2' : usable (cache_files w1 !! key t2) = None) by exact Hu2.
    rewrite (translate_text_short t2 w1 Hb2 Hu2' Hs2).
    set (wC := log (CacheLookup (key t2)) w1).
    exists (log (CacheLookup (key (normalize t1))) wC),
      [CacheLookup (key (normalize t1))], [CacheLookup (key (normalize t1))].
    split; [reflexivity|]. split.
    { rewrite Hn. unfold translate_text_single. rewrite Hbn. unfold bind.
      rewrite cache_probe_run.
      change (cache_files wC) with (cache_files wA). rewrite Hhit. reflexivity. }
    split; [unfold wC, w1; rewrite !live_calls_log; simpl; lia|].
    split; [unfold w1; rewrite live_calls_log; simpl; lia|].
    split; [intros Hcold; change (cache_files wA) with (cache_files w0) in Hhit; congruence|].
    split; [simpl; rewrite <- app_assoc; reflexivity|].
    split; [simpl; rewrite <- app_assoc; reflexivity|].
    split; repeat constructor.
  - (* the normalized text went live *)
    assert (Hhit1 : usable (cache_files w1 !! key (normalize t1)) = Some v).
    { rewrite Hc, lookup_insert_eq. simpl. rewrite Hv. reflexivity. }
    assert (Ht1 : trace w1 = trace w0 ++ CacheLookup (key t1) ::
                    [CacheLookup (key (normalize t1)); Live source target (normalize t1);
                     CacheStore (key (normalize t1)) v; Sleep TRANSLATION_DELAY]).
    { rewrite Htrace. unfold wA. simpl. rewrite <- app_assoc. reflexivity. }
    destruct (usable (cache_files w1 !! key t2)) as [c|] eqn:Hu2'.
    + assert (c = v).
      { rewrite Hc in Hu2'.
        destruct (decide (key (normalize t1) = key t2)) as [E|N].
        - rewrite E, lookup_insert_eq in Hu2'. simpl in Hu2'. rewrite Hv in Hu2'. congruence.
        - rewrite lookup_insert_ne in Hu2' by exact N.
          change (cache_files wA) with (cache_files w0) in Hu2'. congruence. }
      subst c. eexists (log (CacheLookup (key t2)) w1), _, [].
      rewrite (translate_text_hit t2 w1 v Hb2 Hu2').
      split; [reflexivity|]. split; [reflexivity|].
      split; [rewrite live_calls_log; simpl; lia|].
      split; [lia|]. split; [intros _; lia|].
      split; [exact Ht1|]. split; [reflexivity|].
      split; repeat constructor.
    + rewrite (translate_text_short t2 w1 Hb2 Hu2' Hs2).
      set (wC := log (CacheLookup (key t2)) w1).
      eexists (log (CacheLookup (key (normalize t1))) wC), _,
        [CacheLookup (key (normalize t1))].
      split; [reflexivity|]. split.
      { rewrite Hn. unfold translate_text_single. rewrite Hbn. unfold bind.
        rewrite cache_probe_run.
        change (cache_files wC) with (cache_files w1). rewrite Hhit1. reflexivity. }
      split; [unfold wC; rewrite !live_calls_log; simpl; lia|].
      split; [lia|]. split; [intros _; lia|].
      split; [exact Ht1|].
      split; [simpl; rewrite <- app_assoc; reflexivity|].
      split; repeat constructor.
Qed.

(** C3. With a provider that translates, a second call on the same text
    returns the value of the first and makes no live call. The first
    call makes at most one live call per unit: one for a short text, one
    per chunk for a long text. A short text unknown to the cache costs
    exactly one; a long text unknown to the cache leaves its re-joined
    result under the key of the text as given, and the second call is
    the single lookup of that key. *)
Theorem second_call_served_from_cache (text : str) (w0 : world) :
  translates provider ->
  exists r w1 w2,
    translate_text provider text source target true 0 w0 = (Ok r, w1)
    /\ translate_text provider text source target true 0 w1 = (Ok r, w2)
    /\ live_calls w2 = live_calls w1
    /\ live_calls w1 <= live_calls w0 + length (units text)
    /\ (blank text = false ->
        usable (cache_files w0 !! key text) = None ->
        if max_chunk_length <? length (normalize text)
        then cache_files w1 !! key text = Some r
             /\ trace w2 = trace w1 ++ [CacheLookup (key text)]
        else usable (cache_files w0 !! key (normalize text)) = None ->
             live_calls w1 = S (live_calls w0)).
Proof.
  intros Htr.
  assert (Hunits : 1 <= length (units text)).
  { unfold units. destruct (max_chunk_length <? length (normalize text)) eqn:Hl; [|simpl; lia].
    apply Nat.ltb_lt in Hl.
    pose proof (split_chunks_nonempty max_chunk_length (normalize text)) as Hne.
    destruct (split_chunks max_chunk_length (normalize text)); [|simpl; lia].
    exfalso. apply Hne; [unfold max_chunk_length; lia| |reflexivity].
    intros E. rewrite E in Hl. simpl in Hl. lia. }
  destruct (blank text) eqn:Hb.
  { exists text, w0, w0. rewrite translate_text_blank by exact Hb.
    split; [reflexivity|]. split; [reflexivity|]. split; [reflexivity|].
    split; [lia|]. discriminate. }
  destruct (usable (cache_files w0 !! key text)) as [c|] eqn:Hu.
  { exists c, (log (CacheLookup (key text)) w0),
      (log (CacheLookup (key text)) (log (CacheLookup (key text)) w0)).
    rewrite (translate_text_hit text w0 c Hb Hu).
    rewrite (translate_text_hit text (log (CacheLookup (key text)) w0) c Hb Hu).
    rewrite !live_calls_log. simpl.
    split; [reflexivity|]. split; [reflexivity|]. split; [lia|]. split; [lia|].
    discriminate. }
  set (wA := log (CacheLookup (key text)) w0).
  destruct (max_chunk_length <? length (normalize text)) eqn:Hl.
  - (* long text *)
    destruct (translate_chunks_run (split_chunks max_chunk_length (normalize text)) wA Htr)
      as (rs & wB & Hrun & Hlen & Hlive & Hall).
    set (r := join (lit " ") rs).
    set (w1 := log (CacheStore (key text) r)
                 (set_cache_files (<[key text := r]> (cache_files wB)) wB)).
    assert (Hr : truthy r = true).
    { apply join_truthy; [|apply Hall, split_chunks_truthy].
      intros E. rewrite E in Hlen. simpl in Hlen.
      unfold units in Hunits. rewrite Hl in Hunits. lia. }
    assert (Hhit : usable (cache_files w1 !! key text) = Some r).
    { unfold w1. simpl. rewrite lookup_insert_eq. simpl. rewrite Hr. reflexivity. }
    exists r, w1, (log (CacheLookup (key text)) w1).
    rewrite (translate_text_long text w0 rs wB Hb Hu Hl Hrun).
    fold r. fold w1. rewrite (translate_text_hit text w1 r Hb Hhit).
    split; [reflexivity|]. split; [reflexivity|].
    split; [rewrite live_calls_log; simpl; lia|]. split.
    + unfold units. rewrite Hl. unfold w1. rewrite live_calls_log. simpl.
      change (live_calls (set_cache_files (<[key text := r]> (cache_files wB)) wB))
        with (live_calls wB).
      unfold wA in Hlive. rewrite live_calls_log in Hlive. simpl in Hlive. lia.
    + intros _ _. split; [|reflexivity].
      unfold w1. simpl. apply lookup_insert_eq.
  - (* short text *)
    destruct (short_pair text text w0 Htr Hb eq_refl Hl Hu Hu)
      as (r & w1 & w2 & evs1 & evs2 & H1 & H2 & Hl2 & Hl1 & Hcold & _).
    exists r, w1, w2. split; [exact H1|]. split; [exact H2|].
    split; [exact Hl2|]. split; [lia|]. intros _ _. exact Hcold.
Qed.

(** C4. The first cache access of [translate_text] is a lookup under the
    key of the text as given, made before the text is normalized. For a
    short text every later lookup and store is under the key of the
    normalized text, so a second short text that differs from the first
    in its whitespace runs only is served from the entry of the first:
    same value, no live call. *)
Theorem short_texts_share_the_normalized_entry (t1 t2 : str) (w0 : world) :
  translates provider ->
  blank t1 = false ->
  normalize t2 = normalize t1 ->
  length (normalize t1) <= max_chunk_length ->
  usable (cache_files w0 !! key t1) = None ->
  usable (cache_files w0 !! key t2) = None ->
  exists r w1 w2 evs1 evs2,
    translate_text provider t1 source target true 0 w0 = (Ok r, w1)
    /\ translate_text provider t2 source target true 0 w1 = (Ok r, w2)
    /\ live_calls w2 = live_calls w1
    /\ trace w1 = trace w0 ++ CacheLookup (key t1) :: evs1
    /\ trace w2 = trace w1 ++ CacheLookup (key t2) :: evs2
    /\ Forall (fun p => p = key (normalize t1)) (cache_paths evs1)
    /\ Forall (fun p => p = key (normalize t1)) (cache_paths evs2).
Proof.
  intros Htr Hb Hn Hs Hu1 Hu2.
  assert (Hs' : (max_chunk_length <? length (normalize t1)) = false)
    by (apply Nat.ltb_ge; exact Hs).
  destruct (short_pair t1 t2 w0 Htr Hb Hn Hs' Hu1 Hu2)
    as (r & w1 & w2 & evs1 & evs2 & H1 & H2 & Hl2 & _ & _ & Ht1 & Ht2 & Hp1 & Hp2).
  exists r, w1, w2, evs1, evs2. tauto.
Qed.

End TwoCalls.

Lemma tagging_translates : translates tagging.
Proof.
  intros n source target text. exists (lit "T:" ++ text).
  split; [reflexivity|]. split; [reflexivity|].
  intros E. apply (f_equal (@length _)) in E. simpl in E. lia.
Qed.

Lemma second_call_served_from_cache_witness :
  translates tagging
  /\ exists r w1 w2,
    translate_text tagging (lit "salom  dunyo") (lit "uz") (lit "en") true 0
      (quiet_world (fun _ => 0)) = (Ok r, w1)
    /\ translate_text tagging (lit "salom  dunyo") (lit "uz") (lit "en") true 0 w1
       = (Ok r, w2)
    /\ live_calls w2 = live_calls w1
    /\ live_calls w1
       <= live_calls (quiet_world (fun _ => 0)) + length (units (lit "salom  dunyo"))
    /\ (blank (lit "salom  dunyo") = false ->
        usable (cache_files (quiet_world (fun _ => 0))
                  !! get_cache_key (lit "salom  dunyo") (lit "en")) = None ->
        if max_chunk_length <? length (normalize (lit "salom  dunyo"))
        then cache_files w1 !! get_cache_key (lit "salom  dunyo") (lit "en") = Some r
             /\ trace w2
                = trace w1 ++ [CacheLookup (get_cache_key (lit "salom  dunyo") (lit "en"))]
        else usable (cache_files (quiet_world (fun _ => 0))
                       !! get_cache_key (normalize (lit "salom  dunyo")) (lit "en")) = None ->
             live_calls w1 = S (live_calls (quiet_world (fun _ => 0)))).
Proof.
  split; [exact tagging_translates|].
  apply (second_call_served_from_cache tagging (lit "uz") (lit "en")
           (lit "salom  dunyo") (quiet_world (fun _ => 0))).
  exact tagging_translates.
Defined.

Lemma short_texts_share_the_normalized_entry_witness :
  translates tagging
  /\ blank (lit "salom  dunyo") = false
  /\ normalize (lit " salom dunyo") = normalize (lit "salom  dunyo")
  /\ length (normalize (lit "salom  dunyo")) <= max_chunk_length
  /\ usable (cache_files (quiet_world (fun _ => 0))
               !! get_cache_key (lit "salom  dunyo") (lit "en")) = None
  /\ usable (cache_files (quiet_world (fun _ => 0))
               !! get_cache_key (lit " salom dunyo") (lit "en")) = None
  /\ exists r w1 w2 evs1 evs2,
    translate_text tagging (lit "salom  dunyo") (lit "uz") (lit "en") true 0
      (quiet_world (fun _ => 0)) = (Ok r, w1)
    /\ translate_text tagging (lit " salom dunyo") (lit "uz") (lit "en") true 0 w1
       = (Ok r, w2)
    /\ live_calls w2 = live_calls w1
    /\ trace w1 = trace (quiet_world (fun _ => 0))
                  ++ CacheLookup (get_cache_key (lit "salom  dunyo") (lit "en")) :: evs1
    /\ trace w2 = trace w1
                  ++ CacheLookup (get_cache_key (lit " salom dunyo") (lit "en")) :: evs2
    /\ Forall (fun p => p = get_cache_key (normalize (lit "salom  dunyo")) (lit "en"))
         (cache_paths evs1)
    /\ Forall (fun p => p = get_cache_key (normalize (lit "salom  dunyo")) (lit "en"))
         (cache_paths evs2).
Proof.
  assert (H1 : blank (lit "salom  dunyo") = false) by (vm_compute; reflexivity).
  assert (H2 : normalize (lit " salom dunyo") = normalize (lit "salom  dunyo"))
    by (vm_compute; reflexivity).
  assert (H3 : length (normalize (lit "salom  dunyo")) <= max_chunk_length)
    by (apply Nat.leb_le; vm_compute; reflexivity).
  assert (H4 : usable (cache_files (quiet_world (fun _ => 0))
                         !! get_cache_key (lit "salom  dunyo") (lit "en")) = None)
    by (vm_compute; reflexivity).
  assert (H5 : usable (cache_files (quiet_world (fun _ => 0))
                         !! get_cache_key (lit " salom dunyo") (lit "en")) = None)
    by (vm_compute; reflexivity).
  split; [exact tagging_translates|]. split; [exact H1|]. split; [exact H2|].
  split; [exact H3|]. split; [exact H4|]. split; [exact H5|].
  exact (short_texts_share_the_normalized_entry tagging (lit "uz") (lit "en")
           (lit "salom  dunyo") (lit " salom dunyo") (quiet_world (fun _ => 0))
           tagging_translates H1 H2 H3 H4 H5).
Defined.

(** C4, as first stated, fails at the first cache access: the text is
    hashed as given, and that key is not the key of the normalized
    text. Two long texts that differ in one whitespace run end in two
    cache entries. *)
Lemma text_is_hashed_before_normalizing :
  let text := lit "salom  dunyo" in
  let run := translate_text tagging text (lit "uz") (lit "en") true 0
               (quiet_world (fun _ => 0)) in
  head (cache_paths (trace (snd run))) = Some (get_cache_key text (lit "en"))
  /\ get_cache_key text (lit "en")
     = lit ".cache/trans_en_efce7fe516cf9fc29e7a14e675c41eff.json"
  /\ get_cache_key (normalize text) (lit "en")
     = lit ".cache/trans_en_2b5a97d3b1f19e30b1387b05dce184db.json"
  /\ get_cache_key text (lit "en") <> get_cache_key (normalize text) (lit "en").
Proof. vm_compute. repeat split; try reflexivity. discriminate. Qed.

(** ** The ledger *)

Lemma is_post_processed_entry post_index lang_code posts progress files :
  is_post_processed post_index lang_code posts progress files
  = match entry_of progress lang_code (py_str post_index) with
    | Some post_data => bool_decide (artifact_path lang_code post_data ∈ files)
    | None => false
    end.
Proof.
  unfold is_post_processed, entry_of. destruct (progress !! lang_code); reflexivity.
Qed.

Lemma py_str_inj i j : py_str i = py_str j -> i = j.
Proof.
  unfold py_str. intros H.
  apply (f_equal string_of_list_ascii) in H.
  rewrite !string_of_list_ascii_of_string in H.
  apply (inj pretty) in H. exact H.
Qed.

(** *** Computations that leave the ledger alone *)

Lemma keeps_ret {A} (a : A) : keeps_ledger (ret a).
Proof. intros w. split; reflexivity. Qed.

Lemma keeps_raise {A} e : keeps_ledger (@raise A e).
Proof. intros w. split; reflexivity. Qed.

Lemma keeps_bind {A B} (m : M A) (k : A -> M B) :
  keeps_ledger m -> (forall a, keeps_ledger (k a)) -> keeps_ledger (bind m k).
Proof.
  intros Hm Hk w. unfold bind. specialize (Hm w).
  destruct (m w) as [[a|e] w1]; simpl in Hm.
  - destruct (Hk a w1) as [H1 H2]. destruct Hm. split; congruence.
  - exact Hm.
Qed.

Lemma keeps_try_except {A} (m : M A) (h : exn -> M A) :
  keeps_ledger m -> (forall e, keeps_ledger (h e)) -> keeps_ledger (try_except m h).
Proof.
  intros Hm Hh w. unfold try_except. specialize (Hm w).
  destruct (m w) as [[a|e] w1]; simpl in Hm.
  - exact Hm.
  - destruct (Hh e w1) as [H1 H2]. destruct Hm. split; congruence.
Qed.

Lemma keeps_emit e : keeps_ledger (emit e).
Proof. intros w. split; reflexivity. Qed.

Lemma keeps_lift {A} (r : res A) : keeps_ledger (lift r).
Proof. intros w. split; reflexivity. Qed.

Lemma keeps_load text target : keeps_ledger (load_from_cache text target).
Proof. intros w. split; reflexivity. Qed.

Lemma keeps_save text target v : keeps_ledger (save_to_cache text target v).
Proof. intros w. split; reflexivity. Qed.

Lemma keeps_randbelow n : keeps_ledger (Random.randbelow n).
Proof. intros w. split; reflexivity. Qed.

Lemma keeps_choice {A} (l : list A) : keeps_ledger (Random.choice l).
Proof.
  destruct l; [apply keeps_raise|].
  apply keeps_bind; [apply keeps_randbelow|]. intros j. apply keeps_ret.
Qed.

Section KeepsTranslate.

Variable provider : nat -> str -> str -> str -> res str.

Lemma keeps_google s t x : keeps_ledger (google_translate provider s t x).
Proof. intros w. split; reflexivity. Qed.

Lemma keeps_probe text target b : keeps_ledger (cache_probe text target b).
Proof.
  unfold cache_probe. destruct b; [|apply keeps_ret].
  apply keeps_bind; [apply keeps_load|]. intros c. apply keeps_ret.
Qed.

Lemma keeps_save_if (b : bool) text target v :
  keeps_ledger (if b then save_to_cache text target v else ret tt).
Proof. destruct b; [apply keeps_save|apply keeps_ret]. Qed.

Lemma keeps_attempt text s t b attempt :
  keeps_ledger (attempt_once provider text s t b attempt).
Proof.
  unfold attempt_once. apply keeps_try_except.
  - apply keeps_bind; [apply keeps_google|]. intros v.
    destruct (truthy v && negb (str_eqb v text)); [|apply keeps_ret].
    apply keeps_bind; [apply keeps_save_if|]. intros _.
    apply keeps_bind; [apply keeps_emit|]. intros _. apply keeps_ret.
  - intros e. destruct (attempt <? MAX_RETRIES - 1); [|apply keeps_ret].
    apply keeps_bind; [apply keeps_emit|]. intros _. apply keeps_ret.
Qed.

Lemma keeps_retry text s t b attempts :
  keeps_ledger (retry_loop provider text s t b attempts).
Proof.
  induction attempts as [|a rest IH]; [apply keeps_ret|].
  simpl. apply keeps_bind; [apply keeps_attempt|].
  intros [v|]; [apply keeps_ret|exact IH].
Qed.

Lemma keeps_single text s t b :
  keeps_ledger (translate_text_single provider text s t b).
Proof.
  unfold translate_text_single. destruct (blank text); [apply keeps_ret|].
  apply keeps_bind; [apply keeps_probe|].
  intros [c|]; [apply keeps_ret|apply keeps_retry].
Qed.

Lemma keeps_chunks chunks s t b :
  keeps_ledger (translate_chunks provider chunks s t b).
Proof.
  induction chunks as [|c rest IH]; [apply keeps_ret|].
  simpl. apply keeps_bind; [apply keeps_single|]. intros v.
  apply keeps_bind; [apply keeps_emit|]. intros _.
  apply keeps_bind; [exact IH|]. intros rs. apply keeps_ret.
Qed.

Lemma keeps_translate_text text s t b depth :
  keeps_ledger (translate_text provider text s t b depth).
Proof.
  unfold translate_text. destruct (MAX_RECURSION_DEPTH <? depth)%Z; [apply keeps_ret|].
  destruct (blank text); [apply keeps_ret|].
  apply keeps_bind; [apply keeps_probe|].
  intros [c|]; [apply keeps_ret|].
  destruct (max_chunk_length <? length (normalize text)); [|apply keeps_single].
  apply keeps_bind; [apply keeps_chunks|]. intros rs.
  apply keeps_bind; [apply keeps_save_if|]. intros _. apply keeps_ret.
Qed.

End KeepsTranslate.

(** *** Hoare rules *)

Lemma hoare_bind {A B} (P : world -> Prop) (m : M A) (k : A -> M B)
  (R : A -> world -> Prop) (Q : B -> world -> Prop) (E : world -> Prop) :
  hoare P m R E -> (forall a, hoare (R a) (k a) Q E) -> hoare P (bind m k) Q E.
Proof.
  intros Hm Hk w Hw. unfold bind. specialize (Hm w Hw).
  destruct (m w) as [[a|e] w1]; [|exact Hm].
  apply (Hk a w1 Hm).
Qed.

Lemma hoare_ret {A} (P : world -> Prop) (a : A) (Q : A -> world -> Prop) E :
  (forall w, P w -> Q a w) -> hoare P (ret a) Q E.
Proof. intros H w Hw. apply H, Hw. Qed.

(** A computation that keeps the ledger keeps any property of the
    ledger and the output directory. *)
Lemma hoare_keeps {A} (m : M A) (I : world -> Prop) :
  keeps_ledger m ->
  (forall w w', progress w' = progress w -> output_files w' = output_files w ->
                I w -> I w') ->
  hoare I m (fun _ => I) I.
Proof.
  intros Hk HI w Hw. destruct (Hk w) as [Hp Ho].
  destruct (m w) as [[a|e] w1]; simpl in *; apply (HI w w1 Hp Ho Hw).
Qed.

Lemma hoare_try_except {A} (P : world -> Prop) (m : M A) (h : exn -> M A)
  (Q : A -> world -> Prop) (E' E : world -> Prop) :
  hoare P m Q E' -> (forall e, hoare E' (h e) Q E) -> hoare P (try_except m h) Q E.
Proof.
  intros Hm Hh w Hw. unfold try_except. specialize (Hm w Hw).
  destruct (m w) as [[a|e] w1]; [exact Hm|].
  apply (Hh e w1 Hm).
Qed.

Lemma hoare_weaken {A} (P P' : world -> Prop) (m : M A)
  (Q Q' : A -> world -> Prop) (E E' : world -> Prop) :
  hoare P m Q E ->
  (forall w, P' w -> P w) -> (forall a w, Q a w -> Q' a w) -> (forall w, E w -> E' w) ->
  hoare P' m Q' E'.
Proof.
  intros H HP HQ HE w Hw. specialize (H w (HP w Hw)).
  destruct (m w) as [[a|e] w1]; [apply HQ|apply HE]; exact H.
Qed.

(** *** The worker *)

Lemma worker_entry_consistent t f s m :
  f = generate_slug t ++ lit ".html" ->
  entry_consistent
    (<[lit "title" := t]> (<[lit "filename" := f]>
       (<[lit "slug" := s]> (<[lit "meta_description" := m]> (∅ : gmap str str))))).
Proof.
  intros ->. unfold entry_consistent.
  rewrite lookup_insert_eq.
  rewrite lookup_insert_ne by (cbv; discriminate).
  rewrite lookup_insert_eq. reflexivity.
Qed.

Section Worker.

Variable provider : nat -> str -> str -> str -> res str.
Variable unwrap_anchors : str -> res str.
Variable append_backlink : str -> str -> str -> str -> res str.
Variable get_text : str -> res str.

Variables (lang_code : str) (cfg : lang_config) (sitemap_urls : list str).

Local Abbreviation worker :=
  (process_single_article provider unwrap_anchors append_backlink get_text).

Lemma keeps_clean content : keeps_ledger (clean_content unwrap_anchors content).
Proof.
  unfold clean_content. destruct (negb (truthy content)); [apply keeps_ret|apply keeps_lift].
Qed.

Lemma keeps_inject c u a l : keeps_ledger (inject_backlink append_backlink c u a l).
Proof.
  unfold inject_backlink.
  destruct (negb (truthy c) || negb (truthy u)); [apply keeps_ret|apply keeps_lift].
Qed.

(** What is known of a worker that starts on a record not found done:
    it ends without an exception, hands back nothing or an article that
    carries the index of the record and is not marked skipped, writes a
    consistent entry for it, and leaves the rest of the ledger and the
    output directory as they were. *)
Lemma worker_spec (post_index : nat) (p : post) (w0 : world) :
  is_post_processed post_index lang_code [p] (progress w0) (output_files w0) = false ->
  exists r w',
    worker post_index p lang_code cfg sitemap_urls w0 = (Ok r, w')
    /\ frame lang_code (py_str post_index) w0 w'
    /\ match r with
       | Some a =>
           index a = post_index /\ skipped a = false
           /\ exists d, entry_of (progress w') lang_code (py_str post_index) = Some d
                        /\ entry_consistent d
                        /\ d !! lit "filename" = Some (filename a)
       | None => True
       end.
Proof.
  intros Hnot.
  set (I := fun w : world => progress w = progress w0 /\ output_files w = output_files w0).
  set (Q := fun (a : article) (w' : world) =>
              frame lang_code (py_str post_index) w0 w'
              /\ index a = post_index /\ skipped a = false
              /\ exists d, entry_of (progress w') lang_code (py_str post_index) = Some d
                           /\ entry_consistent d
                           /\ d !! lit "filename" = Some (filename a)).
  assert (HI : forall w w', progress w' = progress w -> output_files w' = output_files w ->
                            I w -> I w').
  { intros w w' Hp Ho [H1 H2]. split; congruence. }
  assert (Hframe : forall w, I w -> frame lang_code (py_str post_index) w0 w).
  { intros w [Hp Ho]. split; [exact Ho|]. intros k _. rewrite Hp. reflexivity. }
  assert (Hbody : hoare (fun w => w = w0)
            (process_body provider unwrap_anchors append_backlink get_text
               post_index p lang_code cfg sitemap_urls)
            Q (frame lang_code (py_str post_index) w0)).
  { unfold process_body.
    apply (hoare_bind _ _ _ (fun w w' => w = w0 /\ w' = w0)).
    { intros w ->. simpl. split; reflexivity. }
    intros w. intros w1 [-> ->]. rewrite Hnot.
    assert (Hchain : hoare I
      (let* cleaned_content := clean_content unwrap_anchors (post_content p) in
       let* translated_title :=
         translate_text provider (post_title p) (lit "uz") lang_code true 0 in
       let* translated_content :=
         translate_text provider cleaned_content (lit "uz") lang_code true 0 in
       let* translated_content :=
         match sitemap_urls with
         | [] => ret translated_content
         | _ :: _ =>
             let* target_url := Random.choice sitemap_urls in
             let* anchor_text := Random.choice (anchors cfg) in
             inject_backlink append_backlink translated_content target_url
               anchor_text lang_code
         end in
       let* meta_description :=
         lift (Meta.extract_meta_description get_text translated_content 160) in
       store_entry lang_code (py_str post_index)
         (<[lit "title" := translated_title]>
            (<[lit "filename" := generate_slug translated_title ++ lit ".html"]>
               (<[lit "slug" := generate_slug translated_title]>
                  (<[lit "meta_description" := meta_description]> ∅)))) >>
       ret (mkArticle translated_title (Some translated_content)
              (generate_slug translated_title ++ lit ".html")
              (Some (generate_slug translated_title)) (generate_slug translated_title)
              post_index (Some meta_description) false []))
      Q (frame lang_code (py_str post_index) w0)).
    { apply (hoare_bind _ _ _ (fun _ => I)).
      { eapply hoare_weaken; [apply (hoare_keeps _ I (keeps_clean _) HI)|auto..]. }
      intros cleaned. apply (hoare_bind _ _ _ (fun _ => I)).
      { eapply hoare_weaken;
          [apply (hoare_keeps _ I (keeps_translate_text provider _ _ _ _ _) HI)|auto..]. }
      intros ttitle. apply (hoare_bind _ _ _ (fun _ => I)).
      { eapply hoare_weaken;
          [apply (hoare_keeps _ I (keeps_translate_text provider _ _ _ _ _) HI)|auto..]. }
      intros tcontent. apply (hoare_bind _ _ _ (fun _ => I)).
      { eapply hoare_weaken; [apply (hoare_keeps _ I)|auto..]; [|exact HI].
        destruct sitemap_urls; [apply keeps_ret|].
        apply keeps_bind; [apply keeps_choice|]. intros u.
        apply keeps_bind; [apply keeps_choice|]. intros a. apply keeps_inject. }
      intros tcontent'. apply (hoare_bind _ _ _ (fun _ => I)).
      { eapply hoare_weaken; [apply (hoare_keeps _ I (keeps_lift _) HI)|auto..]. }
      intros meta. 
      set (d := <[lit "title" := ttitle]> _).
      apply (hoare_bind _ _ _ (fun _ w' =>
               frame lang_code (py_str post_index) w0 w'
               /\ entry_of (progress w') lang_code (py_str post_index) = Some d)).
      { intros w [Hp Ho]. unfold store_entry.
        destruct (progress w !! lang_code) as [entries|] eqn:He.
        - simpl. split.
          + split; [exact Ho|]. intros k Hk. unfold entry_of.
            cbn [progress set_progress].
            rewrite lookup_insert_eq, lookup_insert_ne by congruence.
            rewrite <- Hp, He. reflexivity.
          + unfold entry_of. cbn [progress set_progress].
            rewrite !lookup_insert_eq. reflexivity.
        - apply Hframe. split; assumption. }
      intros _. apply hoare_ret. intros w [Hf Hd]. unfold Q. simpl.
      split; [exact Hf|]. split; [reflexivity|]. split; [reflexivity|].
      exists d. split; [exact Hd|]. split.
      - apply worker_entry_consistent. reflexivity.
      - unfold d. rewrite lookup_insert_ne by (cbv; discriminate).
        apply lookup_insert_eq. }
    apply (Hchain w0). split; reflexivity. }
  assert (Hw : hoare (fun w => w = w0) (worker post_index p lang_code cfg sitemap_urls)
            (fun r w' => frame lang_code (py_str post_index) w0 w'
                         /\ match r with Some a => Q a w' | None => True end)
            (fun _ => False)).
  { unfold process_single_article.
    apply (hoare_try_except _ _ _ _ (frame lang_code (py_str post_index) w0)).
    - apply (hoare_bind _ _ _ Q); [exact Hbody|].
      intros a. apply hoare_ret. intros w HQ. split; [apply HQ|exact HQ].
    - intros e. apply hoare_ret. intros w Hf. split; [exact Hf|constructor]. }
  specialize (Hw w0 eq_refl).
  destruct (worker post_index p lang_code cfg sitemap_urls w0) as [[r|e] w'];
    [|contradiction].
  exists r, w'. split; [reflexivity|]. destruct Hw as [Hf Hr].
  split; [exact Hf|]. destruct r as [a|]; [|constructor].
  destruct Hr as (_ & H1 & H2 & H3). repeat split; assumption.
Qed.

End Worker.

(** *** Sorting by index *)

Lemma insert_by_index_perm a l : insert_by_index a l ≡ₚ a :: l.
Proof.
  induction l as [|b r IH]; [reflexivity|].
  simpl. destruct (index a <? index b); [reflexivity|].
  rewrite IH. apply perm_swap.
Qed.

Lemma sort_fold_perm l : forall acc,
  fold_left (fun acc a => insert_by_index a acc) l acc ≡ₚ l ++ acc.
Proof.
  induction l as [|a r IH]; intros acc; [reflexivity|].
  simpl. rewrite IH, insert_by_index_perm. symmetry. apply Permutation_middle.
Qed.

Lemma sort_by_index_perm l : sort_by_index l ≡ₚ l.
Proof. unfold sort_by_index. rewrite sort_fold_perm, app_nil_r. reflexivity. Qed.

Lemma insert_by_index_sorted a l :
  StronglySorted (fun x y => index x <= index y) l ->
  StronglySorted (fun x y => index x <= index y) (insert_by_index a l).
Proof.
  induction l as [|b r IH]; intros Hs.
  - repeat constructor.
  - simpl. destruct (Nat.ltb_spec (index a) (index b)) as [Hlt|Hge].
    + constructor; [exact Hs|]. inversion Hs; subst.
      constructor; [lia|]. eapply Forall_impl; [eassumption|]. simpl. lia.
    + inversion Hs; subst. constructor; [apply IH; assumption|].
      rewrite insert_by_index_perm. constructor; [exact Hge|assumption].
Qed.

Lemma sort_fold_sorted l : forall acc,
  StronglySorted (fun x y => index x <= index y) acc ->
  StronglySorted (fun x y => index x <= index y)
    (fold_left (fun acc a => insert_by_index a acc) l acc).
Proof.
  induction l as [|a r IH]; intros acc Hs; [exact Hs|].
  simpl. apply IH, insert_by_index_sorted, Hs.
Qed.

Lemma sort_by_index_sorted l :
  StronglySorted (fun x y => index x <= index y) (sort_by_index l).
Proof. apply sort_fold_sorted. constructor. Qed.

(** Sorted by index, with no index twice: strictly ascending. *)
Lemma sorted_distinct_ascending (l : list article) :
  StronglySorted (fun x y => index x <= index y) l ->
  NoDup (map index l) ->
  StronglySorted lt (map index l).
Proof.
  induction l as [|a r IH]; intros Hs Hnd; [constructor|].
  inversion Hs; subst. simpl in Hnd. apply NoDup_cons in Hnd as [Hnotin Hnd].
  simpl. constructor; [apply IH; assumption|].
  apply Forall_forall. intros i Hi.
  apply list_elem_of_fmap in Hi as (b & -> & Hb).
  assert (index a <= index b).
  { eapply Forall_forall in H2; [exact H2|]. exact Hb. }
  assert (index a <> index b).
  { intros E. apply Hnotin. rewrite E. apply list_elem_of_fmap. exists b. tauto. }
  lia.
Qed.

(** A strictly ascending list that fills [lo .. n-1] is that interval. *)
Lemma ascending_interval (l : list nat) : forall lo n,
  StronglySorted lt l ->
  Forall (fun i => lo <= i < n) l ->
  length l <= n - lo /\ (length l = n - lo -> l = seq lo (n - lo)).
Proof.
  induction l as [|x r IH]; intros lo n Hs Hb.
  - split; [simpl; lia|]. simpl. intros <-. reflexivity.
  - inversion Hs; subst. inversion Hb; subst.
    destruct (IH (S x) n) as [Hlen Heq]; [assumption| |].
    { apply Forall_forall. intros i Hi.
      pose proof (proj1 (Forall_forall _ _) H2 i Hi).
      pose proof (proj1 (Forall_forall _ _) H4 i Hi). simpl in *. lia. }
    simpl length. split; [lia|]. intros Hfull.
    assert (x = lo) by lia. subst x.
    rewrite Heq by lia.
    replace (n - lo) with (S (n - S lo)) by lia. reflexivity.
Qed.

(** *** The records found done and the tasks *)

Lemma done_article_spec lang_code post_index w :
  match done_article lang_code post_index w with
  | (Ok a, w') => w' = w /\ index a = post_index /\ skipped a = true
  | (Raise e, w') => w' = w /\ e = KeyError
  end.
Proof.
  unfold done_article, bind, get_world, subscript, ret, raise.
  destruct (progress w !! lang_code) as [entries|]; [|split; reflexivity].
  destruct (entries !! py_str post_index) as [d|]; [|split; reflexivity].
  destruct (d !! lit "title"); [|split; reflexivity].
  destruct (d !! lit "filename"); [|split; reflexivity].
  destruct (d !! lit "slug"); [|split; reflexivity].
  repeat split; reflexivity.
Qed.

Lemma prepare_tasks_spec lang_code posts enumerated w :
  match prepare_tasks lang_code posts enumerated w with
  | (Ok (found, tasks), w') =>
      w' = w
      /\ tasks = List.filter (pending lang_code posts w) enumerated
      /\ map index found
         = map fst (List.filter (fun t => negb (pending lang_code posts w t)) enumerated)
  | (Raise e, w') => w' = w /\ e = KeyError
  end.
Proof.
  induction enumerated as [|[idx p] rest IH].
  - simpl. repeat split; reflexivity.
  - cbn [prepare_tasks List.filter]. unfold bind at 1, get_world at 1.
    destruct (is_post_processed idx lang_code posts (progress w) (output_files w)) eqn:Hproc.
    + assert (Hp : pending lang_code posts w (idx, p) = false)
        by (unfold pending; simpl; rewrite Hproc; reflexivity).
      rewrite Hp. simpl negb. cbv iota. unfold bind at 1.
      pose proof (done_article_spec lang_code idx w) as Hd.
      destruct (done_article lang_code idx w) as [[a|e] w1].
      * destruct Hd as (-> & Hi & _). unfold bind at 1.
        destruct (prepare_tasks lang_code posts rest w) as [[[found tasks]|e] w2].
        -- destruct IH as (-> & -> & Hf). unfold ret. simpl.
           split; [reflexivity|]. split; [reflexivity|]. rewrite Hi, Hf. reflexivity.
        -- exact IH.
      * exact Hd.
    + assert (Hp : pending lang_code posts w (idx, p) = true)
        by (unfold pending; simpl; rewrite Hproc; reflexivity).
      rewrite Hp. simpl negb. cbv iota. unfold bind at 1.
      destruct (prepare_tasks lang_code posts rest w) as [[[found tasks]|e] w2].
      * destruct IH as (-> & -> & Hf). unfold ret. simpl.
        split; [reflexivity|]. split; [reflexivity|]. exact Hf.
      * exact IH.
Qed.

(** *** Collecting the workers' results *)

Section Pass.

Variable provider : nat -> str -> str -> str -> res str.
Variable unwrap_anchors : str -> res str.
Variable append_backlink : str -> str -> str -> str -> res str.
Variable get_text : str -> res str.

Variables (lang_code : str) (cfg : lang_config) (sitemap_urls : list str).

Local Abbreviation collect_results :=
  (collect provider unwrap_anchors append_backlink get_text lang_code cfg sitemap_urls).

(** Whatever the order of completion, the articles appended are those
    of the tasks whose worker did not fail, in that order. *)
Lemma collect_spec (completed : list (nat * post)) :
  forall (processed_posts : list article) (c : counters) (w : world),
  NoDup (map fst completed) ->
  (forall t, t ∈ completed ->
     is_post_processed (fst t) lang_code [] (progress w) (output_files w) = false) ->
  exists new c' w',
    collect_results completed processed_posts c w = (Ok (processed_posts ++ new, c'), w')
    /\ sublist (map index new) (map fst completed)
    /\ length new + error_count c' = length completed + error_count c.
Proof.
  induction completed as [|[idx p] rest IH]; intros processed_posts c w Hnd Hpend.
  - exists [], c, w. simpl. unfold ret. rewrite app_nil_r.
    split; [reflexivity|]. split; [constructor|reflexivity].
  - simpl in Hnd. apply NoDup_cons in Hnd as [Hnotin Hnd].
    destruct (worker_spec provider unwrap_anchors append_backlink get_text
                lang_code cfg sitemap_urls idx p w) as (r & w1 & Hrun & [Ho He] & Hr).
    { apply (Hpend (idx, p)). left. }
    assert (Hpend1 : forall e w2, w2 = w1 \/ w2 = log e w1 ->
              forall t, t ∈ rest ->
              is_post_processed (fst t) lang_code [] (progress w2) (output_files w2) = false).
    { intros e w2 Hw2 t Ht.
      assert (Hne : py_str (fst t) <> py_str idx).
      { intros E. apply py_str_inj in E. apply Hnotin. rewrite <- E.
        apply list_elem_of_fmap. exists t. tauto. }
      rewrite is_post_processed_entry.
      replace (progress w2) with (progress w1) by (destruct Hw2; subst; reflexivity).
      replace (output_files w2) with (output_files w1) by (destruct Hw2; subst; reflexivity).
      rewrite (He _ Hne), Ho.
      rewrite <- (is_post_processed_entry (fst t) lang_code [] (progress w) (output_files w)).
      apply Hpend. right. exact Ht. }
    cbn [collect]. unfold bind at 1. rewrite Hrun.
    destruct r as [a|].
    + destruct Hr as (Hi & Hsk & _). rewrite Hsk.
      set (c1 := mkCounters (S (processed_count c)) (skipped_count c) (error_count c)).
      unfold bind at 1, save_progress.
      destruct ((processed_count c1 + skipped_count c1) mod PROGRESS_SAVE_INTERVAL =? 0).
      * destruct (IH (processed_posts ++ [a]) c1 (log SaveProgress w1) Hnd
                    (Hpend1 SaveProgress _ (or_intror eq_refl)))
          as (new & c' & w' & Hc & Hsub & Hlen).
        exists (a :: new), c', w'. unfold emit. rewrite Hc, <- app_assoc.
        split; [reflexivity|]. simpl. rewrite Hi.
        split; [apply sublist_skip; exact Hsub|]. simpl in Hlen. lia.
      * destruct (IH (processed_posts ++ [a]) c1 w1 Hnd
                    (Hpend1 SaveProgress _ (or_introl eq_refl)))
          as (new & c' & w' & Hc & Hsub & Hlen).
        exists (a :: new), c', w'. unfold ret. rewrite Hc, <- app_assoc.
        split; [reflexivity|]. simpl. rewrite Hi.
        split; [apply sublist_skip; exact Hsub|]. simpl in Hlen. lia.
    + set (c1 := mkCounters (processed_count c) (skipped_count c) (S (error_count c))).
      unfold bind at 1, save_progress.
      destruct ((processed_count c1 + skipped_count c1) mod PROGRESS_SAVE_INTERVAL =? 0).
      * destruct (IH processed_posts c1 (log SaveProgress w1) Hnd
                    (Hpend1 SaveProgress _ (or_intror eq_refl)))
          as (new & c' & w' & Hc & Hsub & Hlen).
        exists new, c', w'. unfold emit. rewrite Hc.
        split; [reflexivity|]. simpl.
        split; [apply sublist_cons; exact Hsub|]. simpl in Hlen. lia.
      * destruct (IH processed_posts c1 w1 Hnd
                    (Hpend1 SaveProgress _ (or_introl eq_refl)))
          as (new & c' & w' & Hc & Hsub & Hlen).
        exists new, c', w'. unfold ret. rewrite Hc.
        split; [reflexivity|]. simpl.
        split; [apply sublist_cons; exact Hsub|]. simpl in Hlen. lia.
Qed.

Lemma map_fst_enumerate posts : map fst (enumerate posts) = seq 0 (length posts).
Proof.
  unfold enumerate. change (map fst) with (@fmap list _ _ _ (@fst nat post)).
  apply fst_zip. rewrite length_seq. reflexivity.
Qed.

Lemma filter_partition_length {A} (f : A -> bool) (l : list A) :
  length (List.filter f l) + length (List.filter (fun x => negb (f x)) l) = length l.
Proof.
  induction l as [|x r IH]; [reflexivity|].
  simpl. destruct (f x); simpl; lia.
Qed.

Lemma filter_sublist {A} (f : A -> bool) (l : list A) : sublist (List.filter f l) l.
Proof.
  induction l as [|x r IH]; [constructor|].
  simpl. destruct (f x); [apply sublist_skip|apply sublist_cons]; exact IH.
Qed.

Lemma sublist_map {A B} (f : A -> B) (l1 l2 : list A) :
  sublist l1 l2 -> sublist (map f l1) (map f l2).
Proof.
  induction 1; simpl; [constructor|apply sublist_skip|apply sublist_cons]; assumption.
Qed.

Lemma enumerate_filter_NoDup (f : nat * post -> bool) posts :
  NoDup (map fst (List.filter f (enumerate posts))).
Proof.
  assert (Hnd : NoDup (map fst (enumerate posts)))
    by (rewrite map_fst_enumerate; apply NoDup_seq).
  exact (sublist_NoDup _ _ Hnd (sublist_map fst _ _ (filter_sublist f _))).
Qed.

Local Abbreviation pass :=
  (language_pass provider unwrap_anchors append_backlink get_text).

(** Whatever the order in which the workers complete, the pass leaves
    the articles in strictly ascending order of their record index,
    all indices below the number of records, one article short for
    each error counted. The pass itself raises only [KeyError], on a
    ledger entry of a finished record that lacks a field. *)
Lemma pass_leaves_ascending_indices
  (completion : list (nat * post) -> list (nat * post))
  (posts : list post) (w0 : world) :
  (forall tasks, completion tasks ≡ₚ tasks) ->
  match pass completion lang_code cfg posts sitemap_urls w0 with
  | (Ok (processed_posts, c), _) =>
      StronglySorted lt (map index processed_posts)
      /\ Forall (fun i => i < length posts) (map index processed_posts)
      /\ length processed_posts + error_count c = length posts
      /\ (error_count c = 0 -> map index processed_posts = seq 0 (length posts))
  | (Raise e, _) => e = KeyError
  end.
Proof.
  intros Hperm. unfold language_pass.
  unfold bind at 1.
  destruct (ensure_language lang_code w0) as [[[]|e] wA] eqn:Hens.
  2:{ unfold ensure_language in Hens. destruct (progress w0 !! lang_code); discriminate. }
  unfold bind at 1.
  pose proof (prepare_tasks_spec lang_code posts (enumerate posts) wA) as Hprep.
  destruct (prepare_tasks lang_code posts (enumerate posts) wA) as [[[found tasks]|e] wB];
    [|apply Hprep].
  destruct Hprep as (-> & Htasks & Hfound).
  assert (Hnd_tasks : NoDup (map fst (completion tasks))).
  { rewrite (Hperm tasks), Htasks. apply enumerate_filter_NoDup. }
  destruct (collect_spec (completion tasks) found
              (mkCounters 0 (length found) 0) wA Hnd_tasks)
    as (new & c' & w' & Hcol & Hsub & Hlen).
  { intros t Ht. rewrite (Hperm tasks), Htasks in Ht.
    apply list_elem_of_In, filter_In in Ht as [_ Ht].
    unfold pending in Ht. apply negb_true_iff in Ht. exact Ht. }
  unfold bind at 1. rewrite Hcol. unfold bind, save_progress, emit, ret.
  cbn [fst snd].
  (* the indices before sorting *)
  assert (Hnew_in : forall i, i ∈ map index new -> i ∈ map fst tasks).
  { intros i Hi. rewrite <- (Hperm tasks).
    apply (sublist_subseteq _ _ Hsub), Hi. }
  assert (Hidx_nd : NoDup (map index (found ++ new))).
  { rewrite map_app. apply NoDup_app. split; [|split].
    - rewrite Hfound. apply enumerate_filter_NoDup.
    - intros i Hf Hn. apply Hnew_in in Hn. rewrite Hfound in Hf. rewrite Htasks in Hn.
      apply list_elem_of_fmap in Hf as ([i1 p1] & -> & H1).
      apply list_elem_of_fmap in Hn as ([i2 p2] & E & H2). simpl in E. subst i2.
      apply list_elem_of_In, filter_In in H1 as [_ H1].
      apply list_elem_of_In, filter_In in H2 as [_ H2].
      unfold pending in *. simpl in *. rewrite H2 in H1. discriminate.
    - exact (sublist_NoDup _ _ Hnd_tasks Hsub). }
  assert (Hidx_lt : Forall (fun i => i < length posts) (map index (found ++ new))).
  { apply Forall_forall. intros i Hi. rewrite map_app in Hi.
    assert (Hin : i ∈ map fst (enumerate posts)).
    { apply elem_of_app in Hi as [Hi|Hi].
      - rewrite Hfound in Hi.
        eapply sublist_subseteq; [|exact Hi].
        apply sublist_map, filter_sublist.
      - apply Hnew_in in Hi. rewrite Htasks in Hi.
        eapply sublist_subseteq; [|exact Hi].
        apply sublist_map, filter_sublist. }
    rewrite map_fst_enumerate in Hin. apply elem_of_seq in Hin. lia. }
  assert (Hlen_all : length (found ++ new) + error_count c' = length posts).
  { rewrite length_app.
    assert (length found
            = length (List.filter (fun t => negb (pending lang_code posts wA t))
                        (enumerate posts))).
    { rewrite <- (length_map index found), Hfound, length_map. reflexivity. }
    pose proof (filter_partition_length (pending lang_code posts wA) (enumerate posts)).
    assert (length (completion tasks) = length tasks)
      by (apply Permutation_length, Hperm).
    assert (length (enumerate posts) = length posts).
    { rewrite <- (length_map fst), map_fst_enumerate, length_seq. reflexivity. }
    simpl in Hlen. rewrite <- Htasks in *. lia. }
  pose proof (sort_by_index_perm (found ++ new)) as Hsp.
  assert (Hsorted : StronglySorted lt (map index (sort_by_index (found ++ new)))).
  { apply sorted_distinct_ascending; [apply sort_by_index_sorted|].
    rewrite Hsp. exact Hidx_nd. }
  assert (Hbound : Forall (fun i => i < length posts)
                     (map index (sort_by_index (found ++ new)))).
  { rewrite Hsp. exact Hidx_lt. }
  split; [exact Hsorted|]. split; [exact Hbound|].
  split; [rewrite (Permutation_length Hsp); exact Hlen_all|].
  intros Hzero.
  destruct (ascending_interval (map index (sort_by_index (found ++ new))) 0 (length posts))
    as [_ Heq]; [exact Hsorted| |].
  { eapply Forall_impl; [exact Hbound|]. simpl. intros; lia. }
  rewrite Nat.sub_0_r in Heq. apply Heq.
  rewrite length_map, (Permutation_length Hsp). lia.
Qed.

End Pass.

(** C7. A ledger entry whose output file is gone does not count as an
    item done: for an entry that names the file the way the worker
    writes it (the slug of the title), [is_post_processed] is [False]
    when that file is missing, and the main loop puts the record among
    the tasks to process. *)
Theorem missing_artifact_is_not_done (post_index : nat) (lang_code : str)
  (posts : list post) (w : world) (post_data : gmap str str) (name : str) :
  entry_of (progress w) lang_code (py_str post_index) = Some post_data ->
  entry_consistent post_data ->
  post_data !! lit "filename" = Some name ->
  path_join (path_join OUTPUT_DIR lang_code) name ∉ output_files w ->
  is_post_processed post_index lang_code posts (progress w) (output_files w) = false
  /\ forall p enumerated,
       (post_index, p) ∈ enumerated ->
       match prepare_tasks lang_code posts enumerated w with
       | (Ok (found, tasks), _) => (post_index, p) ∈ tasks
       | (Raise e, _) => e = KeyError
       end.
Proof.
  intros Hentry Hcons Hname Hmissing.
  assert (Hnot : is_post_processed post_index lang_code posts (progress w) (output_files w)
                 = false).
  { rewrite is_post_processed_entry, Hentry. apply bool_decide_eq_false.
    unfold artifact_path. pose proof (eq_trans (eq_sym Hname) Hcons) as E.
    injection E as ->. exact Hmissing. }
  split; [exact Hnot|]. intros p enumerated Hin.
  pose proof (prepare_tasks_spec lang_code posts enumerated w) as Hprep.
  destruct (prepare_tasks lang_code posts enumerated w) as [[[found tasks]|e] w'];
    [|apply Hprep].
  destruct Hprep as (_ & -> & _).
  apply list_elem_of_In, filter_In. split; [apply list_elem_of_In; exact Hin|].
  unfold pending. simpl. rewrite Hnot. reflexivity.
Qed.

Lemma missing_artifact_is_not_done_witness :
  entry_of (progress stale_world) (lit "en") (py_str 0) = Some hello_entry
  /\ entry_consistent hello_entry
  /\ hello_entry !! lit "filename" = Some (lit "hello-world.html")
  /\ (path_join (path_join OUTPUT_DIR (lit "en")) (lit "hello-world.html")
        ∉ output_files stale_world)
  /\ is_post_processed 0 (lit "en") two_posts (progress stale_world)
       (output_files stale_world) = false
  /\ forall p enumerated,
       (0, p) ∈ enumerated ->
       match prepare_tasks (lit "en") two_posts enumerated stale_world with
       | (Ok (found, tasks), _) => (0, p) ∈ tasks
       | (Raise e, _) => e = KeyError
       end.
Proof.
  assert (H1 : entry_of (progress stale_world) (lit "en") (py_str 0) = Some hello_entry)
    by (vm_compute; reflexivity).
  assert (H2 : entry_consistent hello_entry) by (vm_compute; reflexivity).
  assert (H3 : hello_entry !! lit "filename" = Some (lit "hello-world.html"))
    by (vm_compute; reflexivity).
  assert (H4 : path_join (path_join OUTPUT_DIR (lit "en")) (lit "hello-world.html")
                 ∉ output_files stale_world) by apply not_elem_of_empty.
  split; [exact H1|]. split; [exact H2|]. split; [exact H3|]. split; [exact H4|].
  exact (missing_artifact_is_not_done 0 (lit "en") two_posts stale_world hello_entry
           (lit "hello-world.html") H1 H2 H3 H4).
Defined.

(** ** Splitting and re-joining *)

Lemma split_dot_space_nonempty s : split_dot_space s <> [].
Proof.
  destruct s as [|c r]; [discriminate|]. simpl.
  destruct (Ascii.eqb c "."); destruct r as [|c' r'];
    try destruct (Ascii.eqb c' " "); try discriminate;
    destruct (split_dot_space _); discriminate.
Qed.

Lemma join_cons_char sep c p ps :
  join sep ((c :: p) :: ps) = c :: join sep (p :: ps).
Proof. destruct ps; reflexivity. Qed.

(** ['. '.join(s.split('. ')) == s] *)
Lemma join_split_dot_space s : join (lit ". ") (split_dot_space s) = s.
Proof.
  remember (length s) as n eqn:Hn. revert s Hn.
  induction n as [n IH] using lt_wf_ind. intros s Hn.
  destruct s as [|c r]; [reflexivity|].
  assert (Hr : join (lit ". ") (split_dot_space r) = r)
    by (apply (IH (length r)); [subst n; simpl; lia|reflexivity]).
  assert (Hcopy : join (lit ". ")
            (match split_dot_space r with p :: ps => (c :: p) :: ps | [] => [[c]] end)
          = c :: r).
  { pose proof (split_dot_space_nonempty r) as Hne.
    destruct (split_dot_space r) as [|p ps]; [congruence|].
    rewrite join_cons_char. f_equal. exact Hr. }
  simpl split_dot_space.
  destruct (Ascii.eqb c ".") eqn:Hc; [|destruct r; exact Hcopy].
  destruct r as [|c' r']; [exact Hcopy|].
  destruct (Ascii.eqb c' " ") eqn:Hc'; [|exact Hcopy].
  apply Ascii.eqb_eq in Hc, Hc'. subst c c'.
  pose proof (split_dot_space_nonempty r') as Hne.
  assert (Hr' : join (lit ". ") (split_dot_space r') = r')
    by (apply (IH (length r')); [subst n; simpl; lia|reflexivity]).
  destruct (split_dot_space r') as [|p ps]; [congruence|].
  change (join (lit ". ") ([] :: p :: ps))
    with ("."%char :: " "%char :: join (lit ". ") (p :: ps)).
  do 2 f_equal. exact Hr'.
Qed.

Lemma lskip_clean s : starts_clean s -> lskip isspace s = s.
Proof. destruct s as [|c r]; [reflexivity|]. simpl. intros ->. reflexivity. Qed.

Lemma strip_dotted x :
  starts_clean (x ++ lit ".") -> strip (x ++ lit ". ") = x ++ lit ".".
Proof.
  intros Hx. rewrite strip_rev.
  assert (Hx' : starts_clean (x ++ lit ". ")).
  { destruct x; [reflexivity|exact Hx]. }
  rewrite (lskip_clean _ Hx').
  change (lit ". ") with (lit "." ++ lit " "). rewrite app_assoc, rev_app_distr.
  change (rev (lit " ") ++ rev (x ++ lit ".")) with (" "%char :: rev (x ++ lit ".")).
  change (lskip isspace (" "%char :: rev (x ++ lit ".")))
    with (lskip isspace (rev (x ++ lit "."))).
  rewrite rev_app_distr.
  change (rev (lit ".") ++ rev x) with ("."%char :: rev x).
  change (lskip isspace ("."%char :: rev x)) with ("."%char :: rev x).
  change ("."%char :: rev x) with (rev (lit ".") ++ rev x).
  rewrite <- rev_app_distr, rev_involutive. reflexivity.
Qed.

Lemma open_ok_close chunks cur :
  open_ok cur ->
  flat ((if truthy cur then chunks ++ [strip cur] else chunks), []) = flat (chunks, cur).
Proof.
  unfold flat. simpl. intros [-> | (x & -> & Hx)].
  - simpl. reflexivity.
  - assert (Ht : truthy (x ++ lit ". ") = true) by (destruct x; reflexivity).
    rewrite Ht, map_app, concat_app, (strip_dotted x Hx). simpl.
    rewrite !app_nil_r, <- app_assoc. reflexivity.
Qed.

Lemma open_ok_extend cur s :
  open_ok cur -> starts_clean s -> open_ok (cur ++ s ++ lit ". ").
Proof.
  intros Hcur Hs. right. destruct Hcur as [-> | (x & -> & Hx)].
  - exists s. split; [reflexivity|]. destruct s; [reflexivity|exact Hs].
  - exists (x ++ lit ". " ++ s). split; [rewrite <- !app_assoc; reflexivity|].
    destruct x; [reflexivity|exact Hx].
Qed.

Lemma sentence_step_fits limit chunks cur s :
  length s <= limit ->
  sentence_step limit (chunks, cur) s
  = if limit <? length cur + length (s ++ lit ". ")
    then ((if truthy cur then chunks ++ [strip cur] else chunks), s ++ lit ". ")
    else (chunks, cur ++ s ++ lit ". ").
Proof.
  intros Hlen. unfold sentence_step.
  replace (limit <? length s) with false by (symmetry; apply Nat.ltb_ge; exact Hlen).
  reflexivity.
Qed.

Lemma sentence_step_flat limit st s :
  open_ok (snd st) -> length s <= limit -> starts_clean s ->
  flat (sentence_step limit st s) = flat st ++ s ++ lit ". "
  /\ open_ok (snd (sentence_step limit st s))
  /\ snd (sentence_step limit st s) <> [].
Proof.
  intros Hcur Hlen Hs. destruct st as [chunks cur]. cbn [snd] in Hcur.
  rewrite (sentence_step_fits limit chunks cur s Hlen).
  destruct (limit <? length cur + length (s ++ lit ". ")).
  - split; [|split].
    + pose proof (open_ok_close chunks cur Hcur) as Hc. unfold flat in *.
      cbn [fst snd] in *. rewrite app_nil_r in Hc. rewrite Hc. reflexivity.
    + cbn [snd]. apply (open_ok_extend [] s); [left; reflexivity|exact Hs].
    + cbn [snd]. destruct s; discriminate.
  - split; [|split].
    + unfold flat. cbn [fst snd]. rewrite <- app_assoc. reflexivity.
    + cbn [snd]. apply open_ok_extend; assumption.
    + cbn [snd]. destruct cur; [destruct s|]; discriminate.
Qed.

Lemma dotted_cons s ss : dotted (s :: ss) = s ++ lit ". " ++ dotted ss.
Proof. unfold dotted. simpl. rewrite <- app_assoc. reflexivity. Qed.

Lemma sentence_loop_flat limit sentences : forall st,
  open_ok (snd st) ->
  Forall (fun s => length s <= limit /\ starts_clean s) sentences ->
  flat (fold_left (sentence_step limit) sentences st) = flat st ++ dotted sentences
  /\ open_ok (snd (fold_left (sentence_step limit) sentences st))
  /\ (sentences <> [] -> snd (fold_left (sentence_step limit) sentences st) <> []).
Proof.
  induction sentences as [|s ss IH]; intros st Hst Hall.
  - simpl. unfold dotted. simpl. rewrite app_nil_r. repeat split; [exact Hst|congruence].
  - inversion Hall as [|? ? [Hlen Hs] Hss]; subst.
    destruct (sentence_step_flat limit st s Hst Hlen Hs) as (Hf & Ho & Hne).
    destruct (IH (sentence_step limit st s) Ho Hss) as (Hf' & Ho' & Hne').
    simpl fold_left. split; [|split].
    + rewrite Hf', Hf, dotted_cons, <- !app_assoc. reflexivity.
    + exact Ho'.
    + intros _. destruct ss as [|s' ss']; [exact Hne|]. apply Hne'. discriminate.
Qed.

Lemma join_cons_more sep a l :
  l <> [] -> join sep (a :: l) = a ++ sep ++ join sep l.
Proof. destruct l; [congruence|reflexivity]. Qed.

Lemma join_snoc sep l x :
  join sep (l ++ [x]) = concat (map (fun c => c ++ sep) l) ++ x.
Proof.
  induction l as [|a r IH]; [reflexivity|].
  change ((a :: r) ++ [x]) with (a :: (r ++ [x])).
  rewrite join_cons_more by (destruct r; discriminate).
  rewrite IH. simpl. rewrite <- !app_assoc. reflexivity.
Qed.

Lemma dotted_join sentences :
  sentences <> [] -> dotted sentences = join (lit ". ") sentences ++ lit ". ".
Proof.
  induction sentences as [|s ss IH]; [congruence|]. intros _.
  rewrite dotted_cons. destruct ss as [|s' ss'].
  - reflexivity.
  - rewrite IH by discriminate.
    rewrite (join_cons_more (lit ". ") s (s' :: ss')) by discriminate.
    rewrite <- !app_assoc. reflexivity.
Qed.

(** When every sentence fits in a chunk, the re-joined chunks are the
    text and one period. *)
Lemma rejoin_gains_period limit text :
  Forall (fun s => length s <= limit /\ starts_clean s) (split_dot_space text) ->
  join (lit " ") (split_chunks limit text) = text ++ lit ".".
Proof.
  intros Hall. unfold split_chunks.
  destruct (sentence_loop_flat limit (split_dot_space text) ([], [])
              (or_introl eq_refl) Hall) as (Hf & Ho & Hne).
  specialize (Hne (split_dot_space_nonempty text)).
  destruct (fold_left (sentence_step limit) (split_dot_space text) ([], []))
    as [chunks cur].
  simpl in Ho, Hne. unfold flat in Hf. simpl in Hf.
  destruct Ho as [-> | (x & -> & Hx)]; [congruence|].
  assert (Ht : truthy (x ++ lit ". ") = true) by (destruct x; reflexivity).
  rewrite Ht, (strip_dotted x Hx).
  assert (Hjoin : join (lit " ") (chunks ++ [x ++ lit "."]) = text ++ lit ".").
  { rewrite join_snoc.
    rewrite (dotted_join _ (split_dot_space_nonempty text)), join_split_dot_space in Hf.
    change (lit ". ") with (lit "." ++ lit " ") in Hf.
    rewrite !app_assoc in Hf. apply app_inv_tail in Hf.
    rewrite <- app_assoc in Hf. exact Hf. }
  assert (Hm : forall (l d : list str), l <> [] ->
                 match l with [] => d | _ :: _ => l end = l)
    by (intros [|? ?] ? ?; [congruence|reflexivity]).
  rewrite Hm; [exact Hjoin|destruct chunks; discriminate].
Qed.

Lemma isspace_dot : isspace "." = false.
Proof. reflexivity. Qed.

Lemma isspace_space : isspace " " = true.
Proof. reflexivity. Qed.

Lemma split_dot_space_clean s : forall b,
  tight_from b s = true ->
  match split_dot_space s with
  | p :: ps => (b = true -> starts_clean p) /\ Forall starts_clean ps
  | [] => False
  end.
Proof.
  remember (length s) as n eqn:Hn. revert s Hn.
  induction n as [n IH] using lt_wf_ind. intros s Hn b Ht.
  destruct s as [|c r]; [simpl; split; [intros _; exact I|constructor]|].
  assert (Hcopy : match (match split_dot_space r with
                         | p :: ps => (c :: p) :: ps
                         | [] => [[c]]
                         end) with
                  | p :: ps => (b = true -> starts_clean p) /\ Forall starts_clean ps
                  | [] => False
                  end).
  { simpl in Ht. destruct (isspace c) eqn:Hc.
    - apply andb_true_iff in Ht as [Hb Ht]. apply negb_true_iff in Hb. subst b.
      pose proof (IH (length r) ltac:(subst n; simpl; lia) r eq_refl true Ht) as Hr.
      destruct (split_dot_space r) as [|p ps]; [contradiction|].
      split; [discriminate|apply Hr].
    - pose proof (IH (length r) ltac:(subst n; simpl; lia) r eq_refl false Ht) as Hr.
      destruct (split_dot_space r) as [|p ps]; [contradiction|].
      split; [intros _; exact Hc|apply Hr]. }
  simpl split_dot_space.
  destruct (Ascii.eqb c ".") eqn:Hdot; [|destruct r; exact Hcopy].
  destruct r as [|c' r']; [exact Hcopy|].
  destruct (Ascii.eqb c' " ") eqn:Hsp; [|exact Hcopy].
  apply Ascii.eqb_eq in Hdot, Hsp. subst c c'.
  cbn [tight_from] in Ht. rewrite isspace_dot, isspace_space in Ht. cbn [negb andb] in Ht.
  pose proof (IH (length r') ltac:(subst n; simpl; lia) r' eq_refl true Ht) as Hr.
  destruct (split_dot_space r') as [|p ps]; [contradiction|].
  split; [intros _; exact I|]. constructor; [apply Hr; reflexivity|apply Hr].
Qed.

Lemma split_ws_solid s :
  Forall (fun w => w <> [] /\ forallb (fun c => negb (isspace c)) w = true) (split_ws s).
Proof.
  induction s as [|c r IH]; [constructor|].
  simpl. destruct (isspace c) eqn:Hc; [exact IH|].
  assert (Hone : [c] <> [] /\ forallb (fun c => negb (isspace c)) [c] = true)
    by (split; [discriminate|simpl; rewrite Hc; reflexivity]).
  destruct r as [|c' r']; [repeat constructor; apply Hone|].
  destruct (isspace c').
  - constructor; [exact Hone|exact IH].
  - destruct (split_ws (c' :: r')) as [|w ws].
    + repeat constructor; apply Hone.
    + inversion IH as [|? ? [_ Hw] Hws]; subst. constructor; [|assumption].
      split; [discriminate|]. simpl. rewrite Hc. exact Hw.
Qed.

Lemma tight_solid w rest b :
  w <> [] -> forallb (fun c => negb (isspace c)) w = true ->
  tight_from b (w ++ rest) = tight_from false rest.
Proof.
  revert b. induction w as [|c r IH]; intros b Hne Hall; [congruence|].
  simpl in Hall. apply andb_true_iff in Hall as [Hc Hr].
  apply negb_true_iff in Hc. simpl. rewrite Hc.
  destruct r as [|c' r']; [reflexivity|]. apply IH; [discriminate|exact Hr].
Qed.

Lemma join_words_tight words :
  Forall (fun w => w <> [] /\ forallb (fun c => negb (isspace c)) w = true) words ->
  tight_from true (join (lit " ") words) = true.
Proof.
  induction words as [|w ws IH]; intros Hall; [reflexivity|].
  inversion Hall as [|? ? [Hne Hw] Hws]; subst.
  destruct ws as [|w' ws'].
  - simpl. rewrite <- (app_nil_r w), (tight_solid w [] true Hne Hw). reflexivity.
  - change (tight_from true (w ++ " "%char :: join (lit " ") (w' :: ws')) = true).
    rewrite (tight_solid w _ true Hne Hw).
    cbn [tight_from]. rewrite isspace_space. cbn [negb andb]. apply IH, Hws.
Qed.

(** The sentences of a normalized text do not open with whitespace. *)
Lemma normalize_sentences_clean text :
  Forall starts_clean (split_dot_space (normalize text)).
Proof.
  pose proof (split_dot_space_clean (normalize text) true
                (join_words_tight _ (split_ws_solid text))) as H.
  destruct (split_dot_space (normalize text)) as [|p ps]; [contradiction|].
  constructor; [apply H; reflexivity|apply H].
Qed.

Section IdentityTransform.

Variable provider : nat -> str -> str -> str -> res str.
Variables source target : str.

Hypothesis never_translates : forall n s t x, declined x (provider n s t x).

Lemma translate_chunks_declined chunks : forall w,
  exists w', translate_chunks provider chunks source target false w = (Ok chunks, w').
Proof.
  induction chunks as [|c rest IH]; intros w; [exists w; reflexivity|].
  destruct (single_declined provider c source target false w
              (fun n => never_translates n source target c))
    as (v & w1 & Hrun & _ & [-> | [Hf _]] & _); [|discriminate].
  destruct (IH (log (Sleep TRANSLATION_DELAY) w1)) as (w2 & Hrest).
  exists w2. simpl. unfold bind at 1. rewrite Hrun.
  unfold bind at 1, sleep, emit. unfold bind. rewrite Hrest. reflexivity.
Qed.

(** With caching off and a provider that never translates, a long text
    comes back as its re-joined chunks. *)
Lemma translate_text_declined_long text w :
  (max_chunk_length <? length (normalize text)) = true ->
  fst (translate_text provider text source target false 0 w)
  = Ok (join (lit " ") (split_chunks max_chunk_length (normalize text))).
Proof.
  intros Hl.
  assert (Hb : blank text = false).
  { rewrite blank_ink. destruct (has_ink text) eqn:Hi; [reflexivity|].
    unfold normalize in Hl. rewrite (split_ws_no_ink text Hi) in Hl. discriminate. }
  unfold translate_text.
  change ((MAX_RECURSION_DEPTH <? 0)%Z) with false. cbv iota. rewrite Hb.
  unfold bind at 1, cache_probe, ret. rewrite Hl.
  destruct (translate_chunks_declined (split_chunks max_chunk_length (normalize text)) w)
    as (w' & Hrun).
  unfold bind at 1. rewrite Hrun. reflexivity.
Qed.

(** With caching off and a provider that never translates, a short
    text comes back whitespace-normalized: the degraded result of
    [translate_text] is [normalize text], the unit it sent. *)
Lemma translate_text_declined_short text w :
  blank text = false ->
  (max_chunk_length <? length (normalize text)) = false ->
  fst (translate_text provider text source target false 0 w) = Ok (normalize text).
Proof.
  intros Hb Hl. unfold translate_text.
  change ((MAX_RECURSION_DEPTH <? 0)%Z) with false. cbv iota. rewrite Hb.
  unfold bind at 1, cache_probe, ret. rewrite Hl.
  destruct (single_declined provider (normalize text) source target false w
              (fun n => never_translates n source target (normalize text)))
    as (v & w1 & Hrun & _ & [-> | [Hf _]] & _); [|discriminate].
  rewrite Hrun. reflexivity.
Qed.

(** C1. For a text longer than the chunk threshold whose sentences each
    fit in a chunk, re-joining the chunks does not give the normalized
    text back but the text with one more period: every sentence, the
    last one too, is closed with a period and a space. With a transform
    that hands each chunk back unchanged, [translate_text] returns that
    longer string. *)
Theorem rejoined_chunks_gain_a_period (text : str) (w : world) :
  (max_chunk_length <? length (normalize text)) = true ->
  forallb (fun s => length s <=? max_chunk_length)
    (split_dot_space (normalize text)) = true ->
  join (lit " ") (split_chunks max_chunk_length (normalize text))
  = normalize text ++ lit "."
  /\ fst (translate_text provider text source target false 0 w)
     = Ok (normalize text ++ lit ".")
  /\ normalize text ++ lit "." <> normalize text.
Proof.
  intros Hl Hfit.
  assert (Hjoin : join (lit " ") (split_chunks max_chunk_length (normalize text))
                  = normalize text ++ lit ".").
  { apply rejoin_gains_period.
    pose proof (normalize_sentences_clean text) as Hclean.
    rewrite forallb_forall in Hfit. apply Forall_forall. intros s Hs.
    split.
    - apply Nat.leb_le, Hfit, list_elem_of_In, Hs.
    - eapply Forall_forall in Hclean; [exact Hclean|exact Hs]. }
  split; [exact Hjoin|]. split.
  - rewrite (translate_text_declined_long text w Hl), Hjoin. reflexivity.
  - intros E. apply (f_equal (@length _)) in E. rewrite length_app in E.
    simpl in E. lia.
Qed.

End IdentityTransform.

Section FreshChunks.

Variable provider : nat -> str -> str -> str -> res str.
Variables source target : str.

(** Chunks that are new to the cache and pairwise different under the
    key cost one live call each. *)
Lemma translate_chunks_fresh chunks : forall w,
  translates provider ->
  NoDup (map (fun c => get_cache_key c target) chunks) ->
  Forall (fun c => blank c = false
                   /\ usable (cache_files w !! get_cache_key c target) = None) chunks ->
  exists rs w',
    translate_chunks provider chunks source target true w = (Ok rs, w')
    /\ length rs = length chunks
    /\ live_calls w' = live_calls w + length chunks
    /\ Forall (fun c => truthy c = true) rs.
Proof.
  induction chunks as [|c rest IH]; intros w Htr Hnd Hall.
  - exists [], w. simpl. unfold ret. repeat split; [lia|constructor].
  - simpl in Hnd. apply NoDup_cons in Hnd as [Hnotin Hnd].
    inversion Hall as [|? ? [Hb Hu] Hrest]; subst.
    destruct (single_fresh provider source target c w Htr Hb Hu)
      as (v & w1 & Hrun & Hv & Hc & Hl & _).
    destruct (IH (log (Sleep TRANSLATION_DELAY) w1) Htr Hnd)
      as (rs & w2 & Hrun2 & Hlen & Hl2 & Hrs).
    { apply Forall_forall. intros c' Hc'.
      pose proof (proj1 (Forall_forall _ _) Hrest c' Hc') as [Hb' Hu'].
      split; [exact Hb'|].
      change (cache_files (log (Sleep TRANSLATION_DELAY) w1)) with (cache_files w1).
      rewrite Hc, lookup_insert_ne; [exact Hu'|].
      intros E. apply Hnotin. rewrite E.
      apply list_elem_of_fmap. exists c'. split; [reflexivity|exact Hc']. }
    exists (v :: rs), w2. simpl. unfold bind at 1. rewrite Hrun.
    unfold bind at 1, sleep, emit. unfold bind. rewrite Hrun2. unfold ret.
    split; [reflexivity|]. split; [simpl; lia|].
    rewrite live_calls_log in Hl2. simpl in Hl2.
    split; [simpl; lia|]. constructor; assumption.
Qed.

(** A long text unknown to an empty cache: the first call sends every
    chunk, the second is one lookup. *)
Lemma translate_text_twice_long text w :
  translates provider ->
  blank text = false ->
  (max_chunk_length <? length (normalize text)) = true ->
  cache_files w = ∅ ->
  NoDup (map (fun c => get_cache_key c target)
           (split_chunks max_chunk_length (normalize text))) ->
  Forall (fun c => blank c = false)
    (split_chunks max_chunk_length (normalize text)) ->
  exists r w1,
    translate_text provider text source target true 0 w = (Ok r, w1)
    /\ translate_text provider text source target true 0 w1
       = (Ok r, log (CacheLookup (get_cache_key text target)) w1)
    /\ live_calls w1
       = live_calls w + length (split_chunks max_chunk_length (normalize text)).
Proof.
  intros Htr Hb Hl Hempty Hnd Hall.
  set (chunks := split_chunks max_chunk_length (normalize text)) in *.
  set (key := get_cache_key text target).
  assert (Hu : usable (cache_files w !! key) = None).
  { rewrite Hempty, lookup_empty. reflexivity. }
  destruct (translate_chunks_fresh chunks (log (CacheLookup key) w) Htr Hnd)
    as (rs & wB & Hrun & Hlen & Hlive & Hrs).
  { apply Forall_forall. intros c Hc.
    split; [exact (proj1 (Forall_forall _ _) Hall c Hc)|].
    change (cache_files (log (CacheLookup key) w)) with (cache_files w).
    rewrite Hempty, lookup_empty. reflexivity. }
  pose proof (translate_text_long provider source target text w rs wB Hb Hu Hl Hrun)
    as Hrun1.
  fold key in Hrun1.
  set (r := join (lit " ") rs) in *.
  set (w1 := log (CacheStore key r)
               (set_cache_files (<[key := r]> (cache_files wB)) wB)) in *.
  assert (Hne : rs <> []).
  { intros E. rewrite E in Hlen. simpl in Hlen.
    assert (Hc : chunks <> []).
    { apply split_chunks_nonempty; [unfold max_chunk_length; lia|].
      intros E'. rewrite E' in Hl. discriminate. }
    destruct chunks; [congruence|discriminate]. }
  assert (Hr : truthy r = true) by (apply join_truthy; assumption).
  assert (Hhit : usable (cache_files w1 !! key) = Some r).
  { change (cache_files w1) with (<[key := r]> (cache_files wB)).
    rewrite lookup_insert_eq. unfold usable. rewrite Hr. reflexivity. }
  exists r, w1. split; [exact Hrun1|]. split.
  - exact (translate_text_hit provider source target text w1 r Hb Hhit).
  - unfold w1. rewrite live_calls_log.
    change (live_calls (set_cache_files (<[key := r]> (cache_files wB)) wB))
      with (live_calls wB).
    rewrite Hlive, live_calls_log. simpl. lia.
Qed.

End FreshChunks.

(** The two chunks of the sample text. *)
Lemma two_sentences_chunks :
  blank two_sentences = false
  /\ (max_chunk_length <? length (normalize two_sentences)) = true
  /\ split_chunks max_chunk_length (normalize two_sentences)
     = [repeat "a"%char 2000 ++ lit "."; repeat "b"%char 2000 ++ lit "."]
  /\ blank (repeat "a"%char 2000 ++ lit ".") = false
  /\ blank (repeat "b"%char 2000 ++ lit ".") = false.
Proof. vm_compute. repeat split; reflexivity. Qed.

Lemma two_sentences_keys :
  get_cache_key (repeat "a"%char 2000 ++ lit ".") (lit "en")
  <> get_cache_key (repeat "b"%char 2000 ++ lit ".") (lit "en").
Proof. vm_compute. discriminate. Qed.

(** C3, as first stated, fails on a long text: its two chunks are both
    sent to the provider, so the two calls of [translate_text] cost two
    live calls, not one. *)
Lemma two_chunks_cost_two_live_calls :
  let run1 := translate_text tagging two_sentences (lit "uz") (lit "en") true 0
                (quiet_world (fun _ => 0)) in
  let run2 := translate_text tagging two_sentences (lit "uz") (lit "en") true 0
                (snd run1) in
  fst run2 = fst run1
  /\ live_calls (snd run1) = 2
  /\ live_calls (snd run2) = 2
  /\ live_calls (snd run2) <> 1.
Proof.
  destruct two_sentences_chunks as (Hb & Hl & Hch & Hb1 & Hb2).
  destruct (translate_text_twice_long tagging (lit "uz") (lit "en") two_sentences
              (quiet_world (fun _ => 0)) tagging_translates Hb Hl eq_refl)
    as (r & w1 & Hrun1 & Hrun2 & Hlive).
  { rewrite Hch. cbn [map]. apply NoDup_cons. split; [|apply NoDup_singleton].
    rewrite list_elem_of_singleton. exact two_sentences_keys. }
  { rewrite Hch. constructor; [exact Hb1|]. constructor; [exact Hb2|]. constructor. }
  rewrite Hch in Hlive.
  change (live_calls (quiet_world (fun _ => 0)) + length [repeat "a"%char 2000 ++ lit ".";
            repeat "b"%char 2000 ++ lit "."]) with 2 in Hlive.
  cbv zeta. rewrite Hrun1. cbn [fst snd]. rewrite Hrun2. cbn [fst snd].
  rewrite live_calls_log. cbn [is_live]. rewrite Hlive.
  split; [reflexivity|]. split; [reflexivity|]. split; [reflexivity|]. discriminate.
Qed.

Lemma rejoined_chunks_gain_a_period_witness :
  (forall n s t x, declined x (echo n s t x))
  /\ (max_chunk_length <? length (normalize two_sentences)) = true
  /\ forallb (fun s => length s <=? max_chunk_length)
       (split_dot_space (normalize two_sentences)) = true
  /\ join (lit " ") (split_chunks max_chunk_length (normalize two_sentences))
     = normalize two_sentences ++ lit "."
  /\ fst (translate_text echo two_sentences (lit "uz") (lit "en") false 0
            (quiet_world (fun _ => 0)))
     = Ok (normalize two_sentences ++ lit ".")
  /\ normalize two_sentences ++ lit "." <> normalize two_sentences.
Proof.
  assert (H1 : forall n s t x, declined x (echo n s t x))
    by (intros n s t x; right; reflexivity).
  assert (H2 : (max_chunk_length <? length (normalize two_sentences)) = true)
    by (vm_compute; reflexivity).
  assert (H3 : forallb (fun s => length s <=? max_chunk_length)
                 (split_dot_space (normalize two_sentences)) = true)
    by (vm_compute; reflexivity).
  split; [exact H1|]. split; [exact H2|]. split; [exact H3|].
  exact (rejoined_chunks_gain_a_period echo (lit "uz") (lit "en") H1 two_sentences
           (quiet_world (fun _ => 0)) H2 H3).
Defined.

(** * Further properties *)

(** ** The alphabet of slugs *)

Lemma lower_char_idem c : lower_char (lower_char c) = lower_char c.
Proof.
  destruct c as [[] [] [] [] [] [] [] []]; vm_compute; reflexivity.
Qed.

Lemma word_not_sep c : is_word c = true -> cls_sep c = false.
Proof.
  destruct c as [[] [] [] [] [] [] [] []]; vm_compute; intros H;
    first [reflexivity | discriminate H].
Qed.

Lemma hyphen_eq c : is_hyphen c = true -> c = "-"%char.
Proof. unfold is_hyphen. apply Ascii.eqb_eq. Qed.

Lemma slug_char_sep c : slug_char c = true -> cls_sep c = is_hyphen c.
Proof.
  unfold slug_char. destruct (is_hyphen c) eqn:Hh.
  - intros _. unfold cls_sep. rewrite Hh. reflexivity.
  - rewrite orb_false_r. intros Hw. apply word_not_sep. exact Hw.
Qed.

(** What [collapse_runs] leaves of a filtered title. *)
Lemma collapse_runs_alphabet s :
  forallb (fun c => is_word c || isspace c || is_hyphen c) s = true ->
  forallb slug_char (collapse_runs s) = true.
Proof.
  induction s as [|c r IH]; [reflexivity|].
  intros H. cbn [forallb] in H. apply andb_true_iff in H as [Hc Hr].
  specialize (IH Hr). cbn [collapse_runs].
  destruct (cls_sep c) eqn:Hsep.
  - destruct r as [|c' r']; [reflexivity|].
    destruct (cls_sep c'); [exact IH|].
    cbn [forallb]. rewrite IH. reflexivity.
  - cbn [forallb]. rewrite IH, andb_true_r.
    unfold cls_sep in Hsep. apply orb_false_iff in Hsep as [Hh Hs].
    rewrite Hs, Hh, !orb_false_r in Hc. unfold slug_char. rewrite Hc. reflexivity.
Qed.

Lemma collapse_runs_head c r :
  cls_sep c = false -> collapse_runs (c :: r) = c :: collapse_runs r.
Proof. intros H. cbn [collapse_runs]. rewrite H. reflexivity. Qed.

Lemma sep_false_not_hyphen c : cls_sep c = false -> is_hyphen c = false.
Proof. unfold cls_sep. intros H. apply orb_false_iff in H. tauto. Qed.

Lemma single_hyphens_cons c c' r :
  single_hyphens (c :: c' :: r)
  = negb (is_hyphen c && is_hyphen c') && single_hyphens (c' :: r).
Proof. reflexivity. Qed.

Lemma collapse_runs_single s : single_hyphens (collapse_runs s) = true.
Proof.
  induction s as [|c r IH]; [reflexivity|].
  cbn [collapse_runs]. destruct (cls_sep c) eqn:Hsep.
  - destruct r as [|c' r']; [reflexivity|].
    destruct (cls_sep c') eqn:Hsep'; [exact IH|].
    rewrite (collapse_runs_head c' r' Hsep') in *.
    rewrite single_hyphens_cons, IH, (sep_false_not_hyphen c' Hsep'), andb_false_r.
    reflexivity.
  - destruct (collapse_runs r) as [|c' r'] eqn:E; [reflexivity|].
    rewrite single_hyphens_cons, IH, (sep_false_not_hyphen c Hsep). reflexivity.
Qed.

Lemma single_hyphens_firstn n : forall s,
  single_hyphens s = true -> single_hyphens (firstn n s) = true.
Proof.
  induction n as [|n IH]; intros [|c r] H; try reflexivity.
  destruct r as [|c' r']; [destruct n; reflexivity|].
  rewrite single_hyphens_cons in H. apply andb_true_iff in H as [Hcc Hr].
  specialize (IH (c' :: r') Hr). destruct n as [|n']; [reflexivity|].
  change (firstn (S (S n')) (c :: c' :: r')) with (c :: c' :: firstn n' r').
  change (firstn (S n') (c' :: r')) with (c' :: firstn n' r') in IH.
  rewrite single_hyphens_cons, Hcc, IH. reflexivity.
Qed.

Lemma forallb_firstn {A} (f : A -> bool) n : forall l,
  forallb f l = true -> forallb f (firstn n l) = true.
Proof.
  induction n as [|n IH]; intros [|a l] H; try reflexivity.
  cbn [forallb firstn] in *. apply andb_true_iff in H as [Ha Hl].
  rewrite Ha, (IH l Hl). reflexivity.
Qed.

Lemma forallb_filter_self {A} (f : A -> bool) l : forallb f (List.filter f l) = true.
Proof.
  induction l as [|a l IH]; [reflexivity|].
  cbn [List.filter]. destruct (f a) eqn:Ha; [|exact IH].
  cbn [forallb]. rewrite Ha, IH. reflexivity.
Qed.

Lemma generate_slug_unfold title :
  generate_slug title
  = firstn 100 (collapse_runs
      (List.filter (fun c => is_word c || isspace c || is_hyphen c) (lower title))).
Proof.
  unfold generate_slug. rewrite re_sub_Many_collapse, re_sub_One_filter.
  do 2 f_equal. apply filter_ext. intros c. unfold cls_strip. apply negb_involutive.
Qed.

Lemma generate_slug_chars title : forallb slug_char (generate_slug title) = true.
Proof.
  rewrite generate_slug_unfold. apply forallb_firstn, collapse_runs_alphabet.
  apply forallb_filter_self.
Qed.

Lemma generate_slug_single title : single_hyphens (generate_slug title) = true.
Proof.
  rewrite generate_slug_unfold. apply single_hyphens_firstn, collapse_runs_single.
Qed.

Lemma slug_char_plain c :
  slug_char c = true ->
  isspace c = false /\ c <> "."%char /\ c <> "/"%char.
Proof.
  destruct c as [[] [] [] [] [] [] [] []]; vm_compute; intros H;
    first [discriminate H | (split; [reflexivity|]; split; discriminate)].
Qed.

(** X1. A slug holds word characters and hyphens only: no whitespace,
    no dot and no slash, so that it is a single path segment without an
    extension; and its hyphens stand alone. *)
Theorem slug_alphabet (title : str) :
  forallb slug_char (generate_slug title) = true
  /\ single_hyphens (generate_slug title) = true
  /\ Forall (fun c => isspace c = false /\ c <> "."%char /\ c <> "/"%char)
       (generate_slug title).
Proof.
  split; [apply generate_slug_chars|]. split; [apply generate_slug_single|].
  apply Forall_forall. intros c Hc. apply slug_char_plain.
  pose proof (generate_slug_chars title) as H.
  rewrite forallb_forall in H. apply H, list_elem_of_In, Hc.
Qed.

(** A string over the slug alphabet with single hyphens is its own
    collapsed form. *)
Lemma collapse_runs_fixed s :
  forallb slug_char s = true -> single_hyphens s = true -> collapse_runs s = s.
Proof.
  induction s as [|c r IH]; [reflexivity|].
  intros Hall Hs. cbn [forallb] in Hall. apply andb_true_iff in Hall as [Hc Hr].
  assert (Hr' : single_hyphens r = true).
  { cbn [single_hyphens] in Hs. destruct r as [|c' r']; [reflexivity|].
    apply andb_true_iff in Hs. tauto. }
  specialize (IH Hr Hr'). cbn [collapse_runs].
  rewrite (slug_char_sep c Hc). destruct (is_hyphen c) eqn:Hh.
  - apply hyphen_eq in Hh as ->. destruct r as [|c' r']; [reflexivity|].
    cbn [forallb] in Hr. apply andb_true_iff in Hr as [Hc' _].
    rewrite (slug_char_sep c' Hc').
    cbn [single_hyphens] in Hs. apply andb_true_iff in Hs as [Hcc _].
    change (is_hyphen "-") with true in Hcc. cbn [andb] in Hcc.
    apply negb_true_iff in Hcc. rewrite Hcc. rewrite IH. reflexivity.
  - rewrite IH. reflexivity.
Qed.

Lemma filter_all {A} (f : A -> bool) l : forallb f l = true -> List.filter f l = l.
Proof.
  induction l as [|a l IH]; [reflexivity|].
  cbn [forallb List.filter]. intros H. apply andb_true_iff in H as [Ha Hl].
  rewrite Ha, (IH Hl). reflexivity.
Qed.

Lemma forallb_impl {A} (f g : A -> bool) l :
  (forall a, f a = true -> g a = true) -> forallb f l = true -> forallb g l = true.
Proof.
  intros Hfg. induction l as [|a l IH]; [reflexivity|].
  cbn [forallb]. intros H. apply andb_true_iff in H as [Ha Hl].
  rewrite (Hfg a Ha), (IH Hl). reflexivity.
Qed.

Lemma collapse_runs_lowered s :
  Forall (fun c => lower_char c = c) s ->
  Forall (fun c => lower_char c = c) (collapse_runs s).
Proof.
  induction s as [|c r IH]; intros H; [constructor|].
  inversion H as [|? ? Hc Hr]; subst. specialize (IH Hr).
  cbn [collapse_runs]. destruct (cls_sep c).
  - destruct r as [|c' r']; [repeat constructor|].
    destruct (cls_sep c'); [exact IH|]. constructor; [reflexivity|exact IH].
  - constructor; assumption.
Qed.

Lemma generate_slug_lowered title : lower (generate_slug title) = generate_slug title.
Proof.
  assert (H : Forall (fun c => lower_char c = c) (generate_slug title)).
  { rewrite generate_slug_unfold. apply Forall_take, collapse_runs_lowered.
    apply Forall_forall. intros c Hc. apply list_elem_of_In, filter_In in Hc as [Hc _].
    unfold lower in Hc. apply in_map_iff in Hc as (c0 & <- & _).
    apply lower_char_idem. }
  unfold lower. induction H as [|c r Hc _ IH]; [reflexivity|].
  cbn [map]. rewrite Hc. f_equal. exact IH.
Qed.

(** X2. [generate_slug] is idempotent: the slug of a slug is the slug
    itself. *)
Theorem generate_slug_idempotent (title : str) :
  generate_slug (generate_slug title) = generate_slug title.
Proof.
  rewrite (generate_slug_unfold (generate_slug title)).
  rewrite generate_slug_lowered.
  rewrite filter_all.
  2:{ eapply forallb_impl; [|apply generate_slug_chars].
      intros c Hc. unfold slug_char in Hc.
      destruct (is_word c); [reflexivity|]. cbn [orb] in *. rewrite Hc.
      apply orb_true_r. }
  rewrite collapse_runs_fixed
    by (apply generate_slug_chars || apply generate_slug_single).
  apply firstn_all2. apply generate_slug_length.
Qed.

(** ** Clean URLs *)

Lemma replace_html_suffix s :
  Forall (fun c => c <> "."%char) s ->
  replace (lit ".html") [] (s ++ lit ".html") = s.
Proof.
  induction s as [|c r IH]; intros H.
  - cbn [app]. rewrite replace_equation.
    cbn [lit list_ascii_of_string strip_prefix Ascii.eqb Bool.eqb].
    rewrite replace_equation. reflexivity.
  - inversion H as [|? ? Hc Hr]; subst.
    rewrite replace_equation. cbn [app lit list_ascii_of_string strip_prefix].
    destruct (Ascii.eqb_spec "."%char c) as [E|_]; [congruence|].
    f_equal. apply IH. exact Hr.
Qed.

Lemma slug_no_dot title : Forall (fun c => c <> "."%char) (generate_slug title).
Proof.
  apply Forall_forall. intros c Hc.
  pose proof (generate_slug_chars title) as H. rewrite forallb_forall in H.
  apply list_elem_of_In, H, slug_char_plain in Hc. tauto.
Qed.

(** The fields of an article rebuilt from the ledger. *)
Lemma done_article_fields lang_code post_index w a :
  fst (done_article lang_code post_index w) = Ok a ->
  exists d t f s,
    entry_of (progress w) lang_code (py_str post_index) = Some d
    /\ d !! lit "title" = Some t /\ d !! lit "filename" = Some f
    /\ d !! lit "slug" = Some s
    /\ a = mkArticle t None f None s post_index None true [].
Proof.
  unfold entry_of, done_article, bind, get_world, subscript, ret, raise.
  destruct (progress w !! lang_code) as [entries|]; [|discriminate].
  destruct (entries !! py_str post_index) as [d|]; [|discriminate].
  destruct (d !! lit "title") as [t|] eqn:Ht; [|discriminate].
  destruct (d !! lit "filename") as [f|] eqn:Hf; [|discriminate].
  destruct (d !! lit "slug") as [s|] eqn:Hs; [|discriminate].
  cbn. intros [= <-]. exists d, t, f, s. repeat split; assumption.
Qed.

(** X3. An article rebuilt from a ledger entry that the worker wrote
    carries no ['url_path']; the name it is linked by, its file name
    with every [.html] removed, is the slug of its title, the
    ['url_path'] of a freshly processed article. *)
Theorem ledger_article_links_by_slug (lang_code : str) (post_index : nat)
  (w : world) (a : article) (d : gmap str str) :
  entry_of (progress w) lang_code (py_str post_index) = Some d ->
  entry_consistent d ->
  fst (done_article lang_code post_index w) = Ok a ->
  url_path a = None
  /\ rel_filename (related_of a) = generate_slug (title a).
Proof.
  intros Hentry Hcons Hrun.
  destruct (done_article_fields lang_code post_index w a Hrun)
    as (d' & t & f & s & Hentry' & Ht & Hf & Hs & ->).
  pose proof (eq_trans (eq_sym Hentry) Hentry') as E. injection E as <-.
  unfold entry_consistent in Hcons.
  pose proof (eq_trans (eq_sym Hf) Hcons) as E. injection E as ->.
  split; [reflexivity|]. unfold related_of.
  cbn [url_path filename title rel_filename].
  replace (default [] (d !! lit "title")) with t.
  - apply replace_html_suffix, slug_no_dot.
  - symmetry. exact (f_equal (default []) Ht).
Qed.

Lemma ledger_article_links_by_slug_witness :
  entry_of (progress stale_world) (lit "en") (py_str 0) = Some hello_entry
  /\ entry_consistent hello_entry
  /\ fst (done_article (lit "en") 0 stale_world) = Ok (mkArticle (lit "Hello World") None (lit "hello-world.html") None (lit "hello-world") 0 None true [])
  /\ url_path (mkArticle (lit "Hello World") None (lit "hello-world.html") None (lit "hello-world") 0 None true []) = None
  /\ rel_filename (related_of (mkArticle (lit "Hello World") None (lit "hello-world.html") None (lit "hello-world") 0 None true []))
     = generate_slug (title (mkArticle (lit "Hello World") None (lit "hello-world.html") None (lit "hello-world") 0 None true [])).
Proof.
  assert (H1 : entry_of (progress stale_world) (lit "en") (py_str 0) = Some hello_entry)
    by (vm_compute; reflexivity).
  assert (H2 : entry_consistent hello_entry) by (vm_compute; reflexivity).
  assert (H3 : fst (done_article (lit "en") 0 stale_world)
               = Ok (mkArticle (lit "Hello World") None (lit "hello-world.html") None
                       (lit "hello-world") 0 None true []))
    by (vm_compute; reflexivity).
  split; [exact H1|]. split; [exact H2|]. split; [exact H3|].
  exact (ledger_article_links_by_slug (lit "en") 0 stale_world _ hello_entry H1 H2 H3).
Defined.

(** ** The excerpt at the default budget *)

Lemma rfind_from_spec ch s : forall i best,
  (rfind_from ch s i best = best /\ Forall (fun c => c <> ch) s)
  \/ exists k, rfind_from ch s i best = (i + Z.of_nat k)%Z
               /\ s !! k = Some ch
               /\ forall j, k < j -> s !! j <> Some ch.
Proof.
  induction s as [|c r IH]; intros i best.
  - left. split; [reflexivity|constructor].
  - cbn [rfind_from].
    destruct (IH (i + 1)%Z (if Ascii.eqb c ch then i else best))
      as [[Hr Hnone]|(k & Hr & Hk & Hlast)].
    + destruct (Ascii.eqb_spec c ch) as [->|Hne].
      * right. exists 0. rewrite Hr. split; [lia|]. split; [reflexivity|].
        intros [|j] Hj; [lia|]. cbn. intros Hj'.
        apply list_elem_of_lookup_2 in Hj'.
        rewrite Forall_forall in Hnone. exact (Hnone _ Hj' eq_refl).
      * left. split; [exact Hr|]. constructor; assumption.
    + right. exists (S k). rewrite Hr. split; [lia|]. split; [exact Hk|].
      intros [|j] Hj; [lia|]. cbn. apply Hlast. lia.
Qed.

Lemma threshold_160 :
  SFmul 53 1024 (float_of_int 160) float_0_7 = S754_finite false 7881299347898368 (-46).
Proof. vm_compute. reflexivity. Qed.

Lemma int_gt_threshold_160 z :
  int_gt_float z (S754_finite false 7881299347898368 (-46)) = (112 <? z)%Z.
Proof.
  unfold int_gt_float. change (0 <=? -46)%Z with false. cbv iota.
  change (- -46)%Z with 46%Z.
  change (2 ^ 46)%Z with 70368744177664%Z.
  destruct (Z.ltb_spec 112 z); [apply Z.ltb_lt|apply Z.ltb_ge]; lia.
Qed.

(** X4. At the default budget of 160 characters, a text that is longer
    is cut right after the last period among its first 160 characters
    when that period stands beyond index 112, and otherwise is cut to
    160 characters and given an ellipsis; so the excerpt of a longer
    text has between 114 and 163 characters. *)
Theorem default_excerpt_cut (get_text : str -> res str) (content text : str) :
  truthy content = true ->
  get_text content = Ok text ->
  160 < length text ->
  exists d,
    extract_meta_description get_text content 160 = Ok d
    /\ 114 <= length d <= 163
    /\ ((exists k, 112 < k < 160 /\ text !! k = Some "."%char
                   /\ (forall j, k < j < 160 -> text !! j <> Some "."%char)
                   /\ d = firstn (S k) text)
        \/ ((forall j, 112 < j < 160 -> text !! j <> Some "."%char)
            /\ d = firstn 160 text ++ lit "...")).
Proof.
  intros Hc Hget Hlen. unfold extract_meta_description.
  rewrite Hc, Hget. cbn [negb].
  destruct (Z.ltb_spec 160 (Z.of_nat (length text))) as [_|]; [|lia].
  eexists. split; [reflexivity|].
  unfold cut_excerpt. rewrite threshold_160, int_gt_threshold_160.
  change (slice_to text 160) with (firstn 160 text).
  assert (Hlook : forall j, j < 160 -> firstn 160 text !! j = text !! j)
    by (intros j Hj; apply lookup_take_lt; exact Hj).
  unfold rfind.
  destruct (rfind_from_spec "." (firstn 160 text) 0 (-1))
    as [[-> Hnone]|(k & -> & Hk & Hlast)].
  - change (112 <? -1)%Z with false. cbv iota.
    rewrite length_app, length_firstn. cbn [length lit list_ascii_of_string].
    split; [lia|]. right. split; [|reflexivity].
    intros j Hj Hdot. rewrite <- Hlook in Hdot by lia.
    apply list_elem_of_lookup_2 in Hdot.
    rewrite Forall_forall in Hnone. exact (Hnone _ Hdot eq_refl).
  - assert (Hk160 : k < 160).
    { apply lookup_lt_Some in Hk. rewrite length_firstn in Hk. lia. }
    destruct (Z.ltb_spec 112 (0 + Z.of_nat k)) as [Hgt|Hle].
    + unfold slice_to. destruct (Z.leb_spec 0 (0 + Z.of_nat k + 1)); [|lia].
      replace (Z.to_nat (0 + Z.of_nat k + 1)) with (S k) by lia.
      rewrite firstn_firstn. replace (Nat.min (S k) 160) with (S k) by lia.
      rewrite length_firstn. split; [lia|]. left. exists k.
      split; [lia|]. split; [rewrite <- Hlook by lia; exact Hk|].
      split; [|reflexivity].
      intros j Hj. rewrite <- Hlook by lia. apply Hlast. lia.
    + rewrite length_app, length_firstn. cbn [length lit list_ascii_of_string].
      split; [lia|]. right. split; [|reflexivity].
      intros j Hj. rewrite <- Hlook by lia. apply Hlast. lia.
Qed.

Lemma default_excerpt_cut_witness :
  truthy (repeat "a"%char 120 ++ lit "." ++ repeat "b"%char 60) = true
  /\ (fun s : str => Ok s) (repeat "a"%char 120 ++ lit "." ++ repeat "b"%char 60)
     = Ok (repeat "a"%char 120 ++ lit "." ++ repeat "b"%char 60)
  /\ 160 < length (repeat "a"%char 120 ++ lit "." ++ repeat "b"%char 60)
  /\ exists d,
    extract_meta_description (fun s => Ok s)
      (repeat "a"%char 120 ++ lit "." ++ repeat "b"%char 60) 160 = Ok d
    /\ 114 <= length d <= 163
    /\ ((exists k, 112 < k < 160
           /\ (repeat "a"%char 120 ++ lit "." ++ repeat "b"%char 60) !! k = Some "."%char
           /\ (forall j, k < j < 160 ->
                 (repeat "a"%char 120 ++ lit "." ++ repeat "b"%char 60) !! j
                 <> Some "."%char)
           /\ d = firstn (S k) (repeat "a"%char 120 ++ lit "." ++ repeat "b"%char 60))
        \/ ((forall j, 112 < j < 160 ->
               (repeat "a"%char 120 ++ lit "." ++ repeat "b"%char 60) !! j
               <> Some "."%char)
            /\ d = firstn 160 (repeat "a"%char 120 ++ lit "." ++ repeat "b"%char 60)
                   ++ lit "...")).
Proof.
  split; [reflexivity|]. split; [reflexivity|].
  assert (H : 160 < length (repeat "a"%char 120 ++ lit "." ++ repeat "b"%char 60))
    by (vm_compute; lia).
  split; [exact H|].
  exact (default_excerpt_cut (fun s => Ok s)
           (repeat "a"%char 120 ++ lit "." ++ repeat "b"%char 60)
           (repeat "a"%char 120 ++ lit "." ++ repeat "b"%char 60)
           eq_refl eq_refl H).
Defined.

(** ** Cache keys *)

Lemma le_bytes_range n : forall x,
  Forall (fun b => (0 <= b < 256)%Z) (MD5.le_bytes n x).
Proof.
  induction n as [|n IH]; intros x; [constructor|].
  cbn [MD5.le_bytes]. constructor; [|apply IH].
  apply Z.mod_pos_bound. lia.
Qed.

Lemma digest_bytes msg :
  length (MD5.digest msg) = 16
  /\ Forall (fun b => (0 <= b < 256)%Z) (MD5.digest msg).
Proof.
  unfold MD5.digest.
  destruct (MD5.blocks _ _ _) as [[[a b] c] d].
  split; [reflexivity|].
  repeat (apply Forall_app; split); apply le_bytes_range.
Qed.

Lemma hex_digit_hex d : (0 <= d < 16)%Z -> is_hex (MD5.hex_digit d) = true.
Proof.
  intros H. unfold MD5.hex_digit.
  assert (Hn : Z.to_nat d < 16) by lia.
  destruct (Z.to_nat d) as [|[|[|[|[|[|[|[|[|[|[|[|[|[|[|[|n]]]]]]]]]]]]]]]];
    try reflexivity; lia.
Qed.

Lemma hexdigest_shape msg :
  length (MD5.hexdigest msg) = 32 /\ forallb is_hex (MD5.hexdigest msg) = true.
Proof.
  unfold MD5.hexdigest. destruct (digest_bytes msg) as [Hlen Hall].
  revert Hlen Hall. generalize (MD5.digest msg) as bs. intros bs Hlen Hall.
  assert (Hgen : length (flat_map (fun b => [MD5.hex_digit (b / 16); MD5.hex_digit (b mod 16)]) bs)
                 = 2 * length bs
                 /\ forallb is_hex
                      (flat_map (fun b => [MD5.hex_digit (b / 16); MD5.hex_digit (b mod 16)]) bs)
                    = true).
  { clear Hlen. induction Hall as [|b r Hb _ [IHl IHa]]; [split; reflexivity|].
    cbn [flat_map app length forallb]. split; [lia|].
    rewrite IHa, !hex_digit_hex; [reflexivity| |].
    - apply Z.mod_pos_bound. lia.
    - split; [apply Z.div_pos; lia|apply Z.div_lt_upper_bound; lia]. }
  destruct Hgen as [Hl Ha]. split; [lia|exact Ha].
Qed.

Lemma get_cache_key_unfold text target_lang :
  get_cache_key text target_lang
  = lit ".cache/trans_" ++ target_lang ++ lit "_"
    ++ MD5.hexdigest (MD5.encode_utf8 (text ++ lit "_" ++ target_lang)) ++ lit ".json".
Proof. reflexivity. Qed.

(** X5. A cache key is a file right inside the cache directory, named
    [trans_], the target language, an underscore, the 32 lowercase
    hexadecimal digits of the MD5 digest and [.json]. *)
Theorem cache_key_shape (text target_lang : str) :
  exists h,
    get_cache_key text target_lang
    = lit ".cache/trans_" ++ target_lang ++ lit "_" ++ h ++ lit ".json"
    /\ length h = 32
    /\ forallb is_hex h = true.
Proof.
  eexists. split; [apply get_cache_key_unfold|]. apply hexdigest_shape.
Qed.

(** X6. The target language is part of the key: entries of two
    different target languages never share a cache file, whatever the
    texts. *)
Theorem cache_keys_differ_across_languages (t1 t2 l1 l2 : str) :
  l1 <> l2 -> get_cache_key t1 l1 <> get_cache_key t2 l2.
Proof.
  intros Hne E. rewrite !get_cache_key_unfold in E.
  apply app_inv_head in E.
  destruct (hexdigest_shape (MD5.encode_utf8 (t1 ++ lit "_" ++ l1))) as [H1 _].
  destruct (hexdigest_shape (MD5.encode_utf8 (t2 ++ lit "_" ++ l2))) as [H2 _].
  apply app_inj_1 in E; [tauto|].
  apply (f_equal (@length _)) in E. rewrite !length_app in E.
  rewrite H1, H2 in E. lia.
Qed.

Lemma cache_keys_differ_across_languages_witness :
  lit "en" <> lit "ru"
  /\ get_cache_key (lit "salom") (lit "en") <> get_cache_key (lit "salom") (lit "ru").
Proof.
  assert (H : lit "en" <> lit "ru") by discriminate.
  split; [exact H|].
  exact (cache_keys_differ_across_languages (lit "salom") (lit "salom")
           (lit "en") (lit "ru") H).
Defined.

(** X7. What [save_to_cache] stores for a text is what [translate_text]
    returns for it afterwards, without a call to the provider and
    whatever the provider would answer; the other cache files are left
    as they were. *)
Theorem saved_translation_is_served
  (provider : nat -> str -> str -> str -> res str)
  (text source_lang target_lang translated : str) (w : world) :
  blank text = false ->
  truthy translated = true ->
  let w1 := snd (save_to_cache text target_lang translated w) in
  (forall path, path <> get_cache_key text target_lang ->
     cache_files w1 !! path = cache_files w !! path)
  /\ fst (translate_text provider text source_lang target_lang true 0 w1) = Ok translated
  /\ live_calls (snd (translate_text provider text source_lang target_lang true 0 w1))
     = live_calls w.
Proof.
  intros Hb Ht w1.
  assert (Hfiles : cache_files w1
                   = <[get_cache_key text target_lang := translated]> (cache_files w))
    by reflexivity.
  split.
  - intros path Hp. rewrite Hfiles. apply lookup_insert_ne. congruence.
  - assert (Hu : usable (cache_files w1 !! get_cache_key text target_lang)
                 = Some translated).
    { rewrite Hfiles, lookup_insert_eq. unfold usable. rewrite Ht. reflexivity. }
    rewrite (translate_text_hit provider source_lang target_lang text w1 translated Hb Hu).
    split; [reflexivity|]. cbn [snd]. rewrite live_calls_log.
    unfold w1, save_to_cache. cbn [snd]. rewrite live_calls_log.
    unfold live_calls. cbn. lia.
Qed.

Lemma saved_translation_is_served_witness :
  blank (lit "salom") = false
  /\ truthy (lit "hello") = true
  /\ let w1 := snd (save_to_cache (lit "salom") (lit "en") (lit "hello")
                      (quiet_world (fun _ => 0))) in
     (forall path, path <> get_cache_key (lit "salom") (lit "en") ->
        cache_files w1 !! path = cache_files (quiet_world (fun _ => 0)) !! path)
     /\ fst (translate_text unreachable (lit "salom") (lit "uz") (lit "en") true 0 w1)
        = Ok (lit "hello")
     /\ live_calls (snd (translate_text unreachable (lit "salom") (lit "uz") (lit "en")
                           true 0 w1))
        = live_calls (quiet_world (fun _ => 0)).
Proof.
  assert (H1 : blank (lit "salom") = false) by (vm_compute; reflexivity).
  split; [exact H1|]. split; [reflexivity|].
  exact (saved_translation_is_served unreachable (lit "salom") (lit "uz") (lit "en")
           (lit "hello") (quiet_world (fun _ => 0)) H1 eq_refl).
Defined.

(** ** The translator with any provider *)

Section AnyProvider.

Variable provider : nat -> str -> str -> str -> res str.

(** One attempt: one live call, no exception; the cache changes only
    by an accepted answer. *)
Lemma attempt_once_any text source target use_cache attempt w :
  exists r w',
    attempt_once provider text source target use_cache attempt w = (Ok r, w')
    /\ live_calls w' = S (live_calls w)
    /\ match r with
       | Some v =>
           (v = text /\ cache_files w' = cache_files w)
           \/ (truthy v = true /\ v <> text
               /\ cache_files w'
                  = if use_cache
                    then <[get_cache_key text target := v]> (cache_files w)
                    else cache_files w)
       | None => cache_files w' = cache_files w
       end.
Proof.
  unfold attempt_once, try_except, bind at 1, google_translate.
  destruct (provider (live_calls w) source target text) as [v|e].
  - destruct (truthy v && negb (str_eqb v text)) eqn:Hacc.
    + apply andb_true_iff in Hacc as [Hv Hne].
      assert (Hneq : v <> text).
      { intros E. apply str_eqb_eq in E. rewrite E in Hne. discriminate. }
      destruct use_cache.
      * unfold bind, save_to_cache, sleep, emit, ret. eexists _, _.
        split; [reflexivity|]. rewrite !live_calls_log.
        split; [unfold live_calls; cbn; rewrite List.filter_app, length_app; cbn; lia|].
        right. split; [exact Hv|]. split; [exact Hneq|reflexivity].
      * unfold bind, sleep, emit, ret. eexists _, _.
        split; [reflexivity|]. rewrite !live_calls_log.
        split; [cbn; lia|].
        right. split; [exact Hv|]. split; [exact Hneq|reflexivity].
    + unfold ret. eexists _, _. split; [reflexivity|].
      rewrite live_calls_log. split; [cbn; lia|reflexivity].
  - destruct (attempt <? MAX_RETRIES - 1).
    + unfold bind, sleep, emit, ret. eexists _, _. split; [reflexivity|].
      rewrite !live_calls_log. split; [cbn; lia|reflexivity].
    + unfold ret. eexists _, _. split; [reflexivity|].
      rewrite live_calls_log. split; [cbn; lia|]. left. split; reflexivity.
Qed.

Lemma retry_loop_any text source target use_cache attempts : forall w,
  exists v w',
    retry_loop provider text source target use_cache attempts w = (Ok v, w')
    /\ live_calls w <= live_calls w' <= live_calls w + length attempts
    /\ ((v = text /\ cache_files w' = cache_files w)
        \/ (truthy v = true /\ v <> text
            /\ cache_files w'
               = if use_cache
                 then <[get_cache_key text target := v]> (cache_files w)
                 else cache_files w)).
Proof.
  induction attempts as [|attempt rest IH]; intros w.
  - exists text, w. cbn. unfold ret. split; [reflexivity|]. split; [lia|].
    left. split; reflexivity.
  - cbn [retry_loop]. unfold bind.
    destruct (attempt_once_any text source target use_cache attempt w)
      as ([v|] & w1 & -> & Hl & Hc).
    + exists v, w1. unfold ret. split; [reflexivity|]. split; [cbn; lia|exact Hc].
    + destruct (IH w1) as (v & w2 & -> & Hl2 & Hc2).
      exists v, w2. split; [reflexivity|]. split; [cbn; lia|].
      rewrite Hc in Hc2. exact Hc2.
Qed.

Lemma single_any text source target use_cache w :
  exists v w',
    translate_text_single provider text source target use_cache w = (Ok v, w')
    /\ live_calls w <= live_calls w' <= live_calls w + MAX_RETRIES
    /\ (cache_files w' = cache_files w
        \/ (use_cache = true /\ truthy v = true /\ v <> text
            /\ cache_files w' = <[get_cache_key text target := v]> (cache_files w))).
Proof.
  unfold translate_text_single. destruct (blank text).
  - exists text, w. unfold ret. split; [reflexivity|]. split; [lia|]. left. reflexivity.
  - unfold bind at 1.
    assert (Hprobe : exists c w0,
               cache_probe text target use_cache w = (Ok c, w0)
               /\ live_calls w0 = live_calls w /\ cache_files w0 = cache_files w).
    { unfold cache_probe. destruct use_cache.
      - unfold bind, load_from_cache, ret. eexists _, _. split; [reflexivity|].
        rewrite live_calls_log. split; [cbn; lia|reflexivity].
      - unfold ret. eexists _, _. repeat split; reflexivity. }
    destruct Hprobe as (c & w0 & -> & Hl0 & Hc0).
    destruct c as [c|].
    + exists c, w0. unfold ret. split; [reflexivity|]. split; [lia|]. left. exact Hc0.
    + destruct (retry_loop_any text source target use_cache (seq 0 MAX_RETRIES) w0)
        as (v & w1 & -> & Hl1 & Hc1).
      exists v, w1. split; [reflexivity|]. rewrite length_seq in Hl1.
      split; [lia|]. rewrite Hc0 in Hc1.
      destruct Hc1 as [[_ Hsame]|(Hv & Hne & Hins)]; [left; exact Hsame|].
      destruct use_cache; [right; repeat split; assumption|left; exact Hins].
Qed.

Lemma chunks_any chunks source target use_cache : forall w,
  exists rs w',
    translate_chunks provider chunks source target use_cache w = (Ok rs, w')
    /\ length rs = length chunks
    /\ live_calls w <= live_calls w' <= live_calls w + MAX_RETRIES * length chunks.
Proof.
  induction chunks as [|chunk rest IH]; intros w.
  - exists [], w. cbn. unfold ret. split; [reflexivity|]. split; [reflexivity|lia].
  - destruct (single_any chunk source target use_cache w) as (v & w1 & Hrun & Hl & _).
    destruct (IH (log (Sleep TRANSLATION_DELAY) w1)) as (rs & w2 & Hrest & Hlen & Hl2).
    exists (v :: rs), w2. cbn [translate_chunks]. unfold bind at 1. rewrite Hrun.
    unfold bind at 1, sleep, emit. unfold bind. rewrite Hrest. unfold ret.
    split; [reflexivity|]. split; [cbn; lia|].
    rewrite live_calls_log in Hl2. cbn [is_live] in Hl2. cbn [length]. lia.
Qed.

(** X8. Whatever the provider does, [translate_text] ends without an
    exception and calls the provider at most [MAX_RETRIES] times for
    each unit it sends: the chunks of a long text, or the one
    normalized short text. *)
Theorem translate_text_never_raises (text source_lang target_lang : str)
  (use_cache : bool) (recursion_depth : Z) (w : world) :
  exists v w',
    translate_text provider text source_lang target_lang use_cache recursion_depth w
    = (Ok v, w')
    /\ live_calls w <= live_calls w'
       <= live_calls w + MAX_RETRIES * length (units text).
Proof.
  unfold translate_text, units.
  destruct (MAX_RECURSION_DEPTH <? recursion_depth)%Z;
    [exists text, w; unfold ret; split; [reflexivity|lia]|].
  destruct (blank text); [exists text, w; unfold ret; split; [reflexivity|lia]|].
  unfold bind at 1.
  assert (Hprobe : exists c w0,
             cache_probe text target_lang use_cache w = (Ok c, w0)
             /\ live_calls w0 = live_calls w).
  { unfold cache_probe. destruct use_cache.
    - unfold bind, load_from_cache, ret. eexists _, _. split; [reflexivity|].
      rewrite live_calls_log. cbn. lia.
    - unfold ret. eexists _, _. split; reflexivity. }
  destruct Hprobe as (c & w0 & -> & Hl0).
  destruct c as [c|]; [exists c, w0; unfold ret; split; [reflexivity|lia]|].
  destruct (max_chunk_length <? length (normalize text)).
  - destruct (chunks_any (split_chunks max_chunk_length (normalize text))
                source_lang target_lang use_cache w0) as (rs & w1 & Hrun & _ & Hl1).
    unfold bind at 1. rewrite Hrun. destruct use_cache.
    + unfold bind, save_to_cache, ret. eexists _, _. split; [reflexivity|].
      rewrite live_calls_log. cbn [is_live].
      change (live_calls (set_cache_files _ w1)) with (live_calls w1). lia.
    + unfold bind, ret. eexists _, _. split; [reflexivity|]. lia.
  - destruct (single_any (normalize text) source_lang target_lang use_cache w0)
      as (v & w1 & Hrun & Hl1 & _).
    exists v, w1. split; [exact Hrun|]. cbn [length]. lia.
Qed.

(** X9. [translate_text_single] writes to the cache only a translation
    it accepted: a non-empty string other than the text, under the key
    of the text; a declined answer or a failure leaves the cache as it
    was. *)
Theorem cache_holds_accepted_translations_only (text source_lang target_lang : str)
  (w : world) :
  exists v w',
    translate_text_single provider text source_lang target_lang true w = (Ok v, w')
    /\ (cache_files w' = cache_files w
        \/ (truthy v = true /\ v <> text
            /\ cache_files w' = <[get_cache_key text target_lang := v]> (cache_files w))).
Proof.
  destruct (single_any text source_lang target_lang true w) as (v & w' & Hrun & _ & Hc).
  exists v, w'. split; [exact Hrun|]. destruct Hc as [Hc|(_ & H)]; [left|right]; assumption.
Qed.

(** The two ways an attempt fails. *)
Lemma attempt_once_raised text source target use_cache attempt w e :
  provider (live_calls w) source target text = Raise e ->
  attempt_once provider text source target use_cache attempt w
  = if attempt <? MAX_RETRIES - 1
    then (Ok None, log (Sleep (RETRY_DELAY * (Z.of_nat attempt + 1)))
                     (log (Live source target text) w))
    else (Ok (Some text), log (Live source target text) w).
Proof.
  intros He. unfold attempt_once, try_except, bind at 1, google_translate.
  rewrite He. destruct (attempt <? MAX_RETRIES - 1); reflexivity.
Qed.

Lemma attempt_once_unchanged text source target use_cache attempt w v :
  provider (live_calls w) source target text = Ok v ->
  truthy v = false \/ v = text ->
  attempt_once provider text source target use_cache attempt w
  = (Ok None, log (Live source target text) w).
Proof.
  intros Hv Hd. unfold attempt_once, try_except, bind at 1, google_translate.
  rewrite Hv.
  assert (Hno : truthy v && negb (str_eqb v text) = false).
  { destruct Hd as [H| ->]; [rewrite H; reflexivity|].
    replace (str_eqb text text) with true by (symmetry; apply str_eqb_eq; reflexivity).
    apply andb_false_r. }
  rewrite Hno. reflexivity.
Qed.

Lemma single_miss text source target use_cache w :
  blank text = false ->
  (use_cache = true -> usable (cache_files w !! get_cache_key text target) = None) ->
  translate_text_single provider text source target use_cache w
  = retry_loop provider text source target use_cache (seq 0 MAX_RETRIES)
      (if use_cache then log (CacheLookup (get_cache_key text target)) w else w).
Proof.
  intros Hb Hu. unfold translate_text_single. rewrite Hb.
  unfold bind at 1, cache_probe. destruct use_cache.
  - unfold bind, load_from_cache, ret. rewrite (Hu eq_refl). reflexivity.
  - reflexivity.
Qed.

(** X10. When every call to the provider raises, a unit absent from the
    cache costs exactly [MAX_RETRIES] calls with waits of 3, 6, 9 and 12
    seconds between them and none after the last; the unit comes back
    untranslated and the cache is left as it was. *)
Theorem retries_back_off_linearly (text source_lang target_lang : str)
  (use_cache : bool) (w : world) :
  (forall n, exists e, provider n source_lang target_lang text = Raise e) ->
  blank text = false ->
  (use_cache = true ->
   usable (cache_files w !! get_cache_key text target_lang) = None) ->
  exists w',
    translate_text_single provider text source_lang target_lang use_cache w
    = (Ok text, w')
    /\ cache_files w' = cache_files w
    /\ trace w'
       = trace w
         ++ (if use_cache then [CacheLookup (get_cache_key text target_lang)] else [])
         ++ [Live source_lang target_lang text; Sleep 3;
             Live source_lang target_lang text; Sleep 6;
             Live source_lang target_lang text; Sleep 9;
             Live source_lang target_lang text; Sleep 12;
             Live source_lang target_lang text].
Proof.
  intros Hraise Hb Hu. rewrite (single_miss _ _ _ _ _ Hb Hu).
  set (w0 := if use_cache then log (CacheLookup (get_cache_key text target_lang)) w else w).
  assert (Hstep : forall attempt rest w1,
             retry_loop provider text source_lang target_lang use_cache (attempt :: rest) w1
             = if attempt <? MAX_RETRIES - 1
               then retry_loop provider text source_lang target_lang use_cache rest
                      (log (Sleep (RETRY_DELAY * (Z.of_nat attempt + 1)))
                         (log (Live source_lang target_lang text) w1))
               else (Ok text, log (Live source_lang target_lang text) w1)).
  { intros attempt rest w1. cbn [retry_loop]. unfold bind.
    destruct (Hraise (live_calls w1)) as [e He].
    rewrite (attempt_once_raised _ _ _ _ _ _ _ He).
    destruct (attempt <? MAX_RETRIES - 1); reflexivity. }
  change (seq 0 MAX_RETRIES) with [0; 1; 2; 3; 4].
  rewrite !Hstep. cbn [Nat.ltb Nat.leb MAX_RETRIES Nat.sub].
  eexists. split; [reflexivity|].
  subst w0. destruct use_cache; split; try reflexivity;
    cbn [trace log]; rewrite <- !app_assoc; reflexivity.
Qed.

(** X11. When the provider answers every call with an empty string or
    with the text itself, the [MAX_RETRIES] calls follow each other
    without any wait; the unit comes back untranslated and nothing is
    cached. *)
Theorem declined_answers_are_retried_at_once (text source_lang target_lang : str)
  (use_cache : bool) (w : world) :
  (forall n, exists v, provider n source_lang target_lang text = Ok v
                       /\ (truthy v = false \/ v = text)) ->
  blank text = false ->
  (use_cache = true ->
   usable (cache_files w !! get_cache_key text target_lang) = None) ->
  exists w',
    translate_text_single provider text source_lang target_lang use_cache w
    = (Ok text, w')
    /\ cache_files w' = cache_files w
    /\ trace w'
       = trace w
         ++ (if use_cache then [CacheLookup (get_cache_key text target_lang)] else [])
         ++ repeat (Live source_lang target_lang text) MAX_RETRIES.
Proof.
  intros Hsoft Hb Hu. rewrite (single_miss _ _ _ _ _ Hb Hu).
  set (w0 := if use_cache then log (CacheLookup (get_cache_key text target_lang)) w else w).
  assert (Hstep : forall attempt rest w1,
             retry_loop provider text source_lang target_lang use_cache (attempt :: rest) w1
             = retry_loop provider text source_lang target_lang use_cache rest
                 (log (Live source_lang target_lang text) w1)).
  { intros attempt rest w1. cbn [retry_loop]. unfold bind.
    destruct (Hsoft (live_calls w1)) as (v & Hv & Hd).
    rewrite (attempt_once_unchanged _ _ _ _ _ _ _ Hv Hd). reflexivity. }
  change (seq 0 MAX_RETRIES) with [0; 1; 2; 3; 4].
  rewrite !Hstep. cbn [retry_loop]. unfold ret.
  eexists. split; [reflexivity|].
  subst w0. destruct use_cache; split; try reflexivity;
    cbn [trace log repeat MAX_RETRIES]; rewrite <- !app_assoc; reflexivity.
Qed.

(** X12. A text without a visible character, the empty one included,
    comes back as it is: no cache file is read and the provider is not
    called. *)
Theorem blank_text_is_left_alone (text source_lang target_lang : str)
  (use_cache : bool) (recursion_depth : Z) (w : world) :
  has_ink text = false ->
  translate_text provider text source_lang target_lang use_cache recursion_depth w
  = (Ok text, w)
  /\ translate_text_single provider text source_lang target_lang use_cache w
     = (Ok text, w).
Proof.
  intros Hi. assert (Hb : blank text = true) by (rewrite blank_ink, Hi; reflexivity).
  unfold translate_text, translate_text_single. rewrite Hb.
  destruct (MAX_RECURSION_DEPTH <? recursion_depth)%Z; split; reflexivity.
Qed.

End AnyProvider.

Lemma retries_back_off_linearly_witness :
  (forall n, exists e, unreachable n (lit "uz") (lit "en") (lit "salom") = Raise e)
  /\ blank (lit "salom") = false
  /\ (true = true ->
      usable (cache_files (quiet_world (fun _ => 0))
              !! get_cache_key (lit "salom") (lit "en")) = None)
  /\ exists w',
    translate_text_single unreachable (lit "salom") (lit "uz") (lit "en") true
      (quiet_world (fun _ => 0))
    = (Ok (lit "salom"), w')
    /\ cache_files w' = cache_files (quiet_world (fun _ => 0))
    /\ trace w'
       = trace (quiet_world (fun _ => 0))
         ++ [CacheLookup (get_cache_key (lit "salom") (lit "en"))]
         ++ [Live (lit "uz") (lit "en") (lit "salom"); Sleep 3;
             Live (lit "uz") (lit "en") (lit "salom"); Sleep 6;
             Live (lit "uz") (lit "en") (lit "salom"); Sleep 9;
             Live (lit "uz") (lit "en") (lit "salom"); Sleep 12;
             Live (lit "uz") (lit "en") (lit "salom")].
Proof.
  assert (H1 : forall n, exists e,
             unreachable n (lit "uz") (lit "en") (lit "salom") = Raise e)
    by (intros n; eexists; reflexivity).
  assert (H2 : blank (lit "salom") = false) by (vm_compute; reflexivity).
  assert (H3 : true = true ->
               usable (cache_files (quiet_world (fun _ => 0))
                       !! get_cache_key (lit "salom") (lit "en")) = None)
    by (intros _; exact (f_equal usable (lookup_empty _))).
  split; [exact H1|]. split; [exact H2|]. split; [exact H3|].
  exact (retries_back_off_linearly unreachable (lit "salom") (lit "uz") (lit "en") true
           (quiet_world (fun _ => 0)) H1 H2 H3).
Defined.

Lemma declined_answers_are_retried_at_once_witness :
  (forall n, exists v, echo n (lit "uz") (lit "en") (lit "salom") = Ok v
                       /\ (truthy v = false \/ v = lit "salom"))
  /\ blank (lit "salom") = false
  /\ (false = true ->
      usable (cache_files (quiet_world (fun _ => 0))
              !! get_cache_key (lit "salom") (lit "en")) = None)
  /\ exists w',
    translate_text_single echo (lit "salom") (lit "uz") (lit "en") false
      (quiet_world (fun _ => 0))
    = (Ok (lit "salom"), w')
    /\ cache_files w' = cache_files (quiet_world (fun _ => 0))
    /\ trace w'
       = trace (quiet_world (fun _ => 0)) ++ []
         ++ repeat (Live (lit "uz") (lit "en") (lit "salom")) MAX_RETRIES.
Proof.
  assert (H1 : forall n, exists v, echo n (lit "uz") (lit "en") (lit "salom") = Ok v
                                   /\ (truthy v = false \/ v = lit "salom"))
    by (intros n; eexists; split; [reflexivity|right; reflexivity]).
  assert (H2 : blank (lit "salom") = false) by (vm_compute; reflexivity).
  assert (H3 : false = true ->
               usable (cache_files (quiet_world (fun _ => 0))
                       !! get_cache_key (lit "salom") (lit "en")) = None)
    by (intros H; discriminate H).
  split; [exact H1|]. split; [exact H2|]. split; [exact H3|].
  exact (declined_answers_are_retried_at_once echo (lit "salom") (lit "uz") (lit "en")
           false (quiet_world (fun _ => 0)) H1 H2 H3).
Defined.

Lemma blank_text_is_left_alone_witness :
  has_ink (lit "   ") = false
  /\ translate_text tagging (lit "   ") (lit "uz") (lit "en") true 0
       (quiet_world (fun _ => 0))
     = (Ok (lit "   "), quiet_world (fun _ => 0))
  /\ translate_text_single tagging (lit "   ") (lit "uz") (lit "en") true
       (quiet_world (fun _ => 0))
     = (Ok (lit "   "), quiet_world (fun _ => 0)).
Proof.
  assert (H : has_ink (lit "   ") = false) by (vm_compute; reflexivity).
  split; [exact H|].
  exact (blank_text_is_left_alone tagging (lit "   ") (lit "uz") (lit "en") true 0
           (quiet_world (fun _ => 0)) H).
Defined.

(** ** A long text while the provider is down *)

Section ProviderDown.

Variable provider : nat -> str -> str -> str -> res str.
Hypothesis never_translates : forall n s t x, declined x (provider n s t x).

Lemma single_declined_cold text source target w :
  cache_files w = ∅ ->
  exists w',
    translate_text_single provider text source target true w = (Ok text, w')
    /\ cache_files w' = ∅.
Proof.
  intros Hcold.
  destruct (single_declined provider text source target true w
              (fun n => never_translates n source target text))
    as (v & w' & Hrun & _ & Hv & _).
  destruct (single_any provider text source target true w)
    as (v' & w'' & Hrun' & _ & Hc).
  rewrite Hrun in Hrun'. injection Hrun' as <- <-.
  assert (E : v = text).
  { destruct Hv as [E|[_ Hu]]; [exact E|].
    rewrite Hcold, lookup_empty in Hu. discriminate. }
  subst v. exists w'. split; [exact Hrun|].
  destruct Hc as [Hc|(_ & _ & Hne & _)]; [congruence|congruence].
Qed.

Lemma translate_chunks_declined_cold chunks source target : forall w,
  cache_files w = ∅ ->
  exists w',
    translate_chunks provider chunks source target true w = (Ok chunks, w')
    /\ cache_files w' = ∅.
Proof.
  induction chunks as [|c rest IH]; intros w Hcold.
  - exists w. split; [reflexivity|exact Hcold].
  - destruct (single_declined_cold c source target w Hcold) as (w1 & Hrun & Hc1).
    destruct (IH (log (Sleep TRANSLATION_DELAY) w1) Hc1) as (w2 & Hrest & Hc2).
    exists w2. cbn [translate_chunks]. unfold bind at 1. rewrite Hrun.
    unfold bind at 1, sleep, emit. unfold bind. rewrite Hrest.
    split; [reflexivity|exact Hc2].
Qed.

(** X13. A long text that meets a provider which translates nothing is
    cached all the same: the re-joined, untranslated chunks are stored
    under the key of the text, and a later call returns them from the
    cache without asking any provider, a working one included. *)
Theorem untranslated_long_text_is_cached
  (other : nat -> str -> str -> str -> res str)
  (text source_lang target_lang : str) (w : world) :
  (max_chunk_length <? length (normalize text)) = true ->
  cache_files w = ∅ ->
  let r := join (lit " ") (split_chunks max_chunk_length (normalize text)) in
  exists w1,
    translate_text provider text source_lang target_lang true 0 w = (Ok r, w1)
    /\ cache_files w1 = {[ get_cache_key text target_lang := r ]}
    /\ translate_text other text source_lang target_lang true 0 w1
       = (Ok r, log (CacheLookup (get_cache_key text target_lang)) w1).
Proof.
  intros Hl Hcold r.
  assert (Hi : has_ink text = true).
  { destruct (has_ink text) eqn:Hi; [reflexivity|].
    unfold normalize in Hl. rewrite (split_ws_no_ink text Hi) in Hl. discriminate. }
  assert (Hb : blank text = false) by (rewrite blank_ink, Hi; reflexivity).
  assert (Hu : usable (cache_files w !! get_cache_key text target_lang) = None)
    by (rewrite Hcold, lookup_empty; reflexivity).
  destruct (translate_chunks_declined_cold
              (split_chunks max_chunk_length (normalize text)) source_lang target_lang
              (log (CacheLookup (get_cache_key text target_lang)) w) Hcold)
    as (wB & Hrun & HcB).
  pose proof (translate_text_long provider source_lang target_lang text w _ wB
                Hb Hu Hl Hrun) as Hrun1.
  fold r in Hrun1.
  eexists. split; [exact Hrun1|].
  assert (Hfiles : cache_files
                     (log (CacheStore (get_cache_key text target_lang) r)
                        (set_cache_files
                           (<[get_cache_key text target_lang := r]> (cache_files wB)) wB))
                   = {[ get_cache_key text target_lang := r ]}).
  { cbn [cache_files log set_cache_files]. rewrite HcB. apply insert_empty. }
  split; [exact Hfiles|].
  apply translate_text_hit; [exact Hb|].
  rewrite Hfiles, lookup_singleton_eq. unfold usable.
  replace (truthy r) with true; [reflexivity|]. symmetry.
  apply join_truthy; [|apply split_chunks_truthy].
  apply split_chunks_nonempty; [unfold max_chunk_length; lia|].
  intros E. rewrite E in Hl. discriminate.
Qed.

End ProviderDown.

Lemma untranslated_long_text_is_cached_witness :
  (forall n s t x, declined x (echo n s t x))
  /\ (max_chunk_length <? length (normalize two_sentences)) = true
  /\ cache_files (quiet_world (fun _ => 0)) = ∅
  /\ let r := join (lit " ") (split_chunks max_chunk_length (normalize two_sentences)) in
     exists w1,
       translate_text echo two_sentences (lit "uz") (lit "en") true 0
         (quiet_world (fun _ => 0)) = (Ok r, w1)
       /\ cache_files w1 = {[ get_cache_key two_sentences (lit "en") := r ]}
       /\ translate_text tagging two_sentences (lit "uz") (lit "en") true 0 w1
          = (Ok r, log (CacheLookup (get_cache_key two_sentences (lit "en"))) w1).
Proof.
  assert (H1 : forall n s t x, declined x (echo n s t x))
    by (intros n s t x; right; reflexivity).
  assert (H2 : (max_chunk_length <? length (normalize two_sentences)) = true)
    by (vm_compute; reflexivity).
  split; [exact H1|]. split; [exact H2|]. split; [reflexivity|].
  exact (untranslated_long_text_is_cached echo H1 tagging two_sentences
           (lit "uz") (lit "en") (quiet_world (fun _ => 0)) H2 eq_refl).
Defined.

(** ** The size of chunks *)

Lemma lskip_length cls s : length (lskip cls s) <= length s.
Proof.
  induction s as [|c r IH]; [reflexivity|].
  cbn [lskip]. destruct (cls c); cbn [length]; lia.
Qed.

Lemma strip_length s : length (strip s) <= length s.
Proof.
  rewrite strip_rev, length_rev.
  pose proof (lskip_length isspace (rev (lskip isspace s))) as H1.
  pose proof (lskip_length isspace s) as H2.
  rewrite length_rev in H1. lia.
Qed.

Lemma lskip_snoc_space x c :
  isspace c = true ->
  lskip isspace (x ++ [c]) = []
  \/ exists y, lskip isspace (x ++ [c]) = y ++ [c] /\ length y <= length x.
Proof.
  intros Hc. induction x as [|a x IH].
  - left. cbn [app lskip]. rewrite Hc. reflexivity.
  - cbn [app lskip]. destruct (isspace a).
    + destruct IH as [IH|(y & Hy & Hlen)]; [left; exact IH|].
      right. exists y. split; [exact Hy|cbn [length]; lia].
    + right. exists (a :: x). split; reflexivity.
Qed.

(** A chunk that ends with a space loses at least that space. *)
Lemma strip_snoc_space x c :
  isspace c = true -> length (strip (x ++ [c])) <= length x.
Proof.
  intros Hc. rewrite strip_rev, length_rev.
  destruct (lskip_snoc_space x c Hc) as [->|(y & -> & Hlen)]; [cbn; lia|].
  rewrite rev_app_distr. cbn [rev app lskip]. rewrite Hc.
  pose proof (lskip_length isspace (rev y)) as H. rewrite length_rev in H. lia.
Qed.

Section ChunkSize.

Variable limit : nat.

Local Abbreviation sized := (sized limit).

Lemma sized_close chunks cur :
  sized (chunks, cur) ->
  Forall (fun c => length c <= limit + 1)
    (if truthy cur then chunks ++ [strip cur] else chunks).
Proof.
  intros [Hc Hcur]. destruct (truthy cur); [|exact Hc].
  apply Forall_app. split; [exact Hc|]. constructor; [exact Hcur|constructor].
Qed.

Lemma word_step_sized st word :
  length word <= limit -> sized st -> sized (word_step limit st word).
Proof.
  destruct st as [chunks wc]. intros Hw Hs. unfold word_step.
  destruct (Nat.ltb_spec limit (length wc + length word + 1)) as [Hover|Hfit].
  - split; [apply sized_close; exact Hs|].
    cbn [snd]. change (word ++ lit " ") with (word ++ [" "%char]).
    eapply Nat.le_trans; [exact (strip_snoc_space word " " isspace_space)|lia].
  - destruct Hs as [Hc _]. split; [exact Hc|]. cbn [snd].
    eapply Nat.le_trans; [apply strip_length|].
    rewrite !length_app. cbn [length lit list_ascii_of_string]. lia.
Qed.

Lemma word_loop_sized words : forall st,
  Forall (fun word => length word <= limit) words ->
  sized st -> sized (fold_left (word_step limit) words st).
Proof.
  induction words as [|word rest IH]; intros st Hw Hs; [exact Hs|].
  inversion Hw; subst. cbn [fold_left]. apply IH; [assumption|].
  apply word_step_sized; assumption.
Qed.

Lemma sentence_step_sized st sentence :
  Forall (fun word => length word <= limit) (split_ws sentence) ->
  sized st -> sized (sentence_step limit st sentence).
Proof.
  destruct st as [chunks cur]. intros Hw Hs. unfold sentence_step.
  destruct (Nat.ltb_spec limit (length cur + length (sentence ++ lit ". ")))
    as [Hover|Hfit].
  - destruct (Nat.ltb_spec limit (length sentence)) as [Hlong|Hshort].
    + pose proof (word_loop_sized (split_ws sentence)
                    ((if truthy cur then chunks ++ [strip cur] else chunks), [])
                    Hw) as Hloop.
      destruct (fold_left _ _ _) as [chunks' wc].
      destruct Hloop as [Hc' Hwc]; [split; [apply sized_close; exact Hs|cbn; lia]|].
      split; [exact Hc'|]. cbn [snd fst] in *.
      destruct (truthy wc); [exact Hwc|]. destruct Hs as [_ Hcur]. exact Hcur.
    + split; [apply sized_close; exact Hs|]. cbn [snd].
      change (sentence ++ lit ". ") with (sentence ++ ["."%char; " "%char]).
      replace (sentence ++ ["."%char; " "%char])
        with ((sentence ++ ["."%char]) ++ [" "%char])
        by (rewrite <- app_assoc; reflexivity).
      eapply Nat.le_trans;
        [exact (strip_snoc_space (sentence ++ ["."%char]) " " isspace_space)|].
      rewrite length_app. cbn [length]. lia.
  - destruct Hs as [Hc _]. split; [exact Hc|]. cbn [snd].
    eapply Nat.le_trans; [apply strip_length|].
    rewrite length_app. lia.
Qed.

Lemma sentence_loop_sized sentences : forall st,
  Forall (fun sentence => Forall (fun word => length word <= limit) (split_ws sentence))
    sentences ->
  sized st -> sized (fold_left (sentence_step limit) sentences st).
Proof.
  induction sentences as [|s rest IH]; intros st Hw Hs; [exact Hs|].
  inversion Hw; subst. cbn [fold_left]. apply IH; [assumption|].
  apply sentence_step_sized; assumption.
Qed.

Lemma force_split_sized s :
  Forall (fun c => length c <= limit + 1) (force_split limit s).
Proof.
  unfold force_split. apply Forall_forall. intros c Hc.
  apply list_elem_of_In, in_map_iff in Hc as (i & <- & _).
  rewrite length_firstn. lia.
Qed.

(** X14. When no word of a sentence is longer than the limit, no chunk
    is longer than the limit plus one: a chunk is filled up to the
    limit, and a sentence of exactly [limit] characters is closed with
    its period. *)
Theorem chunks_exceed_the_limit_by_one_at_most (text_clean : str) :
  forallb (fun sentence =>
             forallb (fun word => length word <=? limit) (split_ws sentence))
    (split_dot_space text_clean) = true ->
  Forall (fun chunk => length chunk <= limit + 1) (split_chunks limit text_clean).
Proof.
  intros Hw.
  assert (Hw' : Forall (fun sentence =>
                          Forall (fun word => length word <= limit) (split_ws sentence))
                  (split_dot_space text_clean)).
  { apply Forall_forall. intros s Hs. apply Forall_forall. intros word Hword.
    rewrite forallb_forall in Hw. apply list_elem_of_In, Hw in Hs.
    rewrite forallb_forall in Hs. apply list_elem_of_In, Hs in Hword.
    apply Nat.leb_le. exact Hword. }
  unfold split_chunks.
  pose proof (sentence_loop_sized (split_dot_space text_clean) ([], []) Hw') as Hloop.
  destruct (fold_left _ _ _) as [chunks cur].
  assert (Hs : sized (chunks, cur)) by (apply Hloop; split; [constructor|cbn; lia]).
  set (closed := if truthy cur then chunks ++ [strip cur] else chunks).
  assert (Hclosed : Forall (fun c => length c <= limit + 1) closed)
    by (apply sized_close; exact Hs).
  clearbody closed. destruct closed; [apply force_split_sized|exact Hclosed].
Qed.

End ChunkSize.

Lemma chunks_exceed_the_limit_by_one_at_most_witness :
  forallb (fun sentence =>
             forallb (fun word => length word <=? 4) (split_ws sentence))
    (split_dot_space (lit "abcd. ef. gh")) = true
  /\ Forall (fun chunk => length chunk <= 4 + 1) (split_chunks 4 (lit "abcd. ef. gh")).
Proof.
  assert (H : forallb (fun sentence =>
                         forallb (fun word => length word <=? 4) (split_ws sentence))
                (split_dot_space (lit "abcd. ef. gh")) = true)
    by (vm_compute; reflexivity).
  split; [exact H|].
  exact (chunks_exceed_the_limit_by_one_at_most 4 (lit "abcd. ef. gh") H).
Defined.

(** The bound is met: a sentence of four characters at a limit of four
    makes a chunk of five. *)
Example chunk_of_limit_plus_one :
  split_chunks 4 (lit "abcd. ef. gh") = [lit "abcd."; lit "ef."; lit "gh."].
Proof. vm_compute. reflexivity. Qed.

(** X15. A non-empty text always gives at least one chunk, and no chunk
    is the empty string: every chunk is a unit that reaches the cache or
    the provider. *)
Theorem chunks_are_never_empty (limit : nat) (text_clean : str) :
  0 < limit ->
  text_clean <> [] ->
  split_chunks limit text_clean <> []
  /\ Forall (fun chunk => truthy chunk = true) (split_chunks limit text_clean).
Proof.
  intros Hl Hs. split; [apply split_chunks_nonempty; assumption|].
  apply split_chunks_truthy.
Qed.

Lemma chunks_are_never_empty_witness :
  0 < 4 /\ lit "abcd. ef. gh" <> []
  /\ split_chunks 4 (lit "abcd. ef. gh") <> []
  /\ Forall (fun chunk => truthy chunk = true) (split_chunks 4 (lit "abcd. ef. gh")).
Proof.
  assert (H1 : 0 < 4) by lia.
  assert (H2 : lit "abcd. ef. gh" <> []) by discriminate.
  split; [exact H1|]. split; [exact H2|].
  exact (chunks_are_never_empty 4 (lit "abcd. ef. gh") H1 H2).
Defined.

(** ** The cross-reference pass on six articles or more *)

Lemma same_but_rng_refl w : same_but_rng w w.
Proof. repeat split; reflexivity. Qed.

Lemma same_but_rng_trans w1 w2 w3 :
  same_but_rng w1 w2 -> same_but_rng w2 w3 -> same_but_rng w1 w3.
Proof. intros (?&?&?&?) (?&?&?&?). repeat split; congruence. Qed.

Lemma available_outside c n :
  ~ (0 <= c < n)%Z -> available c n = range n.
Proof.
  intros Hc. unfold available. apply filter_all.
  apply forallb_forall. intros i Hi.
  apply list_elem_of_In, elem_of_range in Hi.
  apply negb_true_iff, Z.eqb_neq. lia.
Qed.

Lemma length_available_ge c n : Z.to_nat n - 1 <= length (available c n).
Proof.
  destruct (decide (0 <= c < n)%Z) as [Hc|Hc].
  - rewrite length_available by exact Hc. lia.
  - rewrite available_outside by exact Hc. rewrite length_range. lia.
Qed.

(** X16. For an article of the set and a count that is not negative,
    [assign_internal_links] returns indices of the set other than the
    article's own, as many as asked for or, when fewer are left, all
    the [total_posts - 1] others; only the state of the generator
    changes. *)
Theorem links_leave_the_article_out (current_index total_posts num_links : Z)
  (w : world) :
  (0 <= num_links)%Z ->
  (0 <= current_index < total_posts)%Z ->
  exists l w',
    assign_internal_links current_index total_posts num_links w = (Ok l, w')
    /\ (forall i, i ∈ l -> (0 <= i < total_posts)%Z /\ i <> current_index)
    /\ Z.of_nat (length l) = Z.min num_links (total_posts - 1)
    /\ same_but_rng w w'.
Proof.
  intros Hk Hc.
  destruct (assign_internal_links_spec current_index total_posts num_links w Hk)
    as (l & w' & Hrun & _ & Hmem & Hlen & Hsame).
  exists l, w'. split; [exact Hrun|]. split; [exact Hmem|]. split; [|exact Hsame].
  rewrite length_available in Hlen by exact Hc. lia.
Qed.

Lemma links_leave_the_article_out_witness :
  (0 <= 5)%Z /\ (0 <= 2 < 8)%Z
  /\ exists l w',
    assign_internal_links 2 8 5 (quiet_world (fun _ => 0)) = (Ok l, w')
    /\ (forall i, i ∈ l -> (0 <= i < 8)%Z /\ i <> 2%Z)
    /\ Z.of_nat (length l) = Z.min 5 (8 - 1)
    /\ same_but_rng (quiet_world (fun _ => 0)) w'.
Proof.
  assert (H1 : (0 <= 5)%Z) by lia.
  assert (H2 : (0 <= 2 < 8)%Z) by lia.
  split; [exact H1|]. split; [exact H2|].
  exact (links_leave_the_article_out 2 8 5 (quiet_world (fun _ => 0)) H1 H2).
Defined.

(** The draw for any article of a set of six or more. *)
Lemma draw_related_six (processed_posts : list article) (a : article) (w : world) :
  6 <= length processed_posts ->
  exists l w', draw_related processed_posts a w = (Ok l, w')
    /\ NoDup l
    /\ (forall i, i ∈ l -> (0 <= i < Z.of_nat (length processed_posts))%Z
                         /\ i <> Z.of_nat (index a))
    /\ 5 <= length l <= 10
    /\ same_but_rng w w'.
Proof.
  intros HN. unfold draw_related, MIN_INTERNAL_LINKS, MAX_INTERNAL_LINKS.
  set (n := Z.of_nat (length processed_posts)).
  destruct (randint_spec 5 (Z.min 10 (n - 1)) w) as (k & w1 & Hk & Hrange & Hs1);
    [subst n; lia|].
  destruct (assign_internal_links_spec (Z.of_nat (index a)) n k w1)
    as (l & w2 & Hl & Hnd & Hmem & Hlen & Hs2); [lia|].
  exists l, w2. unfold bind. rewrite Hk, Hl.
  split; [reflexivity|]. split; [exact Hnd|]. split; [exact Hmem|].
  split; [|exact (same_but_rng_trans _ _ _ Hs1 Hs2)].
  pose proof (length_available_ge (Z.of_nat (index a)) n) as Hge.
  subst n. lia.
Qed.

Lemma lookup_all_spec (processed_posts : list article) : forall (l : list Z) (w : world),
  (forall i, i ∈ l -> (0 <= i < Z.of_nat (length processed_posts))%Z) ->
  exists rel,
    lookup_all processed_posts l w = (Ok rel, w)
    /\ Forall2 (fun i r => exists p, processed_posts !! Z.to_nat i = Some p
                                     /\ r = related_of p) l rel.
Proof.
  induction l as [|i rest IH]; intros w Hin.
  - exists []. split; [reflexivity|constructor].
  - assert (Hi : (0 <= i < Z.of_nat (length processed_posts))%Z)
      by (apply Hin; left).
    destruct (lookup_lt_is_Some_2 processed_posts (Z.to_nat i)) as [p Hp]; [lia|].
    destruct (IH w) as (rel & Hrun & Hall); [intros j Hj; apply Hin; right; exact Hj|].
    exists (related_of p :: rel). cbn [lookup_all]. rewrite Hp.
    unfold bind. rewrite Hrun. split; [reflexivity|].
    constructor; [exists p; split; [exact Hp|reflexivity]|exact Hall].
Qed.

Lemma link_loop_six (processed_posts : list article) :
  6 <= length processed_posts ->
  forall (todo : list article) (w : world),
  exists out w',
    link_loop processed_posts todo w = (Ok out, w')
    /\ same_but_rng w w'
    /\ Forall2 (fun a b =>
         b = set_related (related_articles b) a
         /\ exists positions : list Z,
              NoDup positions
              /\ 5 <= length positions <= 10
              /\ Forall (fun i => i <> Z.of_nat (index a)) positions
              /\ Forall2 (fun i r => exists p, processed_posts !! Z.to_nat i = Some p
                                               /\ r = related_of p)
                   positions (related_articles b))
       todo out.
Proof.
  intros HN. induction todo as [|a rest IH]; intros w.
  - exists [], w. split; [reflexivity|]. split; [apply same_but_rng_refl|constructor].
  - destruct (draw_related_six processed_posts a w HN)
      as (l & w1 & Hdraw & Hnd & Hmem & Hlen & Hs1).
    destruct (lookup_all_spec processed_posts l w1) as (rel & Hlook & Hrel);
      [intros i Hi; apply Hmem; exact Hi|].
    destruct (IH w1) as (out & w2 & Hrest & Hs2 & Hall).
    exists (set_related rel a :: out), w2. cbn [link_loop].
    unfold bind at 1. rewrite Hdraw. unfold bind at 1. rewrite Hlook.
    unfold bind. rewrite Hrest. unfold ret.
    split; [reflexivity|]. split; [exact (same_but_rng_trans _ _ _ Hs1 Hs2)|].
    constructor; [|exact Hall]. split; [reflexivity|].
    exists l. split; [exact Hnd|]. split; [exact Hlen|]. split; [|exact Hrel].
    apply Forall_forall. intros i Hi. apply Hmem. exact Hi.
Qed.

(** X17. On a set of six articles or more the cross-reference pass
    raises nothing and touches only the generator: every article comes
    back with the same fields and between five and ten cross-references,
    taken at distinct positions of the set, none of them the position
    that equals the article's record index, each naming the title and
    the clean file name of the article at its position. *)
Theorem cross_references_on_six_or_more (processed_posts : list article) (w : world) :
  6 <= length processed_posts ->
  exists out w',
    assign_links processed_posts w = (Ok out, w')
    /\ same_but_rng w w'
    /\ Forall2 (fun a b =>
         b = set_related (related_articles b) a
         /\ exists positions : list Z,
              NoDup positions
              /\ 5 <= length positions <= 10
              /\ Forall (fun i => i <> Z.of_nat (index a)) positions
              /\ Forall2 (fun i r => exists p, processed_posts !! Z.to_nat i = Some p
                                               /\ r = related_of p)
                   positions (related_articles b))
       processed_posts out.
Proof.
  intros HN. unfold assign_links. apply link_loop_six. exact HN.
Qed.

Lemma cross_references_on_six_or_more_witness :
  6 <= length (map stub_article [0; 1; 2; 3; 4; 5])
  /\ exists out w',
    assign_links (map stub_article [0; 1; 2; 3; 4; 5]) (quiet_world (fun _ => 0))
    = (Ok out, w')
    /\ same_but_rng (quiet_world (fun _ => 0)) w'
    /\ Forall2 (fun a b =>
         b = set_related (related_articles b) a
         /\ exists positions : list Z,
              NoDup positions
              /\ 5 <= length positions <= 10
              /\ Forall (fun i => i <> Z.of_nat (index a)) positions
              /\ Forall2 (fun i r =>
                            exists p, map stub_article [0; 1; 2; 3; 4; 5] !! Z.to_nat i
                                      = Some p
                                      /\ r = related_of p)
                   positions (related_articles b))
       (map stub_article [0; 1; 2; 3; 4; 5]) out.
Proof.
  assert (H : 6 <= length (map stub_article [0; 1; 2; 3; 4; 5])) by (cbn; lia).
  split; [exact H|].
  exact (cross_references_on_six_or_more (map stub_article [0; 1; 2; 3; 4; 5])
           (quiet_world (fun _ => 0)) H).
Defined.

(** ** The worker, in full *)

Section WorkerRuns.

Variable provider : nat -> str -> str -> str -> res str.
Variable unwrap_anchors : str -> res str.
Variable append_backlink : str -> str -> str -> str -> res str.
Variable get_text : str -> res str.

Variables (lang_code : str) (cfg : lang_config) (sitemap_urls : list str).

Local Abbreviation worker :=
  (process_single_article provider unwrap_anchors append_backlink get_text).

(** A worker on a record not found done: no exception; on failure the
    ledger and the output directory are as before; on success the
    article is built on the slug of its translated title and the ledger
    gains the entry of the record, with its four fields. *)
Lemma worker_run (post_index : nat) (p : post) (w0 : world) :
  is_post_processed post_index lang_code [p] (progress w0) (output_files w0) = false ->
  exists r w',
    worker post_index p lang_code cfg sitemap_urls w0 = (Ok r, w')
    /\ output_files w' = output_files w0
    /\ match r with
       | Some a =>
           index a = post_index /\ skipped a = false
           /\ filename a = generate_slug (title a) ++ lit ".html"
           /\ slug a = generate_slug (title a)
           /\ url_path a = Some (generate_slug (title a))
           /\ related_articles a = []
           /\ exists entries m,
                progress w0 !! lang_code = Some entries
                /\ meta_description a = Some m
                /\ progress w'
                   = <[lang_code :=
                         <[py_str post_index :=
                             <[lit "title" := title a]>
                               (<[lit "filename" := filename a]>
                                  (<[lit "slug" := slug a]>
                                     (<[lit "meta_description" := m]> ∅)))]> entries]>
                       (progress w0)
       | None => progress w' = progress w0
       end.
Proof.
  intros Hnot.
  set (I := fun w : world => progress w = progress w0 /\ output_files w = output_files w0).
  set (Q := fun (a : article) (w' : world) =>
              output_files w' = output_files w0
              /\ index a = post_index /\ skipped a = false
              /\ filename a = generate_slug (title a) ++ lit ".html"
              /\ slug a = generate_slug (title a)
              /\ url_path a = Some (generate_slug (title a))
              /\ related_articles a = []
              /\ exists entries m,
                   progress w0 !! lang_code = Some entries
                   /\ meta_description a = Some m
                   /\ progress w'
                      = <[lang_code :=
                            <[py_str post_index :=
                                <[lit "title" := title a]>
                                  (<[lit "filename" := filename a]>
                                     (<[lit "slug" := slug a]>
                                        (<[lit "meta_description" := m]> ∅)))]> entries]>
                          (progress w0)).
  assert (HI : forall w w', progress w' = progress w -> output_files w' = output_files w ->
                            I w -> I w').
  { intros w w' Hp Ho [H1 H2]. split; congruence. }
  assert (Hbody : hoare (fun w => w = w0)
            (process_body provider unwrap_anchors append_backlink get_text
               post_index p lang_code cfg sitemap_urls)
            Q I).
  { unfold process_body.
    apply (hoare_bind _ _ _ (fun w w' => w = w0 /\ w' = w0)).
    { intros w ->. cbn. split; reflexivity. }
    intros w. intros w1 [-> ->]. rewrite Hnot.
    assert (Hchain : hoare I
      (let* cleaned_content := clean_content unwrap_anchors (post_content p) in
       let* translated_title :=
         translate_text provider (post_title p) (lit "uz") lang_code true 0 in
       let* translated_content :=
         translate_text provider cleaned_content (lit "uz") lang_code true 0 in
       let* translated_content :=
         match sitemap_urls with
         | [] => ret translated_content
         | _ :: _ =>
             let* target_url := Random.choice sitemap_urls in
             let* anchor_text := Random.choice (anchors cfg) in
             inject_backlink append_backlink translated_content target_url
               anchor_text lang_code
         end in
       let* meta_description :=
         lift (Meta.extract_meta_description get_text translated_content 160) in
       store_entry lang_code (py_str post_index)
         (<[lit "title" := translated_title]>
            (<[lit "filename" := generate_slug translated_title ++ lit ".html"]>
               (<[lit "slug" := generate_slug translated_title]>
                  (<[lit "meta_description" := meta_description]> ∅)))) >>
       ret (mkArticle translated_title (Some translated_content)
              (generate_slug translated_title ++ lit ".html")
              (Some (generate_slug translated_title)) (generate_slug translated_title)
              post_index (Some meta_description) false []))
      Q I).
    { apply (hoare_bind _ _ _ (fun _ => I)).
      { apply (hoare_keeps _ I (keeps_clean _ _) HI). }
      intros cleaned. apply (hoare_bind _ _ _ (fun _ => I)).
      { apply (hoare_keeps _ I (keeps_translate_text provider _ _ _ _ _) HI). }
      intros ttitle. apply (hoare_bind _ _ _ (fun _ => I)).
      { apply (hoare_keeps _ I (keeps_translate_text provider _ _ _ _ _) HI). }
      intros tcontent. apply (hoare_bind _ _ _ (fun _ => I)).
      { apply (hoare_keeps _ I); [|exact HI].
        destruct sitemap_urls; [apply keeps_ret|].
        apply keeps_bind; [apply keeps_choice|]. intros u.
        apply keeps_bind; [apply keeps_choice|]. intros a. apply keeps_inject. }
      intros tcontent'. apply (hoare_bind _ _ _ (fun _ => I)).
      { apply (hoare_keeps _ I (keeps_lift _) HI). }
      intros meta.
      set (d := <[lit "title" := ttitle]> _).
      apply (hoare_bind _ _ _ (fun _ w' =>
               output_files w' = output_files w0
               /\ exists entries, progress w0 !! lang_code = Some entries
                    /\ progress w'
                       = <[lang_code := <[py_str post_index := d]> entries]>
                           (progress w0))).
      { intros w [Hp Ho]. unfold store_entry.
        destruct (progress w !! lang_code) as [entries|] eqn:He.
        - cbn [output_files progress set_progress]. split; [exact Ho|].
          exists entries. rewrite <- Hp. split; [exact He|reflexivity].
        - split; assumption. }
      intros _. apply hoare_ret. intros w [Ho (entries & He & Hp)]. unfold Q.
      cbn [index skipped filename slug url_path related_articles title meta_description].
      split; [exact Ho|]. repeat (split; [reflexivity|]).
      exists entries, meta. split; [exact He|]. split; [reflexivity|exact Hp]. }
    apply (Hchain w0). split; reflexivity. }
  assert (Hw : hoare (fun w => w = w0) (worker post_index p lang_code cfg sitemap_urls)
            (fun r w' => output_files w' = output_files w0
                         /\ match r with
                            | Some a => Q a w'
                            | None => progress w' = progress w0
                            end)
            (fun _ => False)).
  { unfold process_single_article.
    apply (hoare_try_except _ _ _ _ I).
    - apply (hoare_bind _ _ _ Q); [exact Hbody|].
      intros a. apply hoare_ret. intros w HQ. split; [apply HQ|exact HQ].
    - intros e. apply hoare_ret. intros w [Hp Ho]. split; assumption. }
  specialize (Hw w0 eq_refl).
  destruct (worker post_index p lang_code cfg sitemap_urls w0) as [[r|e] w'];
    [|contradiction].
  exists r, w'. split; [reflexivity|]. destruct Hw as [Ho Hr].
  split; [exact Ho|]. destruct r as [a|]; [|exact Hr].
  destruct Hr as (_ & H). exact H.
Qed.

(** X18. [process_single_article] never raises. On a record not found
    done it either fails, handing back [None] with the ledger and the
    output directory as they were, or succeeds with an article named by
    the slug of its translated title and the ledger entry of the record
    holding its title, file name, slug and description. *)
Theorem worker_failure_keeps_the_ledger (post_index : nat) (p : post) (w0 : world) :
  is_post_processed post_index lang_code [p] (progress w0) (output_files w0) = false ->
  exists r w',
    worker post_index p lang_code cfg sitemap_urls w0 = (Ok r, w')
    /\ output_files w' = output_files w0
    /\ match r with
       | Some a =>
           index a = post_index /\ skipped a = false
           /\ filename a = generate_slug (title a) ++ lit ".html"
           /\ url_path a = Some (generate_slug (title a))
           /\ exists d,
                entry_of (progress w') lang_code (py_str post_index) = Some d
                /\ d !! lit "title" = Some (title a)
                /\ d !! lit "filename" = Some (filename a)
                /\ d !! lit "slug" = Some (slug a)
                /\ d !! lit "meta_description" = meta_description a
       | None => progress w' = progress w0
       end.
Proof.
  intros Hnot.
  destruct (worker_run post_index p w0 Hnot) as (r & w' & Hrun & Ho & Hr).
  exists r, w'. split; [exact Hrun|]. split; [exact Ho|].
  destruct r as [a|]; [|exact Hr].
  destruct Hr as (Hi & Hs & Hf & _ & Hu & _ & entries & m & He & Hm & Hp).
  split; [exact Hi|]. split; [exact Hs|]. split; [exact Hf|]. split; [exact Hu|].
  eexists. split.
  - unfold entry_of. rewrite Hp, lookup_insert_eq, lookup_insert_eq. reflexivity.
  - rewrite lookup_insert_eq.
    rewrite lookup_insert_ne by (cbv; discriminate). rewrite lookup_insert_eq.
    rewrite lookup_insert_ne by (cbv; discriminate).
    rewrite lookup_insert_ne by (cbv; discriminate). rewrite lookup_insert_eq.
    rewrite lookup_insert_ne by (cbv; discriminate).
    rewrite lookup_insert_ne by (cbv; discriminate).
    rewrite lookup_insert_ne by (cbv; discriminate). rewrite lookup_insert_eq.
    rewrite Hm. repeat split; reflexivity.
Qed.

(** X19. On a record found done the worker reads the ledger and does
    nothing else: the world is left as it was, without a look at the
    cache or a call to the provider, and the result is the article
    rebuilt from the entry, marked skipped, or [None] when the entry
    lacks a field. *)
Theorem worker_skips_a_done_record (post_index : nat) (p : post) (w0 : world) :
  is_post_processed post_index lang_code [p] (progress w0) (output_files w0) = true ->
  exists r,
    worker post_index p lang_code cfg sitemap_urls w0 = (Ok r, w0)
    /\ match r with
       | Some a =>
           skipped a = true /\ index a = post_index /\ content a = None
           /\ exists d,
                entry_of (progress w0) lang_code (py_str post_index) = Some d
                /\ d !! lit "title" = Some (title a)
                /\ d !! lit "filename" = Some (filename a)
                /\ d !! lit "slug" = Some (slug a)
       | None =>
           exists d,
             entry_of (progress w0) lang_code (py_str post_index) = Some d
             /\ (d !! lit "title" = None \/ d !! lit "filename" = None
                 \/ d !! lit "slug" = None)
       end.
Proof.
  intros Hdone. unfold process_single_article, try_except, process_body.
  unfold bind at 1. unfold bind at 1, get_world at 1. rewrite Hdone.
  rewrite is_post_processed_entry in Hdone.
  unfold done_article, bind, get_world, subscript, ret, raise.
  unfold entry_of in *.
  destruct (progress w0 !! lang_code) as [entries|]; [|discriminate].
  destruct (entries !! py_str post_index) as [d|]; [|discriminate].
  destruct (d !! lit "title") as [t|] eqn:Ht.
  2:{ exists None. split; [reflexivity|]. exists d. split; [reflexivity|]. left.
      exact Ht. }
  destruct (d !! lit "filename") as [f|] eqn:Hf.
  2:{ exists None. split; [reflexivity|]. exists d. split; [reflexivity|]. right. left.
      exact Hf. }
  destruct (d !! lit "slug") as [s|] eqn:Hs.
  2:{ exists None. split; [reflexivity|]. exists d. split; [reflexivity|]. right. right.
      exact Hs. }
  eexists (Some _). split; [reflexivity|]. cbn.
  repeat (split; [reflexivity|]). exists d. repeat split; assumption.
Qed.

End WorkerRuns.

(** ** The pass, in full *)

Lemma is_post_processed_posts i lang_code posts posts' prog files :
  is_post_processed i lang_code posts prog files
  = is_post_processed i lang_code posts' prog files.
Proof. reflexivity. Qed.

Lemma entry_of_insert_same (prog : gmap str (gmap str (gmap str str)))
  (lang_code k : str) d entries :
  entry_of (<[lang_code := <[k := d]> entries]> prog) lang_code k = Some d.
Proof. unfold entry_of. rewrite !lookup_insert_eq. reflexivity. Qed.

Lemma entry_of_insert_other (prog : gmap str (gmap str (gmap str str)))
  (lang_code k k' : str) d entries :
  prog !! lang_code = Some entries -> k' <> k ->
  entry_of (<[lang_code := <[k := d]> entries]> prog) lang_code k'
  = entry_of prog lang_code k'.
Proof.
  intros He Hk. unfold entry_of. rewrite lookup_insert_eq, He.
  apply lookup_insert_ne. congruence.
Qed.

Section PassRuns.

Variable provider : nat -> str -> str -> str -> res str.
Variable unwrap_anchors : str -> res str.
Variable append_backlink : str -> str -> str -> str -> res str.
Variable get_text : str -> res str.

Variables (lang_code : str) (cfg : lang_config) (sitemap_urls : list str).

Local Abbreviation collect_results :=
  (collect provider unwrap_anchors append_backlink get_text lang_code cfg sitemap_urls).

Local Abbreviation pass :=
  (language_pass provider unwrap_anchors append_backlink get_text).

(** The worker of a pending record, as the collecting loop sees it. *)
Lemma worker_step (idx : nat) (p : post) (w : world) :
  done_at lang_code w idx = false ->
  exists r w1,
    process_single_article provider unwrap_anchors append_backlink get_text
      idx p lang_code cfg sitemap_urls w = (Ok r, w1)
    /\ output_files w1 = output_files w
    /\ (forall k, k <> py_str idx ->
          entry_of (progress w1) lang_code k = entry_of (progress w) lang_code k)
    /\ match r with
       | Some a => index a = idx /\ skipped a = false /\ recorded lang_code w1 a
       | None => True
       end.
Proof.
  intros Hnot.
  destruct (worker_run provider unwrap_anchors append_backlink get_text
              lang_code cfg sitemap_urls idx p w Hnot) as (r & w1 & Hrun & Ho & Hr).
  exists r, w1. split; [exact Hrun|]. split; [exact Ho|].
  destruct r as [a|].
  - destruct Hr as (Hi & Hs & Hf & _ & _ & _ & entries & m & He & _ & Hp).
    split.
    + intros k Hk. rewrite Hp. apply entry_of_insert_other; assumption.
    + split; [exact Hi|]. split; [exact Hs|]. split; [exact Hf|].
      eexists. rewrite Hi, Hp. split; [apply entry_of_insert_same|].
      apply lookup_insert_eq.
  - split; [|constructor]. intros k _. rewrite Hr. reflexivity.
Qed.

Lemma recorded_frame (w w' : world) (a : article) :
  entry_of (progress w') lang_code (py_str (index a))
  = entry_of (progress w) lang_code (py_str (index a)) ->
  recorded lang_code w a -> recorded lang_code w' a.
Proof.
  intros He [Hf (d & Hd & Ht)]. split; [exact Hf|].
  exists d. split; [rewrite He; exact Hd|exact Ht].
Qed.

Lemma done_at_frame (w w' : world) (i : nat) :
  output_files w' = output_files w ->
  entry_of (progress w') lang_code (py_str i) = entry_of (progress w) lang_code (py_str i) ->
  done_at lang_code w' i = done_at lang_code w i.
Proof.
  intros Ho He. unfold done_at. rewrite !is_post_processed_entry, He, Ho. reflexivity.
Qed.

(** The collecting loop on pending records with distinct indices. *)
Lemma collect_run (completed : list (nat * post)) :
  forall (processed_posts : list article) (c : counters) (w : world),
  NoDup (map fst completed) ->
  (forall t, t ∈ completed -> done_at lang_code w (fst t) = false) ->
  exists new c' w',
    collect_results completed processed_posts c w = (Ok (processed_posts ++ new, c'), w')
    /\ sublist (map index new) (map fst completed)
    /\ output_files w' = output_files w
    /\ (forall i, i ∉ map fst completed ->
          entry_of (progress w') lang_code (py_str i)
          = entry_of (progress w) lang_code (py_str i))
    /\ Forall (fun a => skipped a = false /\ recorded lang_code w' a) new
    /\ processed_count c' = processed_count c + length new
    /\ skipped_count c' = skipped_count c
    /\ error_count c' + length new = error_count c + length completed.
Proof.
  induction completed as [|[idx p] rest IH]; intros processed_posts c w Hnd Hpend.
  - exists [], c, w. cbn [collect]. unfold ret. rewrite app_nil_r.
    split; [reflexivity|]. split; [constructor|]. split; [reflexivity|].
    split; [reflexivity|]. split; [constructor|]. cbn [length]. lia.
  - cbn [map fst] in Hnd. apply NoDup_cons in Hnd as [Hnotin Hnd].
    destruct (worker_step idx p w) as (r & w1 & Hrun & Ho & He & Hr).
    { apply (Hpend (idx, p)). left. }
    assert (Hkeep : forall w2, progress w2 = progress w1 ->
              output_files w2 = output_files w1 ->
              forall t, t ∈ rest -> done_at lang_code w2 (fst t) = false).
    { intros w2 Hp2 Ho2 t Ht.
      rewrite (done_at_frame w w2).
      - apply Hpend. right. exact Ht.
      - congruence.
      - rewrite Hp2. apply He. intros E. apply py_str_inj in E.
        apply Hnotin. rewrite <- E. apply list_elem_of_fmap. exists t. tauto. }
    cbn [collect]. unfold bind at 1. rewrite Hrun.
    set (pc := match r with
               | Some a =>
                   if skipped a
                   then (processed_posts,
                         mkCounters (processed_count c) (S (skipped_count c))
                           (error_count c))
                   else (processed_posts ++ [a],
                         mkCounters (S (processed_count c)) (skipped_count c)
                           (error_count c))
               | None =>
                   (processed_posts,
                    mkCounters (processed_count c) (skipped_count c)
                      (S (error_count c)))
               end).
    assert (Hpc : pc = match r with
                       | Some a =>
                           (processed_posts ++ [a],
                            mkCounters (S (processed_count c)) (skipped_count c)
                              (error_count c))
                       | None =>
                           (processed_posts,
                            mkCounters (processed_count c) (skipped_count c)
                              (S (error_count c)))
                       end).
    { unfold pc. destruct r as [a|]; [|reflexivity].
      destruct Hr as (_ & -> & _). reflexivity. }
    clearbody pc. subst pc.
    set (pp1 := match r with Some a => processed_posts ++ [a] | None => processed_posts end).
    set (c1 := match r with
               | Some a => mkCounters (S (processed_count c)) (skipped_count c)
                             (error_count c)
               | None => mkCounters (processed_count c) (skipped_count c)
                           (S (error_count c))
               end).
    replace (match r with
             | Some a =>
                 (processed_posts ++ [a],
                  mkCounters (S (processed_count c)) (skipped_count c) (error_count c))
             | None =>
                 (processed_posts,
                  mkCounters (processed_count c) (skipped_count c) (S (error_count c)))
             end) with (pp1, c1) by (destruct r; reflexivity).
    cbv iota beta.
    assert (Hsave : exists w2,
               (if (processed_count c1 + skipped_count c1) mod PROGRESS_SAVE_INTERVAL =? 0
                then save_progress else ret tt) w1 = (Ok tt, w2)
               /\ progress w2 = progress w1 /\ output_files w2 = output_files w1).
    { destruct (_ =? 0); eexists; (split; [reflexivity|split; reflexivity]). }
    destruct Hsave as (w2 & Hsave & Hp2 & Ho2).
    unfold bind at 1. rewrite Hsave.
    destruct (IH pp1 c1 w2 Hnd (Hkeep w2 Hp2 Ho2))
      as (new & c' & w' & Hc & Hsub & Ho' & He' & Hnew & Hpc' & Hsc' & Hec').
    assert (Hhead : forall a, r = Some a ->
              skipped a = false /\ recorded lang_code w' a).
    { intros a ->. destruct Hr as (Hi & Hs & Hrec). split; [exact Hs|].
      apply (recorded_frame w1); [|exact Hrec].
      rewrite Hi, He' by exact Hnotin. rewrite Hp2. reflexivity. }
    exists (match r with Some a => a :: new | None => new end), c', w'.
    split.
    { rewrite Hc. unfold pp1. destruct r; [rewrite <- app_assoc|]; reflexivity. }
    split.
    { destruct r as [a|]; cbn [map fst].
      - destruct Hr as (-> & _). apply sublist_skip. exact Hsub.
      - apply sublist_cons. exact Hsub. }
    split; [congruence|]. split.
    { intros i Hi. cbn [map fst] in Hi. apply not_elem_of_cons in Hi as [Hne Hi].
      rewrite (He' i Hi), Hp2. apply He. intros E. apply py_str_inj in E. congruence. }
    split.
    { destruct r as [a|]; [|exact Hnew]. constructor; [apply Hhead; reflexivity|exact Hnew]. }
    unfold c1 in *. destruct r; cbn [processed_count skipped_count error_count length] in *;
      repeat split; lia.
Qed.

Lemma ensure_language_run (w0 : world) :
  exists wA,
    ensure_language lang_code w0 = (Ok tt, wA)
    /\ output_files wA = output_files w0 /\ cache_files wA = cache_files w0
    /\ trace wA = trace w0
    /\ (forall k, entry_of (progress wA) lang_code k = entry_of (progress w0) lang_code k)
    /\ (forall i, done_at lang_code wA i = done_at lang_code w0 i).
Proof.
  unfold ensure_language.
  assert (Hent : forall wA, output_files wA = output_files w0 ->
            (forall k, entry_of (progress wA) lang_code k
                       = entry_of (progress w0) lang_code k) ->
            forall i, done_at lang_code wA i = done_at lang_code w0 i).
  { intros wA Ho He i. apply done_at_frame; [exact Ho|apply He]. }
  destruct (progress w0 !! lang_code) as [entries|] eqn:Hl.
  - exists w0. repeat split; try reflexivity.
  - eexists. split; [reflexivity|]. split; [reflexivity|]. split; [reflexivity|].
    split; [reflexivity|].
    assert (He : forall k,
              entry_of (progress (set_progress (<[lang_code := ∅]> (progress w0)) w0))
                lang_code k = entry_of (progress w0) lang_code k).
    { intros k. unfold entry_of. cbn [progress set_progress].
      rewrite lookup_insert_eq, Hl. apply lookup_empty. }
    split; [exact He|]. apply Hent; [reflexivity|exact He].
Qed.

(** What the pass leaves, whatever the order of completion. *)
Lemma pass_run (completion : list (nat * post) -> list (nat * post))
  (posts : list post) (w0 : world) :
  (forall tasks, completion tasks ≡ₚ tasks) ->
  match pass completion lang_code cfg posts sitemap_urls w0 with
  | (Ok (processed_posts, c), w') =>
      output_files w' = output_files w0
      /\ Forall (fun a =>
                   if skipped a
                   then done_at lang_code w0 (index a) = true
                        /\ entry_of (progress w') lang_code (py_str (index a))
                           = entry_of (progress w0) lang_code (py_str (index a))
                   else recorded lang_code w' a)
           processed_posts
      /\ skipped_count c
         = length (List.filter (fun i => done_at lang_code w0 i) (seq 0 (length posts)))
      /\ processed_count c + skipped_count c = length processed_posts
      /\ processed_count c + skipped_count c + error_count c = length posts
  | (Raise e, _) => e = KeyError
  end.
Proof.
  intros Hperm. unfold language_pass. unfold bind at 1.
  destruct (ensure_language_run w0) as (wA & -> & HoA & _ & _ & HeA & HdA).
  unfold bind at 1.
  pose proof (prepare_tasks_spec lang_code posts (enumerate posts) wA) as Hprep.
  assert (Hfound_done : forall found tasks w1,
            prepare_tasks lang_code posts (enumerate posts) wA = (Ok (found, tasks), w1) ->
            Forall (fun a => skipped a = true) found).
  { generalize (enumerate posts). intros en. induction en as [|[idx p] rest IH];
      intros found tasks w1.
    - cbn. intros [= <- <- <-]. constructor.
    - cbn [prepare_tasks]. unfold bind at 1, get_world at 1.
      destruct (is_post_processed idx lang_code posts (progress wA) (output_files wA)).
      + unfold bind at 1. pose proof (done_article_spec lang_code idx wA) as Hd.
        destruct (done_article lang_code idx wA) as [[a|e] w2]; [|discriminate].
        destruct Hd as (-> & _ & Hs). unfold bind at 1.
        destruct (prepare_tasks lang_code posts rest wA) as [[[f t]|e] w3] eqn:Hrest;
          [|discriminate].
        unfold ret. intros [= <- <- <-]. cbn [fst]. constructor; [exact Hs|].
        eapply IH. reflexivity.
      + unfold bind at 1.
        destruct (prepare_tasks lang_code posts rest wA) as [[[f t]|e] w3] eqn:Hrest;
          [|discriminate].
        unfold ret. intros [= <- <- <-]. cbn [fst]. eapply IH. reflexivity. }
  destruct (prepare_tasks lang_code posts (enumerate posts) wA)
    as [[[found tasks]|e] wB] eqn:Hprepare; [|apply Hprep].
  specialize (Hfound_done found tasks wB eq_refl).
  destruct Hprep as (-> & Htasks & Hfound).
  assert (Hnd_tasks : NoDup (map fst (completion tasks))).
  { rewrite (Hperm tasks), Htasks. apply enumerate_filter_NoDup. }
  destruct (collect_run (completion tasks) found (mkCounters 0 (length found) 0) wA
              Hnd_tasks)
    as (new & c' & w' & Hcol & Hsub & Ho' & He' & Hnew & Hpc & Hsc & Hec).
  { intros t Ht. rewrite (Hperm tasks), Htasks in Ht.
    apply list_elem_of_In, filter_In in Ht as [_ Ht].
    unfold pending in Ht. apply negb_true_iff in Ht. exact Ht. }
  unfold bind at 1. rewrite Hcol. unfold bind, save_progress, emit, ret.
  cbn [fst snd output_files log progress].
  pose proof (sort_by_index_perm (found ++ new)) as Hsp.
  assert (Hlen_enum : length (enumerate posts) = length posts).
  { rewrite <- (length_map fst), map_fst_enumerate, length_seq. reflexivity. }
  assert (Hlen_found :
            length found
            = length (List.filter (fun i => done_at lang_code w0 i) (seq 0 (length posts)))).
  { rewrite <- (length_map index found), Hfound, <- map_fst_enumerate.
    generalize (enumerate posts). intros en. induction en as [|[idx p] rest IH];
      [reflexivity|].
    cbn [List.filter map fst]. unfold pending at 1. cbn [fst].
    rewrite negb_involutive.
    change (is_post_processed idx lang_code posts (progress wA) (output_files wA))
      with (done_at lang_code wA idx).
    rewrite HdA. destruct (done_at lang_code w0 idx); cbn [map length]; rewrite IH;
      reflexivity. }
  split; [congruence|]. split.
  { rewrite Hsp. apply Forall_app. split.
    - apply Forall_forall. intros a Ha.
      assert (Hs : skipped a = true).
      { rewrite Forall_forall in Hfound_done. apply Hfound_done, Ha. }
      rewrite Hs.
      assert (Hin : index a ∈ map fst
                      (List.filter (fun t => negb (pending lang_code posts wA t))
                         (enumerate posts))).
      { rewrite <- Hfound. apply list_elem_of_fmap. exists a. tauto. }
      apply list_elem_of_fmap in Hin as ([i q] & Hi & Hin). cbn [fst] in Hi. subst i.
      apply list_elem_of_In, filter_In in Hin as [Hen Hdone].
      unfold pending in Hdone. rewrite negb_involutive in Hdone. cbn [fst] in Hdone.
      split.
      + rewrite <- HdA. exact Hdone.
      + rewrite He', HeA; [reflexivity|].
        rewrite (Hperm tasks), Htasks. intros Hin.
        apply list_elem_of_fmap in Hin as ([i q'] & Hi & Hin). cbn [fst] in Hi. subst i.
        apply list_elem_of_In, filter_In in Hin as [_ Hpend].
        unfold pending in Hpend. cbn [fst] in Hpend.
        rewrite Hdone in Hpend. discriminate.
    - eapply Forall_impl; [exact Hnew|]. cbn beta. intros a [-> Hrec]. exact Hrec. }
  split; [cbn [skipped_count] in Hsc; congruence|].
  cbn [processed_count skipped_count error_count] in *.
  rewrite (Permutation_length Hsp), length_app.
  split; [lia|].
  pose proof (filter_partition_length (pending lang_code posts wA) (enumerate posts)) as Hpart.
  assert (Hlen_found' :
            length found
            = length (List.filter (fun t => negb (pending lang_code posts wA t))
                        (enumerate posts))).
  { rewrite <- (length_map index found), Hfound, length_map. reflexivity. }
  assert (Hlen_tasks : length (completion tasks) = length tasks)
    by (apply Permutation_length, Hperm).
  rewrite <- Htasks in Hpart. lia.
Qed.

End PassRuns.
(** ** The pass and the results of its workers *)

Lemma omap_all_None {A B} (f : A -> option B) (l : list A) :
  (forall x, f x = None) -> omap f l = [].
Proof.
  intros Hf. induction l as [|x l IH]; [reflexivity|].
  cbn [omap list_omap]. rewrite Hf. exact IH.
Qed.

Lemma omap_map {A B C} (f : B -> option C) (g : A -> B) (l : list A) :
  omap f (map g l) = omap (fun x => f (g x)) l.
Proof.
  induction l as [|x l IH]; [reflexivity|].
  cbn [map omap list_omap]. rewrite IH. reflexivity.
Qed.

(** Reading a list through its positions. *)
Lemma omap_lookup_seq {A B} (h : option A -> option B) (l : list A) :
  h None = None ->
  forall n, length l <= n ->
  omap (fun k => h (l !! k)) (seq 0 n) = omap (fun x => h (Some x)) l.
Proof.
  intros Hh. induction l as [|x l IH]; intros n Hn.
  - cbn [omap list_omap]. apply omap_all_None. intros k. rewrite lookup_nil. exact Hh.
  - destruct n as [|n]; [cbn [length] in Hn; lia|].
    cbn [seq]. rewrite <- seq_shift.
    cbn [omap list_omap]. rewrite omap_map.
    change (omap (fun k => h ((x :: l) !! S k)) (seq 0 n))
      with (omap (fun k => h (l !! k)) (seq 0 n)).
    rewrite (IH n) by (cbn [length] in Hn; lia). reflexivity.
Qed.

Lemma omap_pointwise {A B} (f g : A -> option B) (l : list A) :
  (forall x, f x = g x) -> omap f l = omap g l.
Proof.
  intros Hfg. induction l as [|x l IH]; [reflexivity|].
  cbn [omap list_omap]. rewrite Hfg, IH. reflexivity.
Qed.

Lemma NoDup_fst_agree {A B} (l : list (A * B)) (i : A) (x y : B) :
  NoDup (map fst l) -> (i, x) ∈ l -> (i, y) ∈ l -> x = y.
Proof.
  induction l as [|[j z] l IH]; intros Hnd Hx Hy.
  - apply elem_of_nil in Hx. destruct Hx.
  - cbn [map fst] in Hnd. apply NoDup_cons in Hnd as [Hnotin Hnd].
    assert (Hin : forall v, (i, v) ∈ l -> i ∈ map fst l).
    { intros v Hv. apply list_elem_of_fmap. exists (i, v). split; [reflexivity|exact Hv]. }
    apply elem_of_cons in Hx as [Hx|Hx]; apply elem_of_cons in Hy as [Hy|Hy].
    + congruence.
    + injection Hx as -> ->. exfalso. apply Hnotin. apply (Hin y Hy).
    + injection Hy as -> ->. exfalso. apply Hnotin. apply (Hin x Hx).
    + apply IH; assumption.
Qed.

Lemma StronglySorted_lt_seq (a n : nat) : StronglySorted lt (seq a n).
Proof.
  revert a. induction n as [|n IH]; intros a; [constructor|].
  cbn [seq]. constructor; [apply IH|].
  apply List.Forall_forall. intros i Hi. apply in_seq in Hi. lia.
Qed.

Lemma StronglySorted_lt_filter (f : nat -> bool) (l : list nat) :
  StronglySorted lt l -> StronglySorted lt (List.filter f l).
Proof.
  induction 1 as [|a l Hs IH Hall]; [constructor|].
  cbn [List.filter]. destruct (f a); [|exact IH].
  constructor; [exact IH|].
  apply List.Forall_forall. intros i Hi. apply filter_In in Hi as [Hi _].
  rewrite List.Forall_forall in Hall. apply Hall, Hi.
Qed.

(** A strictly ascending list is given by its elements. *)
Lemma sorted_lt_ext (l1 l2 : list nat) :
  StronglySorted lt l1 -> StronglySorted lt l2 ->
  (forall i, i ∈ l1 <-> i ∈ l2) -> l1 = l2.
Proof.
  intros H1. revert l2. induction H1 as [|a l1 Hs1 IH Ha]; intros l2 H2 Hiff.
  - destruct l2 as [|b l2]; [reflexivity|].
    exfalso. apply (not_elem_of_nil b), Hiff. left.
  - destruct l2 as [|b l2].
    { exfalso. apply (not_elem_of_nil a), Hiff. left. }
    apply StronglySorted_inv in H2 as [Hs2 Hb].
    rewrite List.Forall_forall in Ha, Hb.
    assert (Hab : a = b).
    { assert (Hal : a ∈ b :: l2) by (apply Hiff; left).
      assert (Hbl : b ∈ a :: l1) by (apply Hiff; left).
      apply elem_of_cons in Hal as [Hal|Hal]; [exact Hal|].
      apply elem_of_cons in Hbl as [Hbl|Hbl]; [symmetry; exact Hbl|].
      apply list_elem_of_In in Hal, Hbl.
      pose proof (Ha _ Hbl). pose proof (Hb _ Hal). lia. }
    subst b. f_equal. apply IH; [exact Hs2|].
    intros i. split; intros Hi.
    + assert (Hc : i ∈ a :: l2) by (apply Hiff; right; exact Hi).
      apply elem_of_cons in Hc as [->|Hc]; [|exact Hc].
      apply list_elem_of_In in Hi. pose proof (Ha _ Hi). lia.
    + assert (Hc : i ∈ a :: l1) by (apply Hiff; right; exact Hi).
      apply elem_of_cons in Hc as [->|Hc]; [|exact Hc].
      apply list_elem_of_In in Hi. pose proof (Hb _ Hi). lia.
Qed.

Section PassTurns.

Variable provider : nat -> str -> str -> str -> res str.
Variable unwrap_anchors : str -> res str.
Variable append_backlink : str -> str -> str -> str -> res str.
Variable get_text : str -> res str.

Variables (lang_code : str) (cfg : lang_config) (sitemap_urls : list str).

Local Abbreviation worker :=
  (process_single_article provider unwrap_anchors append_backlink get_text).

Local Abbreviation collect_results :=
  (collect provider unwrap_anchors append_backlink get_text lang_code cfg sitemap_urls).

Local Abbreviation pass :=
  (language_pass provider unwrap_anchors append_backlink get_text).

(** One turn of the collecting loop on a pending record. *)
Lemma collect_turn (idx : nat) (p : post) (processed_posts : list article)
  (c : counters) (w : world) :
  done_at lang_code w idx = false ->
  exists r w1 w2,
    worker idx p lang_code cfg sitemap_urls w = (Ok r, w1)
    /\ output_files w2 = output_files w
    /\ (forall k, k <> py_str idx ->
          entry_of (progress w2) lang_code k = entry_of (progress w) lang_code k)
    /\ (forall a, r = Some a -> index a = idx)
    /\ forall rest,
         collect_results ((idx, p) :: rest) processed_posts c w
         = collect_results rest
             (match r with Some a => processed_posts ++ [a] | None => processed_posts end)
             (match r with
              | Some _ => mkCounters (S (processed_count c)) (skipped_count c)
                            (error_count c)
              | None => mkCounters (processed_count c) (skipped_count c)
                          (S (error_count c))
              end) w2.
Proof.
  intros Hpend.
  destruct (worker_step provider unwrap_anchors append_backlink get_text
              lang_code cfg sitemap_urls idx p w Hpend) as (r & w1 & Hrun & Ho & He & Hr).
  set (pp1 := match r with Some a => processed_posts ++ [a] | None => processed_posts end).
  set (c1 := match r with
             | Some _ => mkCounters (S (processed_count c)) (skipped_count c)
                           (error_count c)
             | None => mkCounters (processed_count c) (skipped_count c)
                         (S (error_count c))
             end).
  assert (Hsave : exists w2,
             (if (processed_count c1 + skipped_count c1) mod PROGRESS_SAVE_INTERVAL =? 0
              then save_progress else ret tt) w1 = (Ok tt, w2)
             /\ progress w2 = progress w1 /\ output_files w2 = output_files w1).
  { destruct (_ =? 0); eexists; (split; [reflexivity|split; reflexivity]). }
  destruct Hsave as (w2 & Hsave & Hp2 & Ho2).
  exists r, w1, w2. split; [exact Hrun|]. split; [congruence|].
  split; [intros k Hk; rewrite Hp2; apply He, Hk|].
  split; [intros a ->; apply Hr|].
  intros rest. cbn [collect]. unfold bind at 1. rewrite Hrun.
  assert (Hpc : match r with
                | Some a =>
                    if skipped a
                    then (processed_posts,
                          mkCounters (processed_count c) (S (skipped_count c))
                            (error_count c))
                    else (processed_posts ++ [a],
                          mkCounters (S (processed_count c)) (skipped_count c)
                            (error_count c))
                | None =>
                    (processed_posts,
                     mkCounters (processed_count c) (skipped_count c)
                       (S (error_count c)))
                end = (pp1, c1)).
  { unfold pp1, c1. destruct r as [a|]; [|reflexivity].
    destruct Hr as (_ & -> & _). reflexivity. }
  rewrite Hpc. cbv iota beta. unfold bind at 1. rewrite Hsave. reflexivity.
Qed.

(** The collecting loop keeps a log: one entry a turn, the record and
    what its worker handed back in the world that turn starts in. *)
Lemma collect_log (completed : list (nat * post)) :
  forall (processed_posts : list article) (c : counters) (w : world),
  NoDup (map fst completed) ->
  (forall t, t ∈ completed -> done_at lang_code w (fst t) = false) ->
  exists (log : list (nat * option article)) c' w',
    collect_results completed processed_posts c w
    = (Ok (processed_posts ++ omap snd log, c'), w')
    /\ map fst log = map fst completed
    /\ Forall (fun t => forall a, snd t = Some a -> index a = fst t) log
    /\ error_count c' = error_count c + length (omap failure log)
    /\ forall k idx p,
         completed !! k = Some (idx, p) ->
         exists r pk ck wk wk',
           log !! k = Some (idx, r)
           /\ collect_results (take k completed) processed_posts c w = (Ok (pk, ck), wk)
           /\ worker idx p lang_code cfg sitemap_urls wk = (Ok r, wk').
Proof.
  induction completed as [|[idx p] rest IH]; intros processed_posts c w Hnd Hpend.
  - exists [], c, w. cbn [collect omap list_omap]. unfold ret. rewrite app_nil_r.
    split; [reflexivity|]. split; [reflexivity|]. split; [constructor|].
    split; [cbn [length]; lia|]. intros k idx p Hk. rewrite lookup_nil in Hk. discriminate.
  - cbn [map fst] in Hnd. apply NoDup_cons in Hnd as [Hnotin Hnd].
    destruct (collect_turn idx p processed_posts c w)
      as (r & w1 & w2 & Hrun & Ho & He & Hr & Hstep).
    { apply (Hpend (idx, p)). left. }
    destruct (IH (match r with Some a => processed_posts ++ [a] | None => processed_posts end)
                (match r with
                 | Some _ => mkCounters (S (processed_count c)) (skipped_count c)
                               (error_count c)
                 | None => mkCounters (processed_count c) (skipped_count c)
                             (S (error_count c))
                 end) w2 Hnd) as (log & c' & w' & Hc & Hfst & Hidx & Herr & Hturn).
    { intros t Ht. rewrite (done_at_frame lang_code w w2).
      - apply Hpend. right. exact Ht.
      - exact Ho.
      - apply He. intros E. apply py_str_inj in E.
        apply Hnotin. rewrite <- E. apply list_elem_of_fmap. exists t. tauto. }
    exists ((idx, r) :: log), c', w'.
    split.
    { rewrite Hstep, Hc. cbn [omap list_omap snd].
      destruct r; [rewrite <- app_assoc|]; reflexivity. }
    split; [cbn [map fst]; rewrite Hfst; reflexivity|].
    split; [constructor; [exact Hr|exact Hidx]|].
    split.
    { rewrite Herr. cbn [omap list_omap]. unfold failure at 2. cbn [snd fst].
      destruct r; cbn [error_count length]; lia. }
    intros k idx' p' Hk. destruct k as [|k].
    + cbn in Hk. injection Hk as <- <-.
      exists r, processed_posts, c, w, w1. split; [reflexivity|].
      split; [reflexivity|exact Hrun].
    + cbn [lookup list_lookup] in Hk.
      destruct (Hturn k idx' p' Hk) as (r' & pk & ck & wk & wk' & Hl & Hpre & Hw).
      exists r', pk, ck, wk, wk'. split; [exact Hl|]. split; [|exact Hw].
      cbn [take]. rewrite Hstep. exact Hpre.
Qed.

(** The records that fail in a pass are those its log marks, and the
    pass leaves the others. *)
Lemma pass_failures (completion : list (nat * post) -> list (nat * post))
  (posts : list post) (w0 : world) :
  (forall tasks, completion tasks ≡ₚ tasks) ->
  match pass completion lang_code cfg posts sitemap_urls w0 with
  | (Ok (processed_posts, c), _) =>
      (forall i, i ∈ map index processed_posts
                 <-> i < length posts
                     /\ i ∉ failed_records provider unwrap_anchors append_backlink
                              get_text completion lang_code cfg posts sitemap_urls w0)
      /\ error_count c
         = length (failed_records provider unwrap_anchors append_backlink get_text
                     completion lang_code cfg posts sitemap_urls w0)
      /\ (forall i, i ∈ failed_records provider unwrap_anchors append_backlink get_text
                         completion lang_code cfg posts sitemap_urls w0
                    <-> exists k,
                          turn_result provider unwrap_anchors append_backlink get_text
                            completion lang_code cfg posts sitemap_urls k w0
                          = Some (i, None))
  | (Raise e, _) => True
  end.
Proof.
  intros Hperm.
  destruct (ensure_language_run lang_code w0) as (wA & Hens & _ & _ & _ & _ & _).
  pose proof (prepare_tasks_spec lang_code posts (enumerate posts) wA) as Hprep.
  destruct (prepare_tasks lang_code posts (enumerate posts) wA)
    as [[[found tasks]|e] wB] eqn:Hprepare.
  2:{ unfold language_pass. unfold bind at 1. rewrite Hens. unfold bind at 1.
      rewrite Hprepare. exact I. }
  destruct Hprep as (-> & Htasks & Hfound).
  assert (Hnd_tasks : NoDup (map fst (completion tasks))).
  { rewrite (Hperm tasks), Htasks. apply enumerate_filter_NoDup. }
  destruct (collect_log (completion tasks) found (mkCounters 0 (length found) 0) wA
              Hnd_tasks)
    as (log & c' & w' & Hcol & Hfst & Hidx & Herr & Hturn).
  { intros t Ht. rewrite (Hperm tasks), Htasks in Ht.
    apply list_elem_of_In, filter_In in Ht as [_ Ht].
    unfold pending in Ht. apply negb_true_iff in Ht. exact Ht. }
  assert (Hlen_log : length log = length (completion tasks)).
  { rewrite <- (length_map fst log), Hfst, length_map. reflexivity. }
  assert (Hlen_enum : length (enumerate posts) = length posts).
  { rewrite <- (length_map fst), map_fst_enumerate, length_seq. reflexivity. }
  assert (Hlen_tasks : length (completion tasks) <= length posts).
  { rewrite (Permutation_length (Hperm tasks)), Htasks, <- Hlen_enum.
    pose proof (filter_partition_length (pending lang_code posts wA) (enumerate posts)).
    lia. }
  (* the log is what the turns give *)
  assert (Hresult : forall k,
            turn_result provider unwrap_anchors append_backlink get_text completion
              lang_code cfg posts sitemap_urls k w0 = log !! k).
  { intros k. unfold turn_result, after_turns. unfold bind at 1. rewrite Hens.
    unfold bind at 1. rewrite Hprepare. cbv iota beta.
    destruct (completion tasks !! k) as [[idx p]|] eqn:Hk.
    - destruct (Hturn k idx p Hk) as (r & pk & ck & wk & wk' & Hl & Hpre & Hw).
      unfold bind at 1. rewrite Hpre. unfold ret.
      rewrite (drop_S _ _ _ Hk), Hw, Hl. reflexivity.
    - apply lookup_ge_None in Hk.
      rewrite (take_ge _ _ Hk), (drop_ge _ _ Hk).
      unfold bind at 1. rewrite Hcol. unfold ret.
      symmetry. apply lookup_ge_None. lia. }
  assert (Hfailed : failed_records provider unwrap_anchors append_backlink get_text
                      completion lang_code cfg posts sitemap_urls w0
                    = omap failure log).
  { unfold failed_records.
    rewrite (omap_pointwise _ (fun k => log !! k ≫= failure))
      by (intros k; rewrite Hresult; reflexivity).
    rewrite (omap_lookup_seq (fun o => o ≫= failure) log eq_refl) by lia.
    apply omap_pointwise. intros t. reflexivity. }
  rewrite Hfailed.
  unfold language_pass. unfold bind at 1. rewrite Hens. unfold bind at 1.
  rewrite Hprepare. cbv iota beta. unfold bind at 1. rewrite Hcol.
  unfold bind, save_progress, emit, ret. cbn [fst snd].
  assert (Hin_failed : forall i, i ∈ omap failure log <-> (i, None) ∈ log).
  { intros i. rewrite list_elem_of_omap. split.
    - intros ([j [a|]] & Hin & Hf); [discriminate|].
      unfold failure in Hf. cbn [snd fst] in Hf. injection Hf as ->. exact Hin.
    - intros Hin. exists (i, None). split; [exact Hin|reflexivity]. }
  split; [|split; [cbn [error_count] in Herr; exact Herr|]].
  2:{ intros i. rewrite Hin_failed, list_elem_of_lookup. split.
      - intros (k & Hk). exists k. rewrite Hresult. exact Hk.
      - intros (k & Hk). exists k. rewrite <- Hresult. exact Hk. }
  intros i. specialize (Hin_failed i). rewrite (sort_by_index_perm (found ++ omap snd log)).
  rewrite map_app, elem_of_app.
  (* where an index is found *)
  assert (Hin_log : i ∈ map fst tasks <-> exists r, (i, r) ∈ log).
  { rewrite <- (Hperm tasks), <- Hfst. rewrite list_elem_of_fmap. split.
    - intros ([j r] & -> & Hin). exists r. exact Hin.
    - intros (r & Hin). exists (i, r). split; [reflexivity|exact Hin]. }
  assert (Hin_new : i ∈ map index (omap snd log) <-> exists a, (i, Some a) ∈ log).
  { rewrite list_elem_of_fmap. split.
    - intros (a & -> & Hin). apply list_elem_of_omap in Hin as ([j r] & Hin & Hs).
      cbn [snd] in Hs. subst r. exists a.
      rewrite Forall_forall in Hidx. rewrite (Hidx _ Hin a eq_refl). exact Hin.
    - intros (a & Hin). exists a. split.
      + rewrite Forall_forall in Hidx. symmetry. apply (Hidx _ Hin a eq_refl).
      + apply list_elem_of_omap. exists (i, Some a). split; [exact Hin|reflexivity]. }
  assert (Hnd_log : NoDup (map fst log)) by (rewrite Hfst; exact Hnd_tasks).
  assert (Hsplit : i < length posts
                   <-> i ∈ map index found \/ i ∈ map fst tasks).
  { rewrite Hfound, Htasks.
    assert (Hi : i < length posts <-> i ∈ map fst (enumerate posts)).
    { rewrite map_fst_enumerate, elem_of_seq. lia. }
    rewrite Hi, !list_elem_of_fmap. split.
    - intros ([j p] & -> & Hin).
      destruct (pending lang_code posts wA (j, p)) eqn:Hp.
      + right. exists (j, p). split; [reflexivity|].
        apply list_elem_of_In, filter_In. split; [apply list_elem_of_In, Hin|exact Hp].
      + left. exists (j, p). split; [reflexivity|].
        apply list_elem_of_In, filter_In. split; [apply list_elem_of_In, Hin|].
        rewrite Hp. reflexivity.
    - intros [(t & -> & Hin)|(t & -> & Hin)]; exists t; (split; [reflexivity|]);
        apply list_elem_of_In, filter_In in Hin as [Hin _]; apply list_elem_of_In, Hin. }
  assert (Hdisjoint : i ∈ map index found -> i ∈ map fst tasks -> False).
  { rewrite Hfound, Htasks. intros Hf Hn.
    apply list_elem_of_fmap in Hf as ([i1 p1] & -> & H1).
    apply list_elem_of_fmap in Hn as ([i2 p2] & E & H2). cbn [fst] in E. subst i2.
    apply list_elem_of_In, filter_In in H1 as [_ H1].
    apply list_elem_of_In, filter_In in H2 as [_ H2].
    unfold pending in *. cbn [fst] in *. rewrite H2 in H1. discriminate. }
  rewrite Hsplit, Hin_failed, Hin_new, Hin_log in *. split.
  - intros [Hf|(a & Ha)].
    + split; [left; exact Hf|]. intros Hnone. apply Hdisjoint; [exact Hf|].
      exists None. exact Hnone.
    + split; [right; exists (Some a); exact Ha|]. intros Hnone.
      pose proof (NoDup_fst_agree log i _ _ Hnd_log Ha Hnone). discriminate.
  - intros [[Hf|([a|] & Hr)] Hnot].
    + left. exact Hf.
    + right. exists a. exact Hr.
    + destruct (Hnot Hr).
Qed.

Local Abbreviation failed :=
  (failed_records provider unwrap_anchors append_backlink get_text).

Local Abbreviation result_of_turn :=
  (turn_result provider unwrap_anchors append_backlink get_text).

(** C2. Whatever the order in which the workers complete, the pass
    leaves the articles in strictly ascending order of their record
    index, all indices below the number N of records: the indices are
    0, 1, ..., N-1 without the records whose worker failed. A record is
    missing exactly when the worker of some turn of the loop handed
    back [None] for it, the error counter counts these records, and
    when there is none the indices are 0, 1, ..., N-1. The pass itself
    raises only [KeyError], on a ledger entry of a finished record that
    lacks a field. *)
Theorem pass_indices_ascending
  (completion : list (nat * post) -> list (nat * post))
  (posts : list post) (w0 : world) :
  (forall tasks, completion tasks ≡ₚ tasks) ->
  match pass completion lang_code cfg posts sitemap_urls w0 with
  | (Ok (processed_posts, c), _) =>
      StronglySorted lt (map index processed_posts)
      /\ Forall (fun i => i < length posts) (map index processed_posts)
      /\ map index processed_posts
         = List.filter
             (fun i => bool_decide
                         (i ∉ failed completion lang_code cfg posts sitemap_urls w0))
             (seq 0 (length posts))
      /\ (forall i, i < length posts ->
            (i ∉ map index processed_posts
             <-> exists k,
                   result_of_turn completion lang_code cfg posts sitemap_urls k w0
                   = Some (i, None)))
      /\ error_count c = length (failed completion lang_code cfg posts sitemap_urls w0)
      /\ length processed_posts + error_count c = length posts
      /\ (error_count c = 0 -> map index processed_posts = seq 0 (length posts))
  | (Raise e, _) => e = KeyError
  end.
Proof.
  intros Hperm.
  pose proof (pass_leaves_ascending_indices provider unwrap_anchors append_backlink
                get_text lang_code cfg sitemap_urls completion posts w0 Hperm) as Hord.
  pose proof (pass_failures completion posts w0 Hperm) as Hfail.
  destruct (pass completion lang_code cfg posts sitemap_urls w0)
    as [[[processed_posts c]|e] w']; [|exact Hord].
  destruct Hord as (Hsorted & Hbound & Hlen & Hzero).
  destruct Hfail as (Hin & Herr & Hturn).
  split; [exact Hsorted|]. split; [exact Hbound|]. split.
  { apply sorted_lt_ext.
    - exact Hsorted.
    - apply StronglySorted_lt_filter, StronglySorted_lt_seq.
    - intros i. rewrite Hin. split.
      + intros [H1 H2]. apply list_elem_of_In, filter_In.
        split; [apply in_seq; lia|apply bool_decide_eq_true; exact H2].
      + intros Hi. apply list_elem_of_In, filter_In in Hi as [H1 H2].
        apply in_seq in H1. apply bool_decide_eq_true in H2. split; [lia|exact H2]. }
  split.
  { intros i Hi. rewrite <- Hturn, Hin. split.
    - intros Hnot.
      destruct (decide (i ∈ failed completion lang_code cfg posts sitemap_urls w0))
        as [Hf|Hf]; [exact Hf|].
      exfalso. apply Hnot. split; assumption.
    - intros Hf [_ Hnot]. exact (Hnot Hf). }
  split; [exact Herr|]. split; [exact Hlen|exact Hzero].
Qed.

End PassTurns.

Lemma pass_indices_ascending_witness :
  (forall tasks : list (nat * post), rev tasks ≡ₚ tasks)
  /\ match language_pass tagging fragile plain_backlink (fun s => Ok s)
            (fun tasks => rev tasks) (lit "en") english three_posts
            [lit "https://infoedu.uz/a"] (quiet_world (fun _ => 0)) with
     | (Ok (processed_posts, c), _) =>
         StronglySorted lt (map index processed_posts)
         /\ Forall (fun i => i < length three_posts) (map index processed_posts)
         /\ map index processed_posts
            = List.filter
                (fun i => bool_decide
                            (i ∉ failed_records tagging fragile plain_backlink
                                   (fun s => Ok s) (fun tasks => rev tasks) (lit "en")
                                   english three_posts [lit "https://infoedu.uz/a"]
                                   (quiet_world (fun _ => 0))))
                (seq 0 (length three_posts))
         /\ (forall i, i < length three_posts ->
               (i ∉ map index processed_posts
                <-> exists k,
                      turn_result tagging fragile plain_backlink (fun s => Ok s)
                        (fun tasks => rev tasks) (lit "en") english three_posts
                        [lit "https://infoedu.uz/a"] k (quiet_world (fun _ => 0))
                      = Some (i, None)))
         /\ error_count c
            = length (failed_records tagging fragile plain_backlink (fun s => Ok s)
                        (fun tasks => rev tasks) (lit "en") english three_posts
                        [lit "https://infoedu.uz/a"] (quiet_world (fun _ => 0)))
         /\ length processed_posts + error_count c = length three_posts
         /\ (error_count c = 0 -> map index processed_posts = seq 0 (length three_posts))
     | (Raise e, _) => e = KeyError
     end
  /\ match language_pass tagging fragile plain_backlink (fun s => Ok s)
            (fun tasks => rev tasks) (lit "en") english six_posts
            [lit "https://infoedu.uz/a"] fresh_world with
     | (Ok (processed_posts, c), _) =>
         StronglySorted lt (map index processed_posts)
         /\ Forall (fun i => i < length six_posts) (map index processed_posts)
         /\ map index processed_posts
            = List.filter
                (fun i => bool_decide
                            (i ∉ failed_records tagging fragile plain_backlink
                                   (fun s => Ok s) (fun tasks => rev tasks) (lit "en")
                                   english six_posts [lit "https://infoedu.uz/a"]
                                   fresh_world))
                (seq 0 (length six_posts))
         /\ (forall i, i < length six_posts ->
               (i ∉ map index processed_posts
                <-> exists k,
                      turn_result tagging fragile plain_backlink (fun s => Ok s)
                        (fun tasks => rev tasks) (lit "en") english six_posts
                        [lit "https://infoedu.uz/a"] k fresh_world
                      = Some (i, None)))
         /\ error_count c
            = length (failed_records tagging fragile plain_backlink (fun s => Ok s)
                        (fun tasks => rev tasks) (lit "en") english six_posts
                        [lit "https://infoedu.uz/a"] fresh_world)
         /\ length processed_posts + error_count c = length six_posts
         /\ (error_count c = 0 -> map index processed_posts = seq 0 (length six_posts))
     | (Raise e, _) => e = KeyError
     end.
Proof.
  assert (H : forall tasks : list (nat * post), rev tasks ≡ₚ tasks)
    by (intros tasks; symmetry; apply Permutation_rev).
  split; [exact H|]. split.
  - exact (pass_indices_ascending tagging fragile plain_backlink (fun s => Ok s)
             (lit "en") english [lit "https://infoedu.uz/a"] (fun tasks => rev tasks)
             three_posts (quiet_world (fun _ => 0)) H).
  - exact (pass_indices_ascending tagging fragile plain_backlink (fun s => Ok s)
             (lit "en") english [lit "https://infoedu.uz/a"] (fun tasks => rev tasks)
             six_posts fresh_world H).
Defined.

(** C2, as first stated, fails when a worker fails: of three records
    the second holds markup that the library rejects, its worker hands
    back [None] in the second turn of the loop, and the pass leaves
    the indices 0 and 2. *)
Lemma failed_record_leaves_a_gap :
  let run := language_pass tagging fragile plain_backlink (fun s => Ok s)
               (fun tasks => rev tasks) (lit "en") english three_posts
               [lit "https://infoedu.uz/a"] (quiet_world (fun _ => 0)) in
  match fst run with
  | Ok (processed_posts, c) =>
      map index processed_posts = [0; 2] /\ error_count c = 1
      /\ map index processed_posts <> seq 0 (length three_posts)
  | Raise _ => False
  end
  /\ turn_result tagging fragile plain_backlink (fun s => Ok s)
       (fun tasks => rev tasks) (lit "en") english three_posts
       [lit "https://infoedu.uz/a"] 1 (quiet_world (fun _ => 0))
     = Some (1, None)
  /\ failed_records tagging fragile plain_backlink (fun s => Ok s)
       (fun tasks => rev tasks) (lit "en") english three_posts
       [lit "https://infoedu.uz/a"] (quiet_world (fun _ => 0))
     = [1].
Proof.
  split; [|split].
  - vm_compute. repeat split; try reflexivity. discriminate.
  - vm_compute. reflexivity.
  - vm_compute. reflexivity.
Qed.

Lemma filter_length_perm {A} (f : A -> bool) (l1 l2 : list A) :
  l1 ≡ₚ l2 -> length (List.filter f l1) = length (List.filter f l2).
Proof.
  induction 1 as [|x l1 l2 _ IH|x y l|l1 l2 l3 _ IH1 _ IH2].
  - reflexivity.
  - cbn [List.filter]. destruct (f x); cbn [length]; rewrite IH; reflexivity.
  - cbn [List.filter]. destruct (f x), (f y); reflexivity.
  - congruence.
Qed.

Section PassFacts.

Variable provider : nat -> str -> str -> str -> res str.
Variable unwrap_anchors : str -> res str.
Variable append_backlink : str -> str -> str -> str -> res str.
Variable get_text : str -> res str.

Variables (lang_code : str) (cfg : lang_config) (sitemap_urls : list str).

Local Abbreviation pass :=
  (language_pass provider unwrap_anchors append_backlink get_text).

(** X20. The three counters of a pass add up: the records found done
    at the start are the skipped ones, every article handed on is
    counted as skipped or processed, and with the failed records they
    make the number of records. *)
Theorem pass_counters_add_up
  (completion : list (nat * post) -> list (nat * post))
  (posts : list post) (w0 : world) :
  (forall tasks, completion tasks ≡ₚ tasks) ->
  match pass completion lang_code cfg posts sitemap_urls w0 with
  | (Ok (processed_posts, c), _) =>
      skipped_count c
      = length (List.filter
                  (fun i => is_post_processed i lang_code posts
                              (progress w0) (output_files w0))
                  (seq 0 (length posts)))
      /\ processed_count c + skipped_count c = length processed_posts
      /\ processed_count c + skipped_count c + error_count c = length posts
  | (Raise e, _) => e = KeyError
  end.
Proof.
  intros Hperm.
  pose proof (pass_run provider unwrap_anchors append_backlink get_text lang_code cfg
                sitemap_urls completion posts w0 Hperm) as H.
  destruct (pass completion lang_code cfg posts sitemap_urls w0) as [[[pp c]|e] w'];
    [|exact H].
  destruct H as (_ & _ & Hs & Hp & Hall). split; [exact Hs|]. split; assumption.
Qed.

(** X21. A pass over records that are all found done translates
    nothing: it hands on the articles of the ledger in the order of the
    records, all marked skipped, counts them as skipped, and its only
    effect is the final save of the ledger. *)
Theorem finished_pass_translates_nothing
  (completion : list (nat * post) -> list (nat * post))
  (posts : list post) (w0 : world) :
  (forall tasks, completion tasks ≡ₚ tasks) ->
  posts <> [] ->
  (forall i, i < length posts ->
     is_post_processed i lang_code posts (progress w0) (output_files w0) = true) ->
  match pass completion lang_code cfg posts sitemap_urls w0 with
  | (Ok (processed_posts, c), w') =>
      map index processed_posts = seq 0 (length posts)
      /\ Forall (fun a => skipped a = true) processed_posts
      /\ c = mkCounters 0 (length posts) 0
      /\ w' = log SaveProgress w0
  | (Raise e, _) => e = KeyError
  end.
Proof.
  intros Hperm Hne Hdone. unfold language_pass. unfold bind at 1.
  assert (Hens : ensure_language lang_code w0 = (Ok tt, w0)).
  { unfold ensure_language.
    destruct posts as [|p0 rest]; [congruence|].
    specialize (Hdone 0 ltac:(cbn; lia)). unfold is_post_processed in Hdone.
    destruct (progress w0 !! lang_code); [reflexivity|discriminate]. }
  rewrite Hens. unfold bind at 1.
  pose proof (prepare_tasks_spec lang_code posts (enumerate posts) w0) as Hprep.
  assert (Hskip : forall found tasks w1,
            prepare_tasks lang_code posts (enumerate posts) w0 = (Ok (found, tasks), w1) ->
            Forall (fun a => skipped a = true) found).
  { generalize (enumerate posts). intros en. induction en as [|[idx p] rest IH];
      intros found tasks w1.
    - cbn. intros [= <- <- <-]. constructor.
    - cbn [prepare_tasks]. unfold bind at 1, get_world at 1.
      destruct (is_post_processed idx lang_code posts (progress w0) (output_files w0)).
      + unfold bind at 1. pose proof (done_article_spec lang_code idx w0) as Hd.
        destruct (done_article lang_code idx w0) as [[a|e] w2]; [|discriminate].
        destruct Hd as (-> & _ & Hs). unfold bind at 1.
        destruct (prepare_tasks lang_code posts rest w0) as [[[f t]|e] w3] eqn:Hrest;
          [|discriminate].
        unfold ret. intros [= <- <- <-]. cbn [fst]. constructor; [exact Hs|].
        eapply IH. reflexivity.
      + unfold bind at 1.
        destruct (prepare_tasks lang_code posts rest w0) as [[[f t]|e] w3] eqn:Hrest;
          [|discriminate].
        unfold ret. intros [= <- <- <-]. cbn [fst]. eapply IH. reflexivity. }
  destruct (prepare_tasks lang_code posts (enumerate posts) w0)
    as [[[found tasks]|e] wB]; [|apply Hprep].
  specialize (Hskip found tasks wB eq_refl).
  destruct Hprep as (-> & Htasks & Hfound).
  assert (Hall : forall t, t ∈ enumerate posts -> pending lang_code posts w0 t = false).
  { intros [i p] Hin. unfold pending. cbn [fst]. rewrite Hdone; [reflexivity|].
    assert (Hi : i ∈ map fst (enumerate posts))
      by (apply list_elem_of_fmap; exists (i, p); tauto).
    rewrite map_fst_enumerate in Hi. apply elem_of_seq in Hi. lia. }
  assert (Htasks0 : tasks = []).
  { rewrite Htasks. clear -Hall. induction (enumerate posts) as [|t rest IH];
      [reflexivity|].
    cbn [List.filter]. rewrite (Hall t) by left. apply IH.
    intros t' Ht'. apply Hall. right. exact Ht'. }
  assert (Hfound_idx : map index found = seq 0 (length posts)).
  { rewrite Hfound, <- map_fst_enumerate. f_equal. clear -Hall.
    induction (enumerate posts) as [|t rest IH]; [reflexivity|].
    cbn [List.filter]. rewrite (Hall t) by left. cbn [negb]. f_equal. apply IH.
    intros t' Ht'. apply Hall. right. exact Ht'. }
  assert (Hc0 : completion tasks = [])
    by (apply Permutation_nil_r; rewrite <- Htasks0 at 1; apply Hperm).
  rewrite Hc0. cbn [collect]. unfold bind, ret, save_progress, emit. cbn [fst snd].
  pose proof (sort_by_index_perm found) as Hsp.
  assert (Hsorted : StronglySorted lt (map index (sort_by_index found))).
  { apply sorted_distinct_ascending; [apply sort_by_index_sorted|].
    rewrite Hsp, Hfound_idx. apply NoDup_seq. }
  assert (Hbound : Forall (fun i => 0 <= i < length posts)
                     (map index (sort_by_index found))).
  { rewrite Hsp, Hfound_idx. apply Forall_forall. intros i Hi.
    apply elem_of_seq in Hi. lia. }
  destruct (ascending_interval _ 0 (length posts) Hsorted Hbound) as [_ Heq].
  rewrite Nat.sub_0_r in Heq.
  assert (Hlen : length found = length posts).
  { rewrite <- (length_map index found), Hfound_idx, length_seq. reflexivity. }
  split.
  { apply Heq. rewrite length_map, (Permutation_length Hsp). exact Hlen. }
  split; [rewrite Hsp; exact Hskip|]. rewrite Hlen. split; reflexivity.
Qed.

(** A record found done whose entry lacks a field stops the loop that
    sorts the records. *)
Lemma prepare_tasks_incomplete (posts : list post) (w0 : world) (i : nat) :
  is_post_processed i lang_code posts (progress w0) (output_files w0) = true ->
  fst (done_article lang_code i w0) = Raise KeyError ->
  forall enumerated, i ∈ map fst enumerated ->
  prepare_tasks lang_code posts enumerated w0 = (Raise KeyError, w0).
Proof.
  intros Hdone Hbad enumerated Hin.
  pose proof (prepare_tasks_spec lang_code posts enumerated w0) as Hspec.
  destruct (prepare_tasks lang_code posts enumerated w0) as [[[found tasks]|e] w1] eqn:Hrun.
  2:{ destruct Hspec as [-> ->]. reflexivity. }
  exfalso. clear Hspec. revert found tasks w1 Hrun.
  induction enumerated as [|[idx p] rest IH]; intros found tasks w1.
  - apply elem_of_nil in Hin. contradiction.
  - cbn [prepare_tasks]. unfold bind at 1, get_world at 1.
    cbn [map fst] in Hin. apply elem_of_cons in Hin as [->|Hin].
    + rewrite Hdone. unfold bind at 1.
      destruct (done_article lang_code idx w0) as [[a|e] w2]; [discriminate|].
      discriminate.
    + destruct (is_post_processed idx lang_code posts (progress w0) (output_files w0)).
      * unfold bind at 1. pose proof (done_article_spec lang_code idx w0) as Hd.
        destruct (done_article lang_code idx w0) as [[a|e] w2]; [|discriminate].
        destruct Hd as (-> & _). unfold bind at 1.
        destruct (prepare_tasks lang_code posts rest w0) as [[[f t]|e] w3] eqn:Hrest;
          [|discriminate].
        intros _. exact (IH Hin f t w3 eq_refl).
      * unfold bind at 1.
        destruct (prepare_tasks lang_code posts rest w0) as [[[f t]|e] w3] eqn:Hrest;
          [|discriminate].
        intros _. exact (IH Hin f t w3 eq_refl).
Qed.

(** X22. A ledger entry that lacks its title, file name or slug, for a
    record whose output file exists, ends the pass with [KeyError]
    before any record is processed: the world is left as it was. *)
Theorem incomplete_entry_stops_the_pass
  (completion : list (nat * post) -> list (nat * post))
  (posts : list post) (w0 : world) (i : nat) (d : gmap str str) :
  i < length posts ->
  entry_of (progress w0) lang_code (py_str i) = Some d ->
  artifact_path lang_code d ∈ output_files w0 ->
  d !! lit "title" = None \/ d !! lit "filename" = None \/ d !! lit "slug" = None ->
  pass completion lang_code cfg posts sitemap_urls w0 = (Raise KeyError, w0).
Proof.
  intros Hi Hentry Hfile Hmissing.
  assert (Hdone : is_post_processed i lang_code posts (progress w0) (output_files w0)
                  = true).
  { rewrite is_post_processed_entry, Hentry. apply bool_decide_eq_true. exact Hfile. }
  assert (Hbad : fst (done_article lang_code i w0) = Raise KeyError).
  { pose proof (done_article_spec lang_code i w0) as Hd.
    destruct (done_article lang_code i w0) as [[a|e] w1] eqn:Hrun.
    - exfalso.
      destruct (done_article_fields lang_code i w0 a) as (d' & t & f & s & Hd' & Ht & Hf & Hs & _);
        [rewrite Hrun; reflexivity|].
      pose proof (eq_trans (eq_sym Hentry) Hd') as E. injection E as <-.
      destruct Hmissing as [H|[H|H]].
      + pose proof (eq_trans (eq_sym H) Ht). discriminate.
      + pose proof (eq_trans (eq_sym H) Hf). discriminate.
      + pose proof (eq_trans (eq_sym H) Hs). discriminate.
    - destruct Hd as [_ ->]. reflexivity. }
  unfold language_pass. unfold bind at 1.
  assert (Hens : ensure_language lang_code w0 = (Ok tt, w0)).
  { unfold ensure_language. unfold entry_of in Hentry.
    destruct (progress w0 !! lang_code); [reflexivity|discriminate]. }
  rewrite Hens. unfold bind at 1.
  rewrite (prepare_tasks_incomplete posts w0 i Hdone Hbad); [reflexivity|].
  rewrite map_fst_enumerate. apply elem_of_seq. lia.
Qed.

End PassFacts.

(** ** The HTML files and the next run *)

Lemma assign_links_cases (processed_posts : list article) (w : world) :
  match assign_links processed_posts w with
  | (Ok linked, w') =>
      same_but_rng w w'
      /\ Forall2 (fun a b => b = set_related (related_articles b) a) processed_posts linked
  | (Raise e, _) => e = ValueError
  end.
Proof.
  destruct (le_lt_dec 6 (length processed_posts)) as [Hbig|Hsmall].
  - destruct (link_loop_six processed_posts Hbig processed_posts w)
      as (out & w' & Hrun & Hsame & Hall).
    unfold assign_links. rewrite Hrun. split; [exact Hsame|].
    eapply Forall2_impl; [exact Hall|]. cbn beta. intros a b [H _]. exact H.
  - unfold assign_links. destruct processed_posts as [|a rest].
    + cbn. split; [apply same_but_rng_refl|constructor].
    + cbn [link_loop]. unfold bind at 1, draw_related.
      unfold bind at 1. rewrite randint_empty; [reflexivity|].
      unfold MIN_INTERNAL_LINKS, MAX_INTERNAL_LINKS. cbn [length] in *. lia.
Qed.

Section HtmlFiles.

Variable render : str -> lang_config -> article -> res str.
Variables (lang_code : str) (cfg : lang_config).

Lemma generate_html_file_run (a : article) (w : world) :
  exists b w',
    generate_html_file render lang_code cfg a w = (Ok b, w')
    /\ progress w' = progress w
    /\ output_files w ⊆ output_files w'
    /\ ((exists h, render lang_code cfg a = Ok h) ->
        path_join (path_join OUTPUT_DIR lang_code) (filename a) ∈ output_files w').
Proof.
  unfold generate_html_file, try_except, bind, lift, write_output, ret.
  destruct (render lang_code cfg a) as [h|e].
  - eexists _, _. split; [reflexivity|]. cbn [progress output_files].
    split; [reflexivity|]. split; [set_solver|]. intros _. set_solver.
  - eexists _, _. split; [reflexivity|]. split; [reflexivity|].
    split; [reflexivity|]. intros [h Hh]. discriminate.
Qed.

Lemma generate_html_files_run (completed : list article) : forall w,
  exists w',
    generate_html_files render lang_code cfg completed w = (Ok tt, w')
    /\ progress w' = progress w
    /\ output_files w ⊆ output_files w'
    /\ forall a, a ∈ completed ->
         (exists h, render lang_code cfg a = Ok h) ->
         path_join (path_join OUTPUT_DIR lang_code) (filename a) ∈ output_files w'.
Proof.
  induction completed as [|a rest IH]; intros w.
  - exists w. split; [reflexivity|]. split; [reflexivity|]. split; [reflexivity|].
    intros a Ha. apply elem_of_nil in Ha. contradiction.
  - destruct (generate_html_file_run a w) as (b & w1 & Hrun & Hp & Ho & Hfile).
    destruct (IH w1) as (w2 & Hrest & Hp2 & Ho2 & Hfiles).
    exists w2. cbn [generate_html_files]. unfold bind. rewrite Hrun, Hrest.
    split; [reflexivity|]. split; [congruence|]. split; [set_solver|].
    intros a' Ha' Hr. apply elem_of_cons in Ha' as [->|Ha'].
    + apply Ho2, Hfile, Hr.
    + apply Hfiles; assumption.
Qed.

End HtmlFiles.

Section Resume.

Variable provider : nat -> str -> str -> str -> res str.
Variable unwrap_anchors : str -> res str.
Variable append_backlink : str -> str -> str -> str -> res str.
Variable get_text : str -> res str.
Variable render : str -> lang_config -> article -> res str.

Variables (lang_code : str) (cfg : lang_config) (sitemap_urls : list str).

(** X23. When the build of a language comes to its end with a template
    that renders every article, every article it handed on is found
    done afterwards: the next run skips the records whose worker did not
    fail. The build is cut short only by [KeyError], on an incomplete
    ledger entry, or by [ValueError], in the cross-reference step. *)
Theorem finished_language_is_resumable
  (completion : list (nat * post) -> list (nat * post))
  (html_completion : list article -> list article)
  (posts : list post) (w0 : world) :
  (forall tasks, completion tasks ≡ₚ tasks) ->
  (forall l, html_completion l ≡ₚ l) ->
  (forall a, exists h, render lang_code cfg a = Ok h) ->
  match build_language render provider unwrap_anchors append_backlink get_text
          completion html_completion lang_code cfg posts sitemap_urls w0 with
  | (Ok (processed_posts, c), w') =>
      Forall (fun a => is_post_processed (index a) lang_code posts
                         (progress w') (output_files w') = true) processed_posts
      /\ length processed_posts + error_count c = length posts
  | (Raise e, _) => e = KeyError \/ e = ValueError
  end.
Proof.
  intros Hperm Hperm' Hrender. unfold build_language. unfold bind at 1.
  pose proof (pass_run provider unwrap_anchors append_backlink get_text lang_code cfg
                sitemap_urls completion posts w0 Hperm) as Hpass.
  destruct (language_pass provider unwrap_anchors append_backlink get_text completion
              lang_code cfg posts sitemap_urls w0) as [[[pp c]|e] w1];
    [|left; exact Hpass].
  destruct Hpass as (Ho1 & Hall & _ & Hcount & Hsum). cbn [fst snd].
  unfold bind at 1.
  pose proof (assign_links_cases pp w1) as Hlinks.
  destruct (assign_links pp w1) as [[linked|e] w2]; [|right; exact Hlinks].
  destruct Hlinks as [(_ & Ho2 & Hp2 & _) Hrel].
  destruct (generate_html_files_run render lang_code cfg (html_completion linked) w2)
    as (w3 & Hrun & Hp3 & Ho3 & Hfiles).
  unfold bind. rewrite Hrun. unfold ret. split.
  - apply Forall_forall. intros b Hb.
    assert (Hfile : path_join (path_join OUTPUT_DIR lang_code) (filename b)
                      ∈ output_files w3).
    { apply Hfiles; [rewrite (Hperm' linked); exact Hb|apply Hrender]. }
    apply list_elem_of_lookup in Hb as [n Hn].
    destruct (Forall2_lookup_r _ _ _ _ _ Hrel Hn) as (a & Ha & Hab).
    assert (Hfields : index b = index a /\ filename b = filename a
                      /\ title b = title a /\ skipped b = skipped a)
      by (rewrite Hab; repeat split; reflexivity).
    destruct Hfields as (Hi & Hf & Ht & Hs).
    apply list_elem_of_lookup_2 in Ha.
    rewrite Forall_forall in Hall. specialize (Hall a Ha).
    rewrite Hi, is_post_processed_entry, Hp3, Hp2.
    destruct (skipped a).
    + destruct Hall as [Hdone He]. rewrite He.
      unfold done_at in Hdone. rewrite is_post_processed_entry in Hdone.
      destruct (entry_of (progress w0) lang_code (py_str (index a))) as [d|];
        [|discriminate].
      apply bool_decide_eq_true. apply bool_decide_eq_true in Hdone.
      apply Ho3. rewrite Ho2, Ho1. exact Hdone.
    + destruct Hall as [Hname (d & Hd & Htitle)]. rewrite Hd.
      apply bool_decide_eq_true. unfold artifact_path.
      replace (default [] (d !! lit "title")) with (title a)
        by (symmetry; exact (f_equal (default []) Htitle)).
      rewrite <- Hname, <- Hf. exact Hfile.
  - rewrite <- (Forall2_length _ _ _ Hrel). lia.
Qed.

End Resume.

Lemma finished_language_is_resumable_witness :
  (forall tasks : list (nat * post), rev tasks ≡ₚ tasks)
  /\ (forall l : list article, rev l ≡ₚ l)
  /\ (forall a, exists h, plain_template (lit "en") english a = Ok h)
  /\ match build_language plain_template tagging fragile plain_backlink (fun s => Ok s)
             (fun tasks => rev tasks) (fun l => rev l) (lit "en") english six_posts
             [lit "https://infoedu.uz/a"] fresh_world with
     | (Ok (processed_posts, c), w') =>
         Forall (fun a => is_post_processed (index a) (lit "en") six_posts
                            (progress w') (output_files w') = true) processed_posts
         /\ length processed_posts + error_count c = length six_posts
     | (Raise e, _) => e = KeyError \/ e = ValueError
     end.
Proof.
  assert (H1 : forall tasks : list (nat * post), rev tasks ≡ₚ tasks)
    by (intros tasks; symmetry; apply Permutation_rev).
  assert (H2 : forall l : list article, rev l ≡ₚ l)
    by (intros l; symmetry; apply Permutation_rev).
  assert (H3 : forall a, exists h, plain_template (lit "en") english a = Ok h)
    by (intros a; eexists; reflexivity).
  split; [exact H1|]. split; [exact H2|]. split; [exact H3|].
  exact (finished_language_is_resumable tagging fragile plain_backlink (fun s => Ok s)
           plain_template (lit "en") english [lit "https://infoedu.uz/a"]
           (fun tasks => rev tasks) (fun l => rev l) six_posts fresh_world H1 H2 H3).
Defined.

Lemma worker_failure_keeps_the_ledger_witness :
  is_post_processed 0 (lit "en") [mkPost (lit "Salom dunyo") (lit "salom")]
    (progress fresh_world) (output_files fresh_world) = false
  /\ exists r w',
    process_single_article tagging fragile plain_backlink (fun s => Ok s)
      0 (mkPost (lit "Salom dunyo") (lit "salom")) (lit "en") english
      [lit "https://infoedu.uz/a"] fresh_world = (Ok r, w')
    /\ output_files w' = output_files fresh_world
    /\ match r with
       | Some a =>
           index a = 0 /\ skipped a = false
           /\ filename a = generate_slug (title a) ++ lit ".html"
           /\ url_path a = Some (generate_slug (title a))
           /\ exists d,
                entry_of (progress w') (lit "en") (py_str 0) = Some d
                /\ d !! lit "title" = Some (title a)
                /\ d !! lit "filename" = Some (filename a)
                /\ d !! lit "slug" = Some (slug a)
                /\ d !! lit "meta_description" = meta_description a
       | None => progress w' = progress fresh_world
       end.
Proof.
  assert (H : is_post_processed 0 (lit "en") [mkPost (lit "Salom dunyo") (lit "salom")]
                (progress fresh_world) (output_files fresh_world) = false)
    by (vm_compute; reflexivity).
  split; [exact H|].
  exact (worker_failure_keeps_the_ledger tagging fragile plain_backlink (fun s => Ok s)
           (lit "en") english [lit "https://infoedu.uz/a"] 0
           (mkPost (lit "Salom dunyo") (lit "salom")) fresh_world H).
Defined.

Lemma worker_skips_a_done_record_witness :
  is_post_processed 0 (lit "en") [mkPost (lit "Salom dunyo") (lit "salom")]
    (progress resumed_world) (output_files resumed_world) = true
  /\ exists r,
    process_single_article unreachable fragile plain_backlink (fun s => Ok s)
      0 (mkPost (lit "Salom dunyo") (lit "salom")) (lit "en") english
      [lit "https://infoedu.uz/a"] resumed_world = (Ok r, resumed_world)
    /\ match r with
       | Some a =>
           skipped a = true /\ index a = 0 /\ content a = None
           /\ exists d,
                entry_of (progress resumed_world) (lit "en") (py_str 0) = Some d
                /\ d !! lit "title" = Some (title a)
                /\ d !! lit "filename" = Some (filename a)
                /\ d !! lit "slug" = Some (slug a)
       | None =>
           exists d,
             entry_of (progress resumed_world) (lit "en") (py_str 0) = Some d
             /\ (d !! lit "title" = None \/ d !! lit "filename" = None
                 \/ d !! lit "slug" = None)
       end.
Proof.
  assert (H : is_post_processed 0 (lit "en") [mkPost (lit "Salom dunyo") (lit "salom")]
                (progress resumed_world) (output_files resumed_world) = true)
    by (vm_compute; reflexivity).
  split; [exact H|].
  exact (worker_skips_a_done_record unreachable fragile plain_backlink (fun s => Ok s)
           (lit "en") english [lit "https://infoedu.uz/a"] 0
           (mkPost (lit "Salom dunyo") (lit "salom")) resumed_world H).
Defined.

Lemma pass_counters_add_up_witness :
  (forall tasks : list (nat * post), rev tasks ≡ₚ tasks)
  /\ match language_pass tagging fragile plain_backlink (fun s => Ok s)
             (fun tasks => rev tasks) (lit "en") english six_posts
             [lit "https://infoedu.uz/a"] fresh_world with
     | (Ok (processed_posts, c), _) =>
         skipped_count c
         = length (List.filter
                     (fun i => is_post_processed i (lit "en") six_posts
                                 (progress fresh_world) (output_files fresh_world))
                     (seq 0 (length six_posts)))
         /\ processed_count c + skipped_count c = length processed_posts
         /\ processed_count c + skipped_count c + error_count c = length six_posts
     | (Raise e, _) => e = KeyError
     end.
Proof.
  assert (H : forall tasks : list (nat * post), rev tasks ≡ₚ tasks)
    by (intros tasks; symmetry; apply Permutation_rev).
  split; [exact H|].
  exact (pass_counters_add_up tagging fragile plain_backlink (fun s => Ok s)
           (lit "en") english [lit "https://infoedu.uz/a"] (fun tasks => rev tasks)
           six_posts fresh_world H).
Defined.

Lemma finished_pass_translates_nothing_witness :
  (forall tasks : list (nat * post), rev tasks ≡ₚ tasks)
  /\ one_post <> []
  /\ (forall i, i < length one_post ->
        is_post_processed i (lit "en") one_post
          (progress resumed_world) (output_files resumed_world) = true)
  /\ match language_pass unreachable fragile plain_backlink (fun s => Ok s)
             (fun tasks => rev tasks) (lit "en") english one_post
             [lit "https://infoedu.uz/a"] resumed_world with
     | (Ok (processed_posts, c), w') =>
         map index processed_posts = seq 0 (length one_post)
         /\ Forall (fun a => skipped a = true) processed_posts
         /\ c = mkCounters 0 (length one_post) 0
         /\ w' = log SaveProgress resumed_world
     | (Raise e, _) => e = KeyError
     end.
Proof.
  assert (H1 : forall tasks : list (nat * post), rev tasks ≡ₚ tasks)
    by (intros tasks; symmetry; apply Permutation_rev).
  assert (H2 : one_post <> []) by discriminate.
  assert (H3 : forall i, i < length one_post ->
                 is_post_processed i (lit "en") one_post
                   (progress resumed_world) (output_files resumed_world) = true).
  { intros i Hi. assert (i = 0) by (cbn in Hi; lia). subst i. vm_compute. reflexivity. }
  split; [exact H1|]. split; [exact H2|]. split; [exact H3|].
  exact (finished_pass_translates_nothing unreachable fragile plain_backlink
           (fun s => Ok s) (lit "en") english [lit "https://infoedu.uz/a"]
           (fun tasks => rev tasks) one_post resumed_world H1 H2 H3).
Defined.

Lemma incomplete_entry_stops_the_pass_witness :
  0 < length one_post
  /\ entry_of (progress broken_world) (lit "en") (py_str 0)
     = Some (<[lit "title" := lit "Hello World"]> ∅)
  /\ artifact_path (lit "en") (<[lit "title" := lit "Hello World"]> ∅)
       ∈ output_files broken_world
  /\ ((<[lit "title" := lit "Hello World"]> ∅ : gmap str str) !! lit "title" = None
      \/ (<[lit "title" := lit "Hello World"]> ∅ : gmap str str) !! lit "filename" = None
      \/ (<[lit "title" := lit "Hello World"]> ∅ : gmap str str) !! lit "slug" = None)
  /\ language_pass tagging fragile plain_backlink (fun s => Ok s)
       (fun tasks => rev tasks) (lit "en") english one_post
       [lit "https://infoedu.uz/a"] broken_world
     = (Raise KeyError, broken_world).
Proof.
  assert (H1 : 0 < length one_post) by (cbn; lia).
  assert (H2 : entry_of (progress broken_world) (lit "en") (py_str 0)
               = Some (<[lit "title" := lit "Hello World"]> ∅))
    by (vm_compute; reflexivity).
  assert (H3 : artifact_path (lit "en") (<[lit "title" := lit "Hello World"]> ∅)
                 ∈ output_files broken_world)
    by (unshelve eapply bool_decide_eq_true_1; try typeclasses eauto; vm_compute; reflexivity).
  assert (H4 : (<[lit "title" := lit "Hello World"]> ∅ : gmap str str) !! lit "title" = None
               \/ (<[lit "title" := lit "Hello World"]> ∅ : gmap str str) !! lit "filename"
                  = None
               \/ (<[lit "title" := lit "Hello World"]> ∅ : gmap str str) !! lit "slug"
                  = None)
    by (right; left; vm_compute; reflexivity).
  split; [exact H1|]. split; [exact H2|]. split; [exact H3|]. split; [exact H4|].
  exact (incomplete_entry_stops_the_pass tagging fragile plain_backlink (fun s => Ok s)
           (lit "en") english [lit "https://infoedu.uz/a"] (fun tasks => rev tasks)
           one_post broken_world 0 _ H1 H2 H3 H4).
Defined.

(** ** The sitemap *)

Lemma url_lines_count urls : length (flat_map url_lines urls) = 6 * length urls.
Proof.
  induction urls as [|u r IH]; [reflexivity|].
  cbn [flat_map]. rewrite length_app, IH. cbn [url_lines length]. lia.
Qed.

(** The sitemap lists the landing page, the index page of each of the
    two languages, whether the language has articles or not, and one
    entry for each article of these two languages; the entry of another
    language is ignored. Each entry takes six lines between the two
    lines of the header and the closing line. *)
Lemma sitemap_entry_count (all_processed_posts : gmap str (list article))
  (base_url current_date : str) :
  length (sitemap_urls all_processed_posts base_url current_date)
  = 3 + length (default [] (all_processed_posts !! lit "en"))
      + length (default [] (all_processed_posts !! lit "ru"))
  /\ length (xml_lines (sitemap_urls all_processed_posts base_url current_date))
     = 3 + 6 * length (sitemap_urls all_processed_posts base_url current_date).
Proof.
  split.
  - unfold sitemap_urls, LANGUAGE_CODES. cbn [flat_map length].
    rewrite app_nil_r, length_app. unfold language_urls. cbn [length].
    destruct (all_processed_posts !! lit "en") as [en|],
             (all_processed_posts !! lit "ru") as [ru|];
      cbn [default length]; unfold id; rewrite ?length_map; lia.
  - unfold xml_lines. rewrite !length_app, url_lines_count. cbn [length]. lia.
Qed.

(** The name an article is listed by. *)
Lemma clean_name_slug (a : article) :
  filename a = generate_slug (title a) ++ lit ".html" ->
  url_path a = None \/ url_path a = Some (generate_slug (title a)) ->
  clean_name a = generate_slug (title a).
Proof.
  intros Hf [Hu|Hu]; unfold clean_name; rewrite Hu; [|reflexivity].
  rewrite Hf. apply replace_html_suffix, slug_no_dot.
Qed.

(** X24. When every article is named by the slug of its title, as the
    worker names it and as a ledger entry written by the worker names
    it, the address of an article in the sitemap is the base URL, the
    language and that slug, without [.html], whether the article was
    processed in this run or rebuilt from the ledger. *)
Theorem sitemap_lists_articles_by_slug (all_processed_posts : gmap str (list article))
  (base_url current_date : str) :
  (forall lang_code posts,
     all_processed_posts !! lang_code = Some posts ->
     Forall (fun a => filename a = generate_slug (title a) ++ lit ".html"
                      /\ (url_path a = None
                          \/ url_path a = Some (generate_slug (title a)))) posts) ->
  sitemap_urls all_processed_posts base_url current_date
  = mkUrl base_url current_date (lit "daily") (lit "1.0")
    :: flat_map
         (fun lang_code : str =>
            mkUrl (base_url ++ lit "/" ++ lang_code ++ lit "/") current_date
              (lit "daily") (lit "0.9")
            :: map (fun a =>
                      mkUrl (base_url ++ lit "/" ++ lang_code ++ lit "/"
                             ++ generate_slug (title a))
                        current_date (lit "weekly") (lit "0.8"))
                 (default [] (all_processed_posts !! lang_code)))
         LANGUAGE_CODES.
Proof.
  intros Hnamed. unfold sitemap_urls. f_equal.
  induction LANGUAGE_CODES as [|lang_code rest IH]; [reflexivity|].
  cbn [flat_map]. rewrite IH. f_equal. unfold language_urls. f_equal.
  destruct (all_processed_posts !! lang_code) as [posts|] eqn:Hl; [|reflexivity].
  change (default [] (Some posts)) with posts.
  specialize (Hnamed lang_code posts Hl). clear Hl IH.
  induction Hnamed as [|a r [Hf Hu] _ IHr]; [reflexivity|].
  cbn [map]. rewrite IHr, (clean_name_slug a Hf Hu). reflexivity.
Qed.

Lemma sitemap_lists_articles_by_slug_witness :
  (forall lang_code posts,
     ({[ lit "en" := [stub_article 7] ]} : gmap str (list article)) !! lang_code
     = Some posts ->
     Forall (fun a => filename a = generate_slug (title a) ++ lit ".html"
                      /\ (url_path a = None
                          \/ url_path a = Some (generate_slug (title a)))) posts)
  /\ sitemap_urls {[ lit "en" := [stub_article 7] ]} (lit "https://iplex.uz")
       (lit "2026-01-01")
     = mkUrl (lit "https://iplex.uz") (lit "2026-01-01") (lit "daily") (lit "1.0")
       :: flat_map
            (fun lang_code : str =>
               mkUrl (lit "https://iplex.uz" ++ lit "/" ++ lang_code ++ lit "/")
                 (lit "2026-01-01") (lit "daily") (lit "0.9")
               :: map (fun a =>
                         mkUrl (lit "https://iplex.uz" ++ lit "/" ++ lang_code ++ lit "/"
                                ++ generate_slug (title a))
                           (lit "2026-01-01") (lit "weekly") (lit "0.8"))
                    (default []
                       (({[ lit "en" := [stub_article 7] ]} : gmap str (list article))
                        !! lang_code)))
            LANGUAGE_CODES.
Proof.
  assert (H : forall lang_code posts,
            ({[ lit "en" := [stub_article 7] ]} : gmap str (list article)) !! lang_code
            = Some posts ->
            Forall (fun a => filename a = generate_slug (title a) ++ lit ".html"
                             /\ (url_path a = None
                                 \/ url_path a = Some (generate_slug (title a)))) posts).
  { intros lang_code posts Hl. apply lookup_singleton_Some in Hl as [_ <-].
    constructor; [|constructor]. split; [vm_compute; reflexivity|left; reflexivity]. }
  split; [exact H|].
  exact (sitemap_lists_articles_by_slug _ (lit "https://iplex.uz") (lit "2026-01-01") H).
Defined.

(** ** The URLs of the source site *)

Section FetchFacts.

Variable http : nat -> attempt_result.
Variable now_first : spec_float.
Variable now_saved : nat -> spec_float.

Local Abbreviation fetch := (fetch_sitemap_urls http now_first now_saved).
Local Abbreviation loop := (attempts http now_saved).

Lemma attempts_failing sitemap_url count : forall first rest st,
  first + count <= MAX_RETRIES - 1 ->
  (forall i, first <= i < first + count -> exists e, http i = Failed e) ->
  loop sitemap_url (seq first count ++ rest) st
  = loop sitemap_url rest
      (mkFetch (file st) (events st ++ failed_rounds sitemap_url first count)).
Proof.
  induction count as [|count IH]; intros first rest st Hle Hfail.
  - cbn [seq app failed_rounds flat_map]. rewrite app_nil_r. destruct st; reflexivity.
  - cbn [seq app attempts]. destruct (Hfail first) as [e He]; [lia|]. rewrite He.
    destruct (Nat.ltb_spec first (MAX_RETRIES - 1)) as [_|Hge];
      [|unfold MAX_RETRIES in *; lia].
    rewrite IH; [|lia|intros i Hi; apply Hfail; lia].
    unfold failed_rounds. cbn [seq flat_map note file events].
    rewrite <- !app_assoc. reflexivity.
Qed.

Lemma attempts_grow sitemap_url todo : forall st0,
  exists more, events (snd (loop sitemap_url todo st0)) = events st0 ++ more.
Proof.
  induction todo as [|attempt todo IH]; intros st0.
  - exists []. cbn. rewrite app_nil_r. reflexivity.
  - cbn [attempts]. destruct (http attempt) as [t|e'|].
    + eexists. cbn [snd events note]. reflexivity.
    + destruct (attempt <? MAX_RETRIES - 1).
      * destruct (IH (note (Wait (RETRY_DELAY * (Z.of_nat attempt + 1)))
                        (note (Request sitemap_url REQUEST_TIMEOUT) st0)))
          as [more Hm].
        eexists. rewrite Hm. cbn [events note]. rewrite <- !app_assoc. reflexivity.
      * destruct e'.
        -- destruct (IH (note (Request sitemap_url REQUEST_TIMEOUT) st0)) as [more Hm].
           eexists. rewrite Hm. cbn [events note]. rewrite <- !app_assoc. reflexivity.
        -- destruct (IH (note (Request sitemap_url REQUEST_TIMEOUT) st0)) as [more Hm].
           eexists. rewrite Hm. cbn [events note]. rewrite <- !app_assoc. reflexivity.
        -- eexists. cbn [snd events note]. reflexivity.
    + eexists. cbn [snd events note]. reflexivity.
Qed.

(** A cache file less than a day old answers the call: its list is
    returned and nothing is requested or written. Without such a file
    the call starts with a request, whatever the file holds. *)
Lemma fresh_cache_spares_the_request (sitemap_url : str) (st : fetch_state) :
  match fresh_urls now_first (file st) with
  | Some urls => fetch sitemap_url st = (Urls urls, st)
  | None =>
      exists more,
        events (snd (fetch sitemap_url st))
        = events st ++ Request sitemap_url REQUEST_TIMEOUT :: more
  end.
Proof.
  unfold fetch_sitemap_urls.
  destruct (fresh_urls now_first (file st)) as [urls|]; [reflexivity|].
  change (seq 0 MAX_RETRIES) with (0 :: seq 1 4). cbn [attempts].
  destruct (http 0) as [texts|e|].
  - exists []. reflexivity.
  - cbn [Nat.ltb Nat.leb MAX_RETRIES Nat.sub].
    destruct (attempts_grow sitemap_url (seq 1 4)
                (note (Wait (RETRY_DELAY * (Z.of_nat 0 + 1)))
                   (note (Request sitemap_url REQUEST_TIMEOUT) st)))
      as [more Hm].
    eexists. rewrite Hm. cbn [events note]. rewrite <- !app_assoc. reflexivity.
  - exists []. reflexivity.
Qed.

(** X25. When the cache is not fresh and every attempt fails with an
    exception of [requests], the site is requested [MAX_RETRIES] times
    with waits of 3, 6, 9 and 12 seconds in between, and the cache file
    is left as it was. The list of an old cache file is handed back
    only when the last failure is neither a timeout nor a connection
    error; after a timeout or a connection error the result is the
    empty list, whatever the cache file holds. *)
Theorem failed_fetch_falls_back_on_error_status_only
  (sitemap_url : str) (st : fetch_state) :
  fresh_urls now_first (file st) = None ->
  (forall i, i < MAX_RETRIES -> exists e, http i = Failed e) ->
  exists st',
    fetch sitemap_url st
    = (Urls (match http (MAX_RETRIES - 1) with
             | Failed RequestException => stale_urls (file st)
             | _ => []
             end), st')
    /\ file st' = file st
    /\ events st'
       = events st
         ++ [Request sitemap_url REQUEST_TIMEOUT; Wait 3;
             Request sitemap_url REQUEST_TIMEOUT; Wait 6;
             Request sitemap_url REQUEST_TIMEOUT; Wait 9;
             Request sitemap_url REQUEST_TIMEOUT; Wait 12;
             Request sitemap_url REQUEST_TIMEOUT].
Proof.
  intros Hstale Hfail. unfold fetch_sitemap_urls. rewrite Hstale.
  change (seq 0 MAX_RETRIES) with (seq 0 4 ++ [4]).
  rewrite attempts_failing;
    [|unfold MAX_RETRIES; lia|intros i Hi; apply Hfail; unfold MAX_RETRIES; lia].
  cbn [attempts]. destruct (Hfail 4) as [e He]; [unfold MAX_RETRIES; lia|].
  change (MAX_RETRIES - 1) with 4. rewrite He.
  change (4 <? 4) with false. cbv iota.
  destruct e; eexists; (split; [reflexivity|split; [reflexivity|]]);
    cbn [events note file failed_rounds flat_map seq]; rewrite <- !app_assoc;
    reflexivity.
Qed.

Lemma fetch_answered (sitemap_url : str) (st : fetch_state) (k : nat)
  (texts : list str) :
  fresh_urls now_first (file st) = None ->
  k < MAX_RETRIES ->
  (forall i, i < k -> exists e, http i = Failed e) ->
  http k = Locs texts ->
  fetch sitemap_url st
  = (Urls (List.filter truthy texts),
     mkFetch (Cached (Some (List.filter truthy texts)) (Stamp (now_saved k)))
       (events st ++ failed_rounds sitemap_url 0 k
        ++ [Request sitemap_url REQUEST_TIMEOUT])).
Proof.
  intros Hstale Hk Hfail Hok. unfold fetch_sitemap_urls. rewrite Hstale.
  replace (seq 0 MAX_RETRIES) with (seq 0 k ++ k :: seq (S k) (MAX_RETRIES - S k)).
  2:{ change (k :: seq (S k) (MAX_RETRIES - S k)) with (seq k (S (MAX_RETRIES - S k))).
      rewrite <- seq_app. f_equal. lia. }
  rewrite attempts_failing;
    [|unfold MAX_RETRIES in *; lia|intros i Hi; apply Hfail; lia].
  cbn [attempts]. rewrite Hok. cbn [events note file]. rewrite <- app_assoc.
  reflexivity.
Qed.

(** X26. When the cache is not fresh and the site answers at attempt
    [k] after [k] failures, the call returns the non-empty texts of the
    [<loc>] tags in their order, after [k + 1] requests with the waits
    of the failed attempts in between, and leaves them in the cache
    file with the time of the save. *)
Theorem answered_fetch_fills_the_cache
  (sitemap_url : str) (st : fetch_state) (k : nat) (texts : list str) :
  fresh_urls now_first (file st) = None ->
  k < MAX_RETRIES ->
  (forall i, i < k -> exists e, http i = Failed e) ->
  http k = Locs texts ->
  fetch sitemap_url st
  = (Urls (List.filter truthy texts),
     mkFetch (Cached (Some (List.filter truthy texts)) (Stamp (now_saved k)))
       (events st ++ failed_rounds sitemap_url 0 k
        ++ [Request sitemap_url REQUEST_TIMEOUT])).
Proof. apply fetch_answered. Qed.

End FetchFacts.

(** X27. What a call fetched serves the calls of the following day:
    once the site has answered and the list is saved, a call whose
    clock reads less than 86400 seconds past the time of the save
    returns that list from the cache file, requests nothing and leaves
    the file as it is, whatever the network would answer. *)
Theorem fetched_list_serves_the_next_day
  (http other : nat -> attempt_result) (now_first now_next : spec_float)
  (now_saved now_saved' : nat -> spec_float)
  (sitemap_url : str) (st : fetch_state) (k : nat) (texts : list str) :
  fresh_urls now_first (file st) = None ->
  k < MAX_RETRIES ->
  (forall i, i < k -> exists e, http i = Failed e) ->
  http k = Locs texts ->
  SFltb (SFsub 53 1024 now_next (now_saved k)) (float_of_int 86400) = true ->
  let st1 := snd (fetch_sitemap_urls http now_first now_saved sitemap_url st) in
  fetch_sitemap_urls other now_next now_saved' sitemap_url st1
  = (Urls (List.filter truthy texts), st1).
Proof.
  intros Hstale Hk Hfail Hok Hday st1.
  unfold st1. rewrite (fetch_answered http now_first now_saved
                         sitemap_url st k texts Hstale Hk Hfail Hok).
  unfold fetch_sitemap_urls. cbn [snd file fresh_urls within_a_day].
  rewrite Hday. reflexivity.
Qed.


Lemma failed_fetch_falls_back_on_error_status_only_witness :
  fresh_urls late (file old_cache) = None
  /\ (forall i, i < MAX_RETRIES -> exists e, timing_out i = Failed e)
  /\ exists st',
    fetch_sitemap_urls timing_out late (fun _ => late) (lit "https://infoedu.uz/sitemap.xml")
      old_cache
    = (Urls (match timing_out (MAX_RETRIES - 1) with
             | Failed RequestException => stale_urls (file old_cache)
             | _ => []
             end), st')
    /\ file st' = file old_cache
    /\ events st'
       = events old_cache
         ++ [Request (lit "https://infoedu.uz/sitemap.xml") REQUEST_TIMEOUT; Wait 3;
             Request (lit "https://infoedu.uz/sitemap.xml") REQUEST_TIMEOUT; Wait 6;
             Request (lit "https://infoedu.uz/sitemap.xml") REQUEST_TIMEOUT; Wait 9;
             Request (lit "https://infoedu.uz/sitemap.xml") REQUEST_TIMEOUT; Wait 12;
             Request (lit "https://infoedu.uz/sitemap.xml") REQUEST_TIMEOUT].
Proof.
  assert (H1 : fresh_urls late (file old_cache) = None) by (vm_compute; reflexivity).
  assert (H2 : forall i, i < MAX_RETRIES -> exists e, timing_out i = Failed e)
    by (intros i _; eexists; reflexivity).
  split; [exact H1|]. split; [exact H2|].
  exact (failed_fetch_falls_back_on_error_status_only timing_out late (fun _ => late)
           (lit "https://infoedu.uz/sitemap.xml") old_cache H1 H2).
Defined.

Lemma answered_fetch_fills_the_cache_witness :
  fresh_urls late (file old_cache) = None
  /\ 2 < MAX_RETRIES
  /\ (forall i, i < 2 -> exists e, third_time i = Failed e)
  /\ third_time 2 = Locs [lit "https://infoedu.uz/a"; []; lit "https://infoedu.uz/b"]
  /\ fetch_sitemap_urls third_time late (fun _ => late)
       (lit "https://infoedu.uz/sitemap.xml") old_cache
     = (Urls (List.filter truthy [lit "https://infoedu.uz/a"; []; lit "https://infoedu.uz/b"]),
        mkFetch (Cached (Some (List.filter truthy
                                 [lit "https://infoedu.uz/a"; []; lit "https://infoedu.uz/b"]))
                   (Stamp late))
          (events old_cache
           ++ failed_rounds (lit "https://infoedu.uz/sitemap.xml") 0 2
           ++ [Request (lit "https://infoedu.uz/sitemap.xml") REQUEST_TIMEOUT])).
Proof.
  assert (H1 : fresh_urls late (file old_cache) = None) by (vm_compute; reflexivity).
  assert (H2 : 2 < MAX_RETRIES) by (unfold MAX_RETRIES; lia).
  assert (H3 : forall i, i < 2 -> exists e, third_time i = Failed e).
  { intros i Hi. exists ConnectionError. unfold third_time.
    destruct (Nat.ltb_spec i 2); [reflexivity|lia]. }
  assert (H4 : third_time 2
               = Locs [lit "https://infoedu.uz/a"; []; lit "https://infoedu.uz/b"])
    by reflexivity.
  split; [exact H1|]. split; [exact H2|]. split; [exact H3|]. split; [exact H4|].
  exact (answered_fetch_fills_the_cache third_time late (fun _ => late)
           (lit "https://infoedu.uz/sitemap.xml") old_cache 2 _ H1 H2 H3 H4).
Defined.

Lemma fetched_list_serves_the_next_day_witness :
  fresh_urls late (file old_cache) = None
  /\ 2 < MAX_RETRIES
  /\ (forall i, i < 2 -> exists e, third_time i = Failed e)
  /\ third_time 2 = Locs [lit "https://infoedu.uz/a"; []; lit "https://infoedu.uz/b"]
  /\ SFltb (SFsub 53 1024 late late) (float_of_int 86400) = true
  /\ let st1 := snd (fetch_sitemap_urls third_time late (fun _ => late)
                       (lit "https://infoedu.uz/sitemap.xml") old_cache) in
     fetch_sitemap_urls timing_out late (fun _ => late)
       (lit "https://infoedu.uz/sitemap.xml") st1
     = (Urls (List.filter truthy [lit "https://infoedu.uz/a"; []; lit "https://infoedu.uz/b"]),
        st1).
Proof.
  assert (H1 : fresh_urls late (file old_cache) = None) by (vm_compute; reflexivity).
  assert (H2 : 2 < MAX_RETRIES) by (unfold MAX_RETRIES; lia).
  assert (H3 : forall i, i < 2 -> exists e, third_time i = Failed e).
  { intros i Hi. exists ConnectionError. unfold third_time.
    destruct (Nat.ltb_spec i 2); [reflexivity|lia]. }
  assert (H4 : third_time 2
               = Locs [lit "https://infoedu.uz/a"; []; lit "https://infoedu.uz/b"])
    by reflexivity.
  assert (H5 : SFltb (SFsub 53 1024 late late) (float_of_int 86400) = true)
    by (vm_compute; reflexivity).
  split; [exact H1|]. split; [exact H2|]. split; [exact H3|]. split; [exact H4|].
  split; [exact H5|].
  exact (fetched_list_serves_the_next_day third_time timing_out late late
           (fun _ => late) (fun _ => late)
           (lit "https://infoedu.uz/sitemap.xml") old_cache 2 _ H1 H2 H3 H4 H5).
Defined.

(** ** The posts of the CSV file *)

Lemma contains_truthy needle hay :
  truthy needle = true -> contains needle hay = true -> truthy hay = true.
Proof.
  destruct needle as [|a n]; [discriminate|]. intros _.
  destruct hay as [|c r]; [|reflexivity]. cbn. discriminate.
Qed.

Lemma lower_truthy s : truthy (lower s) = truthy s.
Proof. destruct s; reflexivity. Qed.

(** The scan keeps the first name that holds each word. *)
Lemma scan_finds cols : forall title_col content_col,
  match title_col with Some c => truthy c = true | None => True end ->
  match content_col with Some c => truthy c = true | None => True end ->
  fold_left scan_step cols (title_col, content_col)
  = (match title_col with
     | Some c => Some c
     | None => List.find (fun c => contains (lit "title") (lower c)) cols
     end,
     match content_col with
     | Some c => Some c
     | None => List.find (fun c => contains (lit "content") (lower c)) cols
     end).
Proof.
  induction cols as [|col rest IH]; intros title_col content_col Ht Hc.
  - destruct title_col, content_col; reflexivity.
  - cbn [fold_left List.find]. unfold scan_step at 2.
    assert (Hcol : forall needle, truthy needle = true ->
              contains needle (lower col) = true -> truthy col = true).
    { intros needle Hn Hin. rewrite <- lower_truthy.
      exact (contains_truthy needle (lower col) Hn Hin). }
    destruct title_col as [t|], content_col as [c|].
    + rewrite Ht, Hc, !andb_false_r. apply (IH (Some t) (Some c)); assumption.
    + rewrite Ht, andb_false_r, andb_true_r.
      destruct (contains (lit "content") (lower col)) eqn:Hin.
      * apply (IH (Some t) (Some col)); [assumption|].
        exact (Hcol (lit "content") eq_refl Hin).
      * apply (IH (Some t) None); [assumption|constructor].
    + rewrite Hc, andb_false_r, andb_true_r.
      destruct (contains (lit "title") (lower col)) eqn:Hin.
      * apply (IH (Some col) (Some c)); [|assumption].
        exact (Hcol (lit "title") eq_refl Hin).
      * apply (IH None (Some c)); [constructor|assumption].
    + rewrite !andb_true_r.
      destruct (contains (lit "title") (lower col)) eqn:Hin1,
               (contains (lit "content") (lower col)) eqn:Hin2.
      * apply (IH (Some col) (Some col));
          [exact (Hcol (lit "title") eq_refl Hin1)
          |exact (Hcol (lit "content") eq_refl Hin2)].
      * apply (IH (Some col) None); [exact (Hcol (lit "title") eq_refl Hin1)|constructor].
      * apply (IH None (Some col)); [constructor|exact (Hcol (lit "content") eq_refl Hin2)].
      * apply (IH None None); constructor.
Qed.

Lemma find_contains needle cols c :
  truthy needle = true ->
  List.find (fun c => contains needle (lower c)) cols = Some c ->
  truthy c = true.
Proof.
  intros Hn Hf. apply find_some in Hf as [_ Hin].
  rewrite <- lower_truthy. exact (contains_truthy needle (lower c) Hn Hin).
Qed.

(** X28. Without pandas the title column is the first name of the
    header that holds [title] once lowered, and the content column the
    first that holds [content]; one name may serve as both. The posts
    are the rows, in their order, whose two fields are not blank, and
    the function leaves through [sys.exit(1)] when one of the two
    columns is missing. *)
Theorem csv_columns_are_the_first_matches (first : row) (rest : list row) :
  overlong first = false ->
  read_posts_csv (Some (first :: rest))
  = match List.find (fun c => contains (lit "title") (lower c)) (map fst (fields first)),
          List.find (fun c => contains (lit "content") (lower c)) (map fst (fields first))
    with
    | Some title_col, Some content_col =>
        Posts (omap (row_post title_col content_col) (first :: rest))
    | _, _ => Exit 1
    end.
Proof.
  intros Hover. unfold read_posts_csv. rewrite Hover.
  rewrite (scan_finds (map fst (fields first)) None None I I).
  destruct (List.find _ _) as [tc|] eqn:Ht; [|reflexivity].
  destruct (List.find (fun c => contains (lit "content") (lower c)) _) as [cc|] eqn:Hc;
    [|reflexivity].
  rewrite (find_contains (lit "title") _ tc eq_refl Ht).
  rewrite (find_contains (lit "content") _ cc eq_refl Hc). reflexivity.
Qed.

Lemma csv_columns_are_the_first_matches_witness :
  overlong (mkRow [(lit "ID", Text (lit "1")); (lit "Post Title", Text (lit " Salom "));
                   (lit "post_content", NoValue)] false) = false
  /\ read_posts_csv
       (Some [mkRow [(lit "ID", Text (lit "1")); (lit "Post Title", Text (lit " Salom "));
                     (lit "post_content", NoValue)] false])
     = match List.find (fun c => contains (lit "title") (lower c))
               (map fst (fields (mkRow [(lit "ID", Text (lit "1"));
                                        (lit "Post Title", Text (lit " Salom "));
                                        (lit "post_content", NoValue)] false))),
             List.find (fun c => contains (lit "content") (lower c))
               (map fst (fields (mkRow [(lit "ID", Text (lit "1"));
                                        (lit "Post Title", Text (lit " Salom "));
                                        (lit "post_content", NoValue)] false)))
       with
       | Some title_col, Some content_col =>
           Posts (omap (row_post title_col content_col)
                    [mkRow [(lit "ID", Text (lit "1"));
                            (lit "Post Title", Text (lit " Salom "));
                            (lit "post_content", NoValue)] false])
       | _, _ => Exit 1
       end.
Proof.
  split; [reflexivity|].
  exact (csv_columns_are_the_first_matches
           (mkRow [(lit "ID", Text (lit "1")); (lit "Post Title", Text (lit " Salom "));
                   (lit "post_content", NoValue)] false) [] eq_refl).
Defined.

(** X29. A row that is shorter than the header is not dropped for its
    missing content: the missing value reads as the string [None], and
    the row becomes a post with that content when its title is not
    blank. *)
Theorem short_row_has_the_content_None (title_col content_col : str) (r : row)
  (t : str) :
  get (fields r) title_col = Text t ->
  has_ink t = true ->
  get (fields r) content_col = NoValue ->
  row_post title_col content_col r = Some (mkPost (strip t) (lit "None")).
Proof.
  intros Ht Hi Hc. unfold row_post. rewrite Ht, Hc. cbn [cell_str].
  rewrite (strip_truthy t Hi).
  replace (strip (lit "None")) with (lit "None") by (vm_compute; reflexivity).
  reflexivity.
Qed.

Lemma short_row_has_the_content_None_witness :
  get (fields (mkRow [(lit "title", Text (lit " Salom ")); (lit "content", NoValue)] false))
    (lit "title") = Text (lit " Salom ")
  /\ has_ink (lit " Salom ") = true
  /\ get (fields (mkRow [(lit "title", Text (lit " Salom ")); (lit "content", NoValue)]
                    false)) (lit "content") = NoValue
  /\ row_post (lit "title") (lit "content")
       (mkRow [(lit "title", Text (lit " Salom ")); (lit "content", NoValue)] false)
     = Some (mkPost (strip (lit " Salom ")) (lit "None")).
Proof.
  assert (H1 : get (fields (mkRow [(lit "title", Text (lit " Salom "));
                                   (lit "content", NoValue)] false)) (lit "title")
               = Text (lit " Salom ")) by (vm_compute; reflexivity).
  assert (H2 : has_ink (lit " Salom ") = true) by (vm_compute; reflexivity).
  assert (H3 : get (fields (mkRow [(lit "title", Text (lit " Salom "));
                                   (lit "content", NoValue)] false)) (lit "content")
               = NoValue) by (vm_compute; reflexivity).
  split; [exact H1|]. split; [exact H2|]. split; [exact H3|].
  exact (short_row_has_the_content_None (lit "title") (lit "content") _ (lit " Salom ")
           H1 H2 H3).
Defined.

Example csv_sample :
  read_posts_csv
    (Some [mkRow [(lit "ID", Text (lit "1")); (lit "Post Title", Text (lit " Salom "));
                  (lit "post_content", NoValue)] false;
           mkRow [(lit "ID", Text (lit "2")); (lit "Post Title", Text (lit "  "));
                  (lit "post_content", Text (lit "matn"))] false])
  = Posts [mkPost (lit "Salom") (lit "None")].
Proof. vm_compute. reflexivity. Qed.

(** ** The news feed *)

Lemma str_ltb_irrefl a : str_ltb a a = false.
Proof.
  induction a as [|x a IH]; [reflexivity|].
  cbn [str_ltb]. rewrite N.ltb_irrefl. exact IH.
Qed.

Lemma str_ltb_asym a : forall b, str_ltb a b = true -> str_ltb b a = false.
Proof.
  induction a as [|x a IH]; intros [|y b]; cbn [str_ltb]; try discriminate;
    try reflexivity.
  destruct (N.ltb_spec (code x) (code y)), (N.ltb_spec (code y) (code x));
    try reflexivity; try discriminate; try lia.
  apply IH.
Qed.

(** If [a] is not below [b] and [b] is not below [c], [a] is not below
    [c]. *)
Lemma str_geb_trans a : forall b c,
  str_ltb a b = false -> str_ltb b c = false -> str_ltb a c = false.
Proof.
  induction a as [|x a IH]; intros [|y b] [|z c]; cbn [str_ltb];
    try discriminate; try reflexivity.
  destruct (N.ltb_spec (code x) (code y)); [discriminate|].
  destruct (N.ltb_spec (code y) (code x)).
  - intros _. destruct (N.ltb_spec (code y) (code z)); [discriminate|].
    destruct (N.ltb_spec (code x) (code z)); [lia|].
    destruct (N.ltb_spec (code z) (code x)); [reflexivity|lia].
  - destruct (N.ltb_spec (code y) (code z)); [discriminate|].
    destruct (N.ltb_spec (code z) (code y)).
    + intros _ _. destruct (N.ltb_spec (code x) (code z)); [lia|].
      destruct (N.ltb_spec (code z) (code x)); [reflexivity|lia].
    + intros Hab Hbc. destruct (N.ltb_spec (code x) (code z)); [lia|].
      destruct (N.ltb_spec (code z) (code x)); [reflexivity|].
      exact (IH b c Hab Hbc).
Qed.

Local Abbreviation not_below :=
  (fun a b : latest => str_ltb (latest_title a) (latest_title b) = false).

Lemma insert_by_title_perm x l : insert_by_title x l ≡ₚ x :: l.
Proof.
  induction l as [|y r IH]; [reflexivity|].
  cbn [insert_by_title]. destruct (str_ltb _ _); [reflexivity|].
  rewrite IH. apply perm_swap.
Qed.

Lemma sorted_by_title_fold_perm l : forall acc,
  fold_left (fun acc x => insert_by_title x acc) l acc ≡ₚ l ++ acc.
Proof.
  induction l as [|x r IH]; intros acc; [reflexivity|].
  cbn [fold_left]. rewrite IH, insert_by_title_perm. symmetry. apply Permutation_middle.
Qed.

Lemma sorted_by_title_perm l : sorted_by_title l ≡ₚ l.
Proof. unfold sorted_by_title. rewrite sorted_by_title_fold_perm, app_nil_r. reflexivity. Qed.

Lemma insert_by_title_sorted x l :
  StronglySorted not_below l -> StronglySorted not_below (insert_by_title x l).
Proof.
  induction l as [|y r IH]; intros Hs.
  - repeat constructor.
  - cbn [insert_by_title]. inversion Hs as [|? ? Hr Hy]; subst.
    destruct (str_ltb (latest_title y) (latest_title x)) eqn:Hlt.
    + constructor; [exact Hs|]. constructor; [apply str_ltb_asym; exact Hlt|].
      eapply Forall_impl; [exact Hy|]. cbn beta. intros z Hz.
      apply (str_geb_trans _ (latest_title y)); [apply str_ltb_asym; exact Hlt|exact Hz].
    + constructor; [apply IH; exact Hr|].
      rewrite insert_by_title_perm. constructor; [exact Hlt|exact Hy].
Qed.

Lemma sorted_by_title_sorted l : StronglySorted not_below (sorted_by_title l).
Proof.
  unfold sorted_by_title.
  assert (H : forall acc, StronglySorted not_below acc ->
              StronglySorted not_below
                (fold_left (fun acc x => insert_by_title x acc) l acc)).
  { induction l as [|x r IH]; intros acc Hs; [exact Hs|].
    cbn [fold_left]. apply IH, insert_by_title_sorted, Hs. }
  apply H. constructor.
Qed.

Lemma sorted_app_split {A} (R : A -> A -> Prop) (l1 l2 : list A) :
  StronglySorted R (l1 ++ l2) ->
  StronglySorted R l1 /\ forall a b, a ∈ l1 -> b ∈ l2 -> R a b.
Proof.
  induction l1 as [|x l1 IH]; intros Hs.
  - split; [constructor|]. intros a b Ha. apply elem_of_nil in Ha. contradiction.
  - cbn [app] in Hs. inversion Hs as [|? ? Hr Hx]; subst.
    destruct (IH Hr) as [Hs1 Hcross]. split.
    + constructor; [exact Hs1|]. apply Forall_app in Hx. tauto.
    + intros a b Ha Hb. apply elem_of_cons in Ha as [->|Ha].
      * rewrite Forall_forall in Hx. apply Hx. apply elem_of_app. right. exact Hb.
      * apply Hcross; assumption.
Qed.

(** X30. The news feed of the landing page holds the entries with the
    greatest titles, at most [LATEST_ARTICLES_COUNT] of them, in
    descending order of title: no entry left out has a title above the
    title of an entry shown. The order in which the articles were
    processed plays no part beyond ties. *)
Theorem feed_shows_the_greatest_titles (latest_articles : list latest) :
  length (latest_articles_sorted latest_articles)
  = Nat.min LATEST_ARTICLES_COUNT (length latest_articles)
  /\ StronglySorted
       (fun a b => str_ltb (latest_title a) (latest_title b) = false)
       (latest_articles_sorted latest_articles)
  /\ exists left_out,
       latest_articles ≡ₚ latest_articles_sorted latest_articles ++ left_out
       /\ forall a b, a ∈ latest_articles_sorted latest_articles -> b ∈ left_out ->
            str_ltb (latest_title a) (latest_title b) = false.
Proof.
  unfold latest_articles_sorted.
  pose proof (sorted_by_title_perm latest_articles) as Hperm.
  pose proof (sorted_by_title_sorted latest_articles) as Hsorted.
  rewrite <- (firstn_skipn LATEST_ARTICLES_COUNT (sorted_by_title latest_articles))
    in Hsorted.
  destruct (sorted_app_split _ _ _ Hsorted) as [Hs1 Hcross].
  split; [rewrite length_firstn, (Permutation_length Hperm); reflexivity|].
  split; [exact Hs1|].
  exists (skipn LATEST_ARTICLES_COUNT (sorted_by_title latest_articles)).
  split; [rewrite firstn_skipn; symmetry; exact Hperm|exact Hcross].
Qed.

Example feed_sample :
  map latest_title
    (latest_articles_sorted
       [mkLatest (lit "Beta") (lit "en/beta.html") (lit "English");
        mkLatest (lit "Alfa") (lit "en/alfa.html") (lit "English");
        mkLatest (lit "Gamma") (lit "en/gamma.html") (lit "English");
        mkLatest (lit "Beta") (lit "ru/beta.html") (lit "Russian")])
  = [lit "Gamma"; lit "Beta"; lit "Beta"; lit "Alfa"].
Proof. vm_compute. reflexivity. Qed.
